(** * RARC archive codec (rarc.py): a shallow embedding and its properties

    The development follows the layout of [src/rarc.py]:
    FileListing flags, [hash_name], [StringTable], the [Directory]/[File]
    tree, the decoder ([Archive.from_file], [Directory.from_node]) and the
    encoder ([Archive.write_arc]).

    Conventions.
    - A Python [int] is a [Z]; a [bytes] value is a [list Z] of values in
      [0, 256); a [str] is the list of its code points ([ord] is the
      identity).
    - A call that may raise returns a [result]; the constructor of [exn]
      names the Python exception class (and the raise site where the class
      alone is ambiguous).
    - The shift-jis codec, [str.upper] and the yaz0 module are not part of
      the file: they are variables of the sections that use them. *)

From Stdlib Require Import ZArith Lia String Ascii.
From stdpp Require Import base option list gmap.

Local Open Scope Z_scope.

(** ** Python values *)

Abbreviation pystr := (list Z).
Abbreviation bytes := (list Z).

(** [len(x)] as a Python int. *)
Definition len {A} (l : list A) : Z := Z.of_nat (length l).

(** A string literal as a list of code points. *)
Fixpoint py (s : string) : pystr :=
  match s with
  | EmptyString => []
  | String c r => Z.of_N (N_of_ascii c) :: py r
  end.

#[global] Arguments py : simpl never.

Inductive exn : Type :=
| RuntimeError_header      (* "Unknown file header: ... should be Yaz0 or RARC" *)
| RuntimeError_file_in_path (* "File ... is a directory in path ..." *)
| RuntimeError_wszst       (* "Wszst is not used" *)
| TypeError
| FileExistsError
| FileNotFoundError
| KeyError
| IndexError
| AttributeError
| NameError
| AssertionError
| RecursionError           (* the interpreter's limit on nested calls *)
| StructError              (* struct.error of pack and unpack *)
| UnicodeEncodeError
| UnicodeDecodeError
| ExternalError.           (* raised inside the yaz0 module or an external tool *)

#[global] Instance exn_eq_dec : EqDecision exn.
Proof. solve_decision. Defined.

(** The outcome of a call: a value, an exception, or no outcome within the
    given number of loop iterations. *)
Inductive result (A : Type) : Type :=
| Ok (a : A)
| Raise (e : exn)
| OutOfFuel.
Arguments Ok {A} a.
Arguments Raise {A} e.
Arguments OutOfFuel {A}.

#[global] Instance result_ret : MRet result := fun A a => Ok a.

#[global] Instance result_bind : MBind result := fun A B k r =>
  match r with
  | Ok a => k a
  | Raise e => Raise e
  | OutOfFuel => OutOfFuel
  end.

(** [d[k]] on a dict held as a finite map. *)
Definition getitem `{Countable K} {V} (m : gmap K V) (k : K) : result V :=
  match m !! k with
  | Some v => Ok v
  | None => Raise KeyError
  end.

(** ** FileListing *)

Definition FILE : Z := 0x01.
Definition DIRECTORY : Z := 0x02.
Definition COMPRESSED : Z := 0x04.
Definition DATA_FILE : Z := 0x10.
Definition REL_FILE : Z := 0x20.
Definition YAZ0 : Z := 0x80.

Record FileListing : Type := mkFileListing {
  is_file : bool;
  is_dir : bool;
  is_compressed : bool;
  is_data : bool;
  is_rel : bool;
  is_yaz0 : bool
}.

#[global] Instance FileListing_eq_dec : EqDecision FileListing.
Proof. solve_decision. Defined.

(** [x != 0] *)
Definition nonzero (x : Z) : bool := negb (x =? 0).

(** The [log.info] notices of [from_flags]. *)
Inductive notice : Type :=
| Unknown_flag_0x40
| Unknown_flag_0x8.

#[global] Instance notice_eq_dec : EqDecision notice.
Proof. solve_decision. Defined.

Definition from_flags_notices (flags : Z) : list notice :=
  (if nonzero (Z.land flags 0x40) then [Unknown_flag_0x40] else []) ++
  (if nonzero (Z.land flags 0x8) then [Unknown_flag_0x8] else []).

Definition from_flags (flags : Z) : FileListing :=
  mkFileListing (nonzero (Z.land flags FILE))
                (nonzero (Z.land flags DIRECTORY))
                (nonzero (Z.land flags COMPRESSED))
                (nonzero (Z.land flags DATA_FILE))
                (nonzero (Z.land flags REL_FILE))
                (nonzero (Z.land flags YAZ0)).

Definition to_flags (self : FileListing) : Z :=
  let result := 0 in
  let result := if is_file self then Z.lor result FILE else result in
  let result := if is_dir self then Z.lor result DIRECTORY else result in
  let result := if is_compressed self then Z.lor result COMPRESSED else result in
  let result := if is_data self then Z.lor result DATA_FILE else result in
  let result := if is_rel self then Z.lor result REL_FILE else result in
  let result := if is_yaz0 self then Z.lor result YAZ0 else result in
  result.

(** [FileListing.default()]: an uncompressed data file. *)
Definition FileListing_default : FileListing :=
  mkFileListing true false false true false false.

(** ** hash_name *)

Definition hash_name (name : pystr) : Z :=
  let hash := 0 in
  let multiplier := 1 in
  let multiplier :=
    if len name + 1 =? 2 then 2
    else if len name + 1 >=? 3 then 3
    else multiplier in
  fold_left (fun hash letter =>
               let hash := Z.land (hash * multiplier) 0xFFFF in
               Z.land (hash + letter) 0xFFFF)
            name hash.

(** The reference algorithm, in the words of the specification (section 4.1):
    the multiplier is 1, 2 or 3 as [len(name)+1] is exactly 1, exactly 2, or
    3 or more; from 0, for each character in order,
    [h = (h * multiplier) mod 65536] then [h = (h + codepoint) mod 65536]. *)
Definition reference_multiplier (name : pystr) : Z :=
  let n := len name + 1 in
  if n =? 1 then 1
  else if n =? 2 then 2
  else 3.

Fixpoint reference_hash_from (m h : Z) (name : pystr) : Z :=
  match name with
  | [] => h
  | c :: rest => reference_hash_from m (((h * m) mod 65536 + c) mod 65536) rest
  end.

Definition reference_hash (name : pystr) : Z :=
  reference_hash_from (reference_multiplier name) 0 name.

(** ** External parts

    [Codec] stands for Python's shift-jis codec and [str.upper];
    [External] for the yaz0 module of the repository, the wszst tool, and
    the module-level name [compression_setting], which is bound only when
    rarc.py runs as a script. *)

Class Codec : Type := {
  sjis_encode : pystr -> option bytes;  (* None: UnicodeEncodeError *)
  sjis_decode : bytes -> option pystr;  (* None: UnicodeDecodeError *)
  str_upper : pystr -> pystr
}.

Record CompressionSetting : Type := mkCompressionSetting {
  yaz0_fast : bool;
  wszst : bool;
  compression_level : pystr
}.

(** [CompressionSetting()] *)
Definition CompressionSetting_default : CompressionSetting :=
  mkCompressionSetting false false (py "9").

Class External : Type := {
  (* yaz0.decompress(f, out, suppress_error): the bytes written to out *)
  decompress : bool -> bytes -> result bytes;
  (* yaz0.compress_fast(f, out): the bytes written to out *)
  compress_fast : bytes -> result bytes;
  (* subprocess wszst COMPRESS ... --compr level: the bytes of the output file *)
  wszst_tool : pystr -> bytes -> result bytes;
  module_compression_setting : option CompressionSetting
}.

(** ** BytesIO and struct *)

Record BytesIO : Type := mkBytesIO {
  getvalue : bytes;
  tell : Z
}.

Definition BytesIO_new : BytesIO := mkBytesIO [] 0.

Definition seek (f : BytesIO) (pos : Z) : BytesIO := mkBytesIO (getvalue f) pos.

(** The bytes a [read(n)] at position [pos] returns: fewer than [n] near the
    end, none at or past it. *)
Definition read_at (buf : bytes) (pos n : Z) : bytes :=
  take (Z.to_nat n) (drop (Z.to_nat pos) buf).

Definition read (f : BytesIO) (n : Z) : bytes * BytesIO :=
  let bs := read_at (getvalue f) (tell f) n in
  (bs, mkBytesIO (getvalue f) (tell f + len bs)).

(** [write] overwrites from the position on and extends the buffer, filling
    a gap after the old end with zeros; a write of no byte leaves the
    stream as it is, also past the end. *)
Definition write (f : BytesIO) (bs : bytes) : BytesIO :=
  match bs with
  | [] => f
  | _ :: _ =>
      let p := Z.to_nat (tell f) in
      let old := getvalue f in
      mkBytesIO (take p old ++ replicate (p - length old)%nat 0 ++ bs
                   ++ drop (p + length bs)%nat old)
                (tell f + len bs)
  end.

(** Big-endian bytes of [v], [n] of them. *)
Fixpoint be_bytes (n : nat) (v : Z) : bytes :=
  match n with
  | O => []
  | S k => be_bytes k (v / 256) ++ [v mod 256]
  end.

Definition be_value (bs : bytes) : Z :=
  fold_left (fun acc b => acc * 256 + b) bs 0.

(** [pack(">I", val)] and the like: [struct.error] outside the range. *)
Definition pack_be (n : nat) (val : Z) : result bytes :=
  if decide (0 <= val < 256 ^ Z.of_nat n) then Ok (be_bytes n val)
  else Raise StructError.

Fixpoint unpack_from (fmt : list nat) (data : bytes) : list Z :=
  match fmt with
  | [] => []
  | n :: r => be_value (take n data) :: unpack_from r (drop n data)
  end.

(** [unpack(fmt, data)] for a big-endian format of unsigned fields, given
    by the byte sizes of its fields: [struct.error] unless [data] has
    exactly the size of the format. *)
Definition unpack (fmt : list nat) (data : bytes) : result (list Z) :=
  if decide (length data = sum_list fmt) then Ok (unpack_from fmt data)
  else Raise StructError.

Definition write_uint32 (f : BytesIO) (val : Z) : result BytesIO :=
  bs ← pack_be 4 val; Ok (write f bs).

Definition write_uint16 (f : BytesIO) (val : Z) : result BytesIO :=
  bs ← pack_be 2 val; Ok (write f bs).

Definition write_uint8 (f : BytesIO) (val : Z) : result BytesIO :=
  bs ← pack_be 1 val; Ok (write f bs).

(** [(f.tell() + 0x1F) & ~0x1F] *)
Definition next_aligned_pos (pos : Z) : Z := Z.land (pos + 0x1F) (Z.lnot 0x1F).

Definition write_pad32 (f : BytesIO) : BytesIO :=
  write f (replicate (Z.to_nat (next_aligned_pos (tell f) - tell f)) 0).

(** Modelled from the spec: [read_uint32] of the yaz0 module, which is not
    among the source files. Section 4.3 has the header fields as big-endian
    multi-byte integers and section 7 has a truncated header fatal: four
    bytes are read and unpacked as [">I"]. *)
Definition read_uint32 (f : BytesIO) : result (Z * BytesIO) :=
  let '(bs, f) := read f 4 in
  l ← unpack [4%nat] bs;
  match l with
  | [v] => Ok (v, f)
  | _ => Raise StructError
  end.

(** ** StringTable *)

Record StringTable : Type := mkStringTable {
  _strings : BytesIO;
  _stringmap : gmap pystr Z
}.

Definition StringTable_new : StringTable := mkStringTable BytesIO_new ∅.

Definition write_string `{Codec} (self : StringTable) (string : pystr)
  : result StringTable :=
  match _stringmap self !! string with
  | Some _ => Ok self
  | None =>
      let offset := tell (_strings self) in
      match sjis_encode string with
      | None => Raise UnicodeEncodeError
      | Some bs =>
          let s := write (_strings self) bs in
          let s := write s [0] in
          Ok (mkStringTable s (<[string := offset]> (_stringmap self)))
      end
  end.

Definition get_string_offset (self : StringTable) (string : pystr) : result Z :=
  getitem (_stringmap self) string.

Definition StringTable_size (self : StringTable) : Z := tell (_strings self).

Definition write_to (self : StringTable) (f : BytesIO) : BytesIO :=
  write f (getvalue (_strings self)).

(** The stream stands at its end, as one that has only been written to. *)
Definition at_end (f : BytesIO) : Prop := tell f = len (getvalue f).

(** The states of a [StringTable]: the new table, and what [write_string]
    makes of a state. *)
Inductive StringTable_reachable `{Codec} : StringTable -> Prop :=
| reachable_new : StringTable_reachable StringTable_new
| reachable_write st s st' :
    StringTable_reachable st -> write_string st s = Ok st' ->
    StringTable_reachable st'.

(** What every state of a [StringTable] satisfies: the blob stream stands
    at its end, and every recorded offset is where the encoded string and
    its zero byte lie. *)
Definition StringTable_inv `{Codec} (st : StringTable) : Prop :=
  at_end (_strings st)
  /\ forall s offset, _stringmap st !! s = Some offset ->
       0 <= offset
       /\ exists bs, sjis_encode s = Some bs
            /\ read_at (getvalue (_strings st)) offset (len bs + 1) = bs ++ [0].

(** Every string of the table has been encoded. *)
Definition encoded_keys `{Codec} (st : StringTable) : Prop :=
  forall s offset, _stringmap st !! s = Some offset -> sjis_encode s <> None.

(** The loop [while f.read(1) != b"\x00": stringlen += 1] from position
    [pos]. A read at the end of the buffer returns [b""], which is not
    [b"\x00"]: the loop then goes on without moving. [fuel] bounds the
    number of iterations. *)
Fixpoint count_until_nul (fuel : nat) (buf : bytes) (pos stringlen : Z) : result Z :=
  match fuel with
  | O => OutOfFuel
  | S fuel =>
      let c := read_at buf pos 1 in
      if decide (c = [0]) then Ok stringlen
      else count_until_nul fuel buf (pos + len c) (stringlen + 1)
  end.

(** [stringtable_get_name(f, stringtable_offset, offset)]; the position of
    [f] is saved on entry and restored on exit, so [f] is its buffer here. *)
Definition stringtable_get_name `{Codec} (fuel : nat) (f : bytes)
    (stringtable_offset offset : Z) : result pystr :=
  stringlen ← count_until_nul fuel f (stringtable_offset + offset) 0;
  let filename := read_at f (stringtable_offset + offset) stringlen in
  match sjis_decode filename with
  | Some decodedfilename => Ok decodedfilename
  | None => Raise UnicodeDecodeError
  end.

(** ** Paths *)

Definition slash : Z := 47.
Definition backslash : Z := 92.

(** [split_path]: splits at the first slash or backslash. *)
Fixpoint split_path (path : pystr) : pystr * option pystr :=
  match path with
  | [] => ([], None)
  | char :: rest =>
      if decide (char = slash \/ char = backslash) then
        match rest with
        | [] => ([], None)
        | _ => ([], Some rest)
        end
      else
        let '(name, r) := split_path rest in (char :: name, r)
  end.

(** A path of one segment: no slash and no backslash. *)
Definition single_segment (path : pystr) : bool :=
  forallb (fun char => negb (bool_decide (char = slash \/ char = backslash))) path.

(** [str.isspace] for one character. *)
Definition isspace (c : Z) : bool :=
  bool_decide (0x09 <= c <= 0x0D \/ 0x1C <= c <= 0x20 \/ c = 0x85 \/ c = 0xA0
               \/ c = 0x1680 \/ 0x2000 <= c <= 0x200A \/ c = 0x2028
               \/ c = 0x2029 \/ c = 0x202F \/ c = 0x205F \/ c = 0x3000).

(** [rest is None or rest.strip() == ""] *)
Definition no_rest (rest : option pystr) : bool :=
  match rest with
  | None => true
  | Some rest => forallb isspace rest
  end.

(** ** The tree

    [files] and [subdirs] are Python dicts: lists of (key, value) in
    insertion order. [parent] is not a field here: a directory's parent is
    the directory that holds it, as [from_dir] and [from_node] set it, and
    the root has none. *)

Record File : Type := mkFile {
  file_name : pystr;
  _fileid : option Z;
  _hashcode : option Z;
  _flags : option Z;
  filetype : FileListing;
  file_getvalue : bytes
}.

#[warnings="-register-all"]
Inductive Directory : Type := mkDirectory {
  dir_name : pystr;
  _nodeindex : option Z;
  files : list (pystr * File);
  subdirs : list (pystr * Directory)
}.

Record Archive : Type := mkArchive { root : Directory }.

Definition keys {A} (d : list (pystr * A)) : list pystr := d.*1.

(** [k in d] *)
Definition dict_in {A} (k : pystr) (d : list (pystr * A)) : bool :=
  bool_decide (k ∈ keys d).

(** The position of key [k]. *)
Fixpoint dict_index {A} (k : pystr) (d : list (pystr * A)) : option nat :=
  match d with
  | [] => None
  | (k', _) :: r => if decide (k' = k) then Some O else S <$> dict_index k r
  end.

(** [d[k] = v]: a present key keeps its place. *)
Fixpoint dict_set {A} (k : pystr) (v : A) (d : list (pystr * A)) : list (pystr * A) :=
  match d with
  | [] => [(k, v)]
  | (k', v') :: r => if decide (k' = k) then (k, v) :: r else (k', v') :: dict_set k v r
  end.

(** [File(filename, fileid, hashcode, flags)] *)
Definition File_init (filename : pystr) (fileid hashcode flags : option Z) : File :=
  mkFile filename fileid hashcode flags
         (match flags with
          | Some flags => from_flags flags
          | None => FileListing_default
          end)
         [].

(** [File.from_file(filename, f)] *)
Definition File_from_file (filename : pystr) (content : bytes) : File :=
  let file := File_init filename None None None in
  mkFile (file_name file) (_fileid file) (_hashcode file) (_flags file)
         (filetype file) content.

(** ** Decoder *)

(** [log.warning] of the cycle guard. *)
Inductive warning : Type :=
| Detected_recursive_directory (name : pystr) (newparents : list Z) (nodeindex : Z).

(** A node of [nodelist]: (dir_name, unknown, entrycount, entryoffset). *)
Definition node : Type := option pystr * Z * Z * Z.

Fixpoint foldM {A S} (step : S -> A -> result S) (l : list A) (s : S) : result S :=
  match l with
  | [] => Ok s
  | a :: r => s' ← step s a; foldM step r s'
  end.

(** [unpack(">HHBBHIII", fileentry_data)] *)
Definition unpack_fileentry (data : bytes) : result (Z * Z * Z * Z * Z * Z * Z * Z) :=
  l ← unpack [2; 2; 1; 1; 2; 4; 4; 4]%nat data;
  match l with
  | [fileid; hashcode; flags; padbyte; nameoffset; filedataoffset; datasize; padding] =>
      Ok (fileid, hashcode, flags, padbyte, nameoffset, filedataoffset, datasize, padding)
  | _ => Raise StructError
  end.

(** [unpack(">IHHI", nodedata)] *)
Definition unpack_node (data : bytes) : result (Z * Z * Z * Z) :=
  l ← unpack [4; 2; 2; 4]%nat data;
  match l with
  | [nameoffset; unknown; entrycount; entryoffset] =>
      Ok (nameoffset, unknown, entrycount, entryoffset)
  | _ => Raise StructError
  end.

(** [File.from_fileentry]; the counter [DATA[0]] is instrumentation only
    and is left out. *)
Definition from_fileentry `{Codec} (fuel : nat) (f : bytes)
    (stringtable_offset globaldataoffset fileid hashcode flags nameoffset
       filedataoffset datasize : Z) : result File :=
  filename ← stringtable_get_name fuel f stringtable_offset nameoffset;
  let file := File_init filename (Some fileid) (Some hashcode) (Some flags) in
  Ok (mkFile (file_name file) (_fileid file) (_hashcode file) (_flags file)
             (filetype file)
             (read_at f (globaldataoffset + filedataoffset) datasize)).

Definition add_subdir (newdir subdir : Directory) : Directory :=
  mkDirectory (dir_name newdir) (_nodeindex newdir) (files newdir)
              (dict_set (dir_name subdir) subdir (subdirs newdir)).

Definition add_file (newdir : Directory) (file : File) : Directory :=
  mkDirectory (dir_name newdir) (_nodeindex newdir)
              (dict_set (file_name file) file (files newdir))
              (subdirs newdir).

(** One turn of the loop [for i in range(entrycount)] of [from_node];
    [from_node_rec] is the recursive call. The state is the directory under
    construction and the warnings logged so far. Every read follows a seek,
    so the stream is its buffer [f]. *)
Definition from_node_entry `{Codec}
    (from_node_rec : pystr -> Z -> option (list Z) -> result (Directory * list warning))
    (fuel : nat) (f : bytes)
    (stringtable_offset globalentryoffset dataoffset : Z)
    (entryoffset currentnodeindex : Z) (parents : option (list Z))
    (st : Directory * list warning) (i : Z) : result (Directory * list warning) :=
  let '(newdir, log) := st in
  let offset := globalentryoffset + (entryoffset + i) * 20 in
  let fileentry_data := read_at f offset 20 in
  '(fileid, hashcode, flags, padbyte, nameoffset, filedataoffset, datasize, padding)
    ← unpack_fileentry fileentry_data;
  name ← stringtable_get_name fuel f stringtable_offset nameoffset;
  if bool_decide (name = py "." \/ name = py ".." \/ name = py "") then Ok (newdir, log)
  else if nonzero (Z.land flags DIRECTORY) && negb (nonzero (Z.land flags FILE)) then
    let nodeindex := filedataoffset in
    name ← stringtable_get_name fuel f stringtable_offset nameoffset;
    let newparents := currentnodeindex :: default [] parents in
    if bool_decide (nodeindex ∈ newparents) then
      Ok (newdir, log ++ [Detected_recursive_directory name newparents nodeindex])
    else
      '(subdir, sublog) ← from_node_rec name nodeindex (Some newparents);
      Ok (add_subdir newdir subdir, log ++ sublog)
  else
    file ← from_fileentry fuel f stringtable_offset dataoffset fileid hashcode flags
                         nameoffset filedataoffset datasize;
    Ok (add_file newdir file, log).

(** [Directory.from_node]. [depth] is the number of nested calls of
    [from_node] that the interpreter allows: the call that would nest
    deeper raises [RecursionError]. [fuel] bounds the turns of each name
    loop. *)
Fixpoint from_node `{Codec} (depth fuel : nat) (f : bytes) (_name : pystr)
    (stringtable_offset globalentryoffset dataoffset : Z)
    (nodelist : list node) (currentnodeindex : Z) (parents : option (list Z))
  : result (Directory * list warning) :=
  match depth with
  | O => Raise RecursionError
  | S depth =>
      match nodelist !! Z.to_nat currentnodeindex with
      | None => Raise IndexError
      | Some (name, unknown, entrycount, entryoffset) =>
          let name := default _name name in
          let newdir := mkDirectory name (Some currentnodeindex) [] [] in
          foldM (from_node_entry
                   (fun name nodeindex parents =>
                      from_node depth fuel f name stringtable_offset
                                globalentryoffset dataoffset nodelist nodeindex parents)
                   fuel f stringtable_offset globalentryoffset dataoffset
                   entryoffset currentnodeindex parents)
                (seqZ 0 entrycount) (newdir, [])
      end
  end.

Definition Yaz0_magic : bytes := py "Yaz0".
Definition RARC_magic : bytes := py "RARC".

(** One turn of the loop [for i in range(node_count)] of [from_file]: the
    state is the stream and the nodes read so far. *)
Definition from_file_node `{Codec} (fuel : nat) (stringtable_offset : Z)
    (st : BytesIO * list node) (i : Z) : result (BytesIO * list node) :=
  let '(f, nodes) := st in
  let '(nodetype, f) := read f 4 in
  let '(nodedata, f) := read f (4 + 2 + 2 + 4) in
  '(nameoffset, unknown, entrycount, entryoffset) ← unpack_node nodedata;
  dir_name ← (if decide (i = 0)
              then name ← stringtable_get_name fuel (getvalue f) stringtable_offset nameoffset;
                   Ok (Some name)
              else Ok None);
  Ok (f, nodes ++ [(dir_name, unknown, entrycount, entryoffset)]).

(** [Archive.from_file], from the statement after the check of the magic
    on: [f] is the stream just past the four bytes of the magic. This is
    the decoder under an interpreter whose recursion limit is not reached:
    the number of nested calls allowed to [from_node] is one more than the
    number of nodes, and the cycle guard keeps the nesting below it
    ([from_node_depth]). [from_file_body_within] is the decoder under a
    given limit. *)
Definition from_file_body `{Codec} (fuel : nat) (f : BytesIO)
  : result (Archive * list warning) :=
  '(size, f) ← read_uint32 f;
  let '(_, f) := read f 4 in
  '(data_offset, f) ← read_uint32 f;
  let data_offset := data_offset + 0x20 in
  let '(_, f) := read f 16 in
  '(node_count, f) ← read_uint32 f;
  let '(_, f) := read f 8 in
  '(file_entry_offset, f) ← read_uint32 f;
  let file_entry_offset := file_entry_offset + 0x20 in
  let '(_, f) := read f 4 in
  '(stringtable_offset, f) ← read_uint32 f;
  let stringtable_offset := stringtable_offset + 0x20 in
  let '(_, f) := read f 8 in
  '(f, nodes) ← foldM (from_file_node fuel stringtable_offset) (seqZ 0 node_count) (f, []);
  match nodes with
  | [] => Raise IndexError
  | (rootfoldername, _, _, _) :: _ =>
      '(root, log) ← from_node (S (length nodes)) fuel (getvalue f)
                               (default [] rootfoldername)
                               stringtable_offset file_entry_offset data_offset
                               nodes 0 None;
      Ok (mkArchive root, log)
  end.

(** [Archive.from_file(f)] on a stream at position 0 over [buf]. *)
Definition from_file `{Codec} `{External} (fuel : nat) (buf : bytes)
  : result (Archive * list warning) :=
  let f := mkBytesIO buf 0 in
  let '(header, f) := read f 4 in
  '(header, f) ← (if decide (header = Yaz0_magic) then
                    let f := seek f 0 in
                    tmp ← decompress false (getvalue f);
                    let f := mkBytesIO tmp 0 in
                    Ok (read f 4)
                  else Ok (header, f));
  if decide (header = RARC_magic) then from_file_body fuel f
  else Raise RuntimeError_header.

(** [Archive.from_file] under an interpreter that allows [limit] nested
    calls of [Directory.from_node] (its recursion limit, less the frames in
    use when the root node is entered): the statements are those of
    [from_file_body] and [from_file]. *)
Definition from_file_body_within `{Codec} (limit fuel : nat) (f : BytesIO)
  : result (Archive * list warning) :=
  '(size, f) ← read_uint32 f;
  let '(_, f) := read f 4 in
  '(data_offset, f) ← read_uint32 f;
  let data_offset := data_offset + 0x20 in
  let '(_, f) := read f 16 in
  '(node_count, f) ← read_uint32 f;
  let '(_, f) := read f 8 in
  '(file_entry_offset, f) ← read_uint32 f;
  let file_entry_offset := file_entry_offset + 0x20 in
  let '(_, f) := read f 4 in
  '(stringtable_offset, f) ← read_uint32 f;
  let stringtable_offset := stringtable_offset + 0x20 in
  let '(_, f) := read f 8 in
  '(f, nodes) ← foldM (from_file_node fuel stringtable_offset) (seqZ 0 node_count) (f, []);
  match nodes with
  | [] => Raise IndexError
  | (rootfoldername, _, _, _) :: _ =>
      '(root, log) ← from_node limit fuel (getvalue f)
                               (default [] rootfoldername)
                               stringtable_offset file_entry_offset data_offset
                               nodes 0 None;
      Ok (mkArchive root, log)
  end.

Definition from_file_within `{Codec} `{External} (limit fuel : nat) (buf : bytes)
  : result (Archive * list warning) :=
  let f := mkBytesIO buf 0 in
  let '(header, f) := read f 4 in
  '(header, f) ← (if decide (header = Yaz0_magic) then
                    let f := seek f 0 in
                    tmp ← decompress false (getvalue f);
                    let f := mkBytesIO tmp 0 in
                    Ok (read f 4)
                  else Ok (header, f));
  if decide (header = RARC_magic) then from_file_body_within limit fuel f
  else Raise RuntimeError_header.

(** ** Tree operations *)

(** An object of the tree by its place: the directory reached from the root
    through the subdirectories at the positions [p], or the file at position
    [k] of that directory. *)
Inductive objref : Type :=
| DirRef (p : list nat)
| FileRef (p : list nat) (k : nat).

#[global] Instance objref_eq_dec : EqDecision objref.
Proof. solve_decision. Defined.

Definition ref_under (i : nat) (r : objref) : objref :=
  match r with
  | DirRef p => DirRef (i :: p)
  | FileRef p k => FileRef (i :: p) k
  end.

Fixpoint dir_at (self : Directory) (p : list nat) : option Directory :=
  match p with
  | [] => Some self
  | i :: p =>
      match subdirs self !! i with
      | Some (_, d) => dir_at d p
      | None => None
      end
  end.

(** [name] of the object at a place ([File] and [Directory] both have one). *)
Definition ref_name (root : Directory) (r : objref) : option pystr :=
  match r with
  | DirRef p => dir_name <$> dir_at root p
  | FileRef p k =>
      d ← dir_at root p;
      kf ← files d !! k;
      Some (file_name kf.2)
  end.

(** A walk item: [(dirpath, self.subdirs.keys(), self.files.keys())]. *)
Definition walkitem : Type := pystr * list pystr * list pystr.

(** [Directory.walk], the items in the order they are yielded. *)
Fixpoint walk (self : Directory) (_path : option pystr) : list walkitem :=
  match self with
  | mkDirectory name _ files subdirs =>
      let dirpath :=
        match _path with
        | None => name
        | Some _path => _path ++ py "/" ++ name
        end in
      (dirpath, keys subdirs, keys files)
        :: flat_map (fun kd => walk kd.2 (Some dirpath)) subdirs
  end.

(** [Directory.__getitem__], returning the place, relative to [self], of
    the object the lookup returns. *)
Fixpoint Directory_getitem (self : Directory) (path : pystr) {struct self}
  : result objref :=
  match self with
  | mkDirectory _ _ files subdirs =>
      let '(name, rest) := split_path path in
      if no_rest rest then
        match dict_index name subdirs with
        | Some i => Ok (DirRef [i])
        | None =>
            match dict_index name files with
            | Some k => Ok (FileRef [] k)
            | None => Raise FileNotFoundError
            end
        end
      else if dict_in name files then Raise RuntimeError_file_in_path
      else
        (fix lookup (l : list (pystr * Directory)) (i : nat) : result objref :=
           match l with
           | [] => Raise KeyError
           | (k, d) :: l =>
               if decide (k = name)
               then r ← Directory_getitem d (default [] rest); Ok (ref_under i r)
               else lookup l (S i)
           end) subdirs O
  end.

(** [Archive.__getitem__] *)
Definition Archive_getitem (self : Archive) (path : pystr) : result objref :=
  let '(dirname, rest) := split_path path in
  if no_rest rest then
    if decide (dirname ≠ dir_name (root self)) then Raise FileNotFoundError
    else Ok (DirRef [])
  else Directory_getitem (root self) (default [] rest).

(** A value handed to [__setitem__]. *)
Inductive pyobj : Type :=
| ObjStr (s : pystr)
| ObjFile (f : File)
| ObjDirectory (d : Directory).

Definition isinstance_File (o : pyobj) : bool :=
  match o with ObjFile _ => true | _ => false end.

Definition isinstance_Directory (o : pyobj) : bool :=
  match o with ObjDirectory _ => true | _ => false end.

(** [Directory.__setitem__(path, entry)]: the directory after the call and
    the outcome of the call. The two [isinstance] tests are made on [name],
    the first segment of the path. *)
Definition Directory_setitem (self : Directory) (path : pystr) (entry : pyobj)
  : Directory * result unit :=
  let '(name, rest) := split_path path in
  if no_rest rest then
    if isinstance_File (ObjStr name) then
      if dict_in name (subdirs self) then (self, Raise FileExistsError)
      else
        match entry with
        | ObjFile file =>
            (mkDirectory (dir_name self) (_nodeindex self)
                         (dict_set name file (files self)) (subdirs self), Ok ())
        | _ => (self, Ok ())
        end
    else if isinstance_Directory (ObjStr name) then
      if dict_in name (files self) then (self, Raise FileExistsError)
      else
        match entry with
        | ObjDirectory dir =>
            (mkDirectory (dir_name self) (_nodeindex self) (files self)
                         (dict_set name dir (subdirs self)), Ok ())
        | _ => (self, Ok ())
        end
    else (self, Raise TypeError)
  else if dict_in name (files self) then (self, Raise RuntimeError_file_in_path)
  else
    match dict_index name (subdirs self) with
    | None => (self, Raise KeyError)
    | Some i =>
        match subdirs self !! i with
        | Some (_, d) => (self, _ ← Directory_getitem d (default [] rest); Ok ())
        | None => (self, Raise KeyError)
        end
    end.

(** [bool(self.is_yaz0_compressed)]: [File.dump] tests the bound method
    itself, without calling it, and a bound method is true. *)
Definition bound_method_truth : bool := true.

(** [File.dump(f)] *)
Definition dump `{External} (self : File) (f : BytesIO) : result BytesIO :=
  if bound_method_truth then
    out ← decompress true (file_getvalue self);
    Ok (write f out)
  else Ok (write f (file_getvalue self)).

(** [os.path.join(a, b)] on a POSIX system. *)
Definition path_join (a b : pystr) : pystr :=
  match b with
  | c :: _ => if decide (c = slash) then b
              else match last a with
                   | None => b
                   | Some e => if decide (e = slash) then a ++ b else a ++ py "/" ++ b
                   end
  | [] => match last a with
          | None => b
          | Some e => if decide (e = slash) then a else a ++ py "/"
          end
  end.

(** What [extract_to] does to the file system, in order. *)
Inductive fs_effect : Type :=
| Makedirs (path : pystr)
| Write_file (path : pystr) (content : bytes).

(** One turn of the files loop of [extract_to]: the file is opened with
    mode ["w+b"] and dumped into. *)
Definition extract_file `{External} (current_dirpath : pystr)
    (effects : list fs_effect) (entry : pystr * File) : result (list fs_effect) :=
  let '(filename, file) := entry in
  let filepath := path_join current_dirpath filename in
  f ← dump file BytesIO_new;
  Ok (effects ++ [Write_file filepath (getvalue f)]).

(** [Directory.extract_to(path)] *)
Fixpoint extract_to `{External} (self : Directory) (path : pystr)
    (effects : list fs_effect) : result (list fs_effect) :=
  match self with
  | mkDirectory name _ files subdirs =>
      let current_dirpath := path_join path name in
      effects ← foldM (extract_file current_dirpath) files
                      (effects ++ [Makedirs current_dirpath]);
      (fix loop (l : list (pystr * Directory)) (effects : list fs_effect) :=
         match l with
         | [] => Ok effects
         | (dirname, dir) :: l =>
             effects ← extract_to dir current_dirpath effects;
             loop l effects
         end) subdirs effects
  end.

(** ** Encoder *)

(** [dir._nodeindex = i] for the directory at place [p]. *)
Fixpoint set_nodeindex (self : Directory) (p : list nat) (i : Z) : Directory :=
  match p with
  | [] => mkDirectory (dir_name self) (Some i) (files self) (subdirs self)
  | j :: p =>
      mkDirectory (dir_name self) (_nodeindex self) (files self)
        (match subdirs self !! j with
         | Some (k, d) => <[j := (k, set_nodeindex d p i)]> (subdirs self)
         | None => subdirs self
         end)
  end.

(** [dir._nodeindex = i] at a place; on a [File] the assignment makes an
    attribute that nothing reads. *)
Definition set_ref_nodeindex (root : Directory) (r : objref) (i : Z) : Directory :=
  match r with
  | DirRef p => set_nodeindex root p i
  | FileRef _ _ => root
  end.

(** [Directory.absolute_path()] of the directory at place [p]: the names
    from the root down, joined by slashes. *)
Fixpoint absolute_path (self : Directory) (p : list nat) : option pystr :=
  match p with
  | [] => Some (dir_name self)
  | i :: p =>
      match subdirs self !! i with
      | Some (_, d) => (fun name => dir_name self ++ py "/" ++ name) <$> absolute_path d p
      | None => None
      end
  end.

(** [dir.parent] of the directory at place [p]. *)
Definition parent_at (root : Directory) (p : list nat) : option Directory :=
  match p with
  | [] => None
  | _ => dir_at root (removelast p)
  end.

(** [CompressionSetting.run_wszst(file)], on the bytes of [file]. *)
Definition run_wszst `{External} (self : CompressionSetting) (filedata : bytes)
  : result bytes :=
  if negb (wszst self) then Raise RuntimeError_wszst
  else
    compressed_data ← wszst_tool (compression_level self) filedata;
    if len filedata >=? len compressed_data then Ok compressed_data
    else Ok filedata.

(** [list.sort(key=...)]: the stable sort, by insertion. *)
Fixpoint insert_by {A} (key : A -> Z) (x : A) (l : list A) : list A :=
  match l with
  | [] => [x]
  | y :: r => if key x <? key y then x :: y :: r else y :: insert_by key x r
  end.

Definition sort_by {A} (key : A -> Z) (l : list A) : list A :=
  fold_left (fun acc x => insert_by key x acc) l [].

(** [key_compare] of [write_arc]. *)
Definition key_compare (maxindex : Z) (val : pystr * File) : Z := maxindex + 1.

(** The override table: path -> (id, flags). *)
Abbreviation filelisting_t := (gmap pystr (Z * FileListing)).

(** The first loop of [write_arc], one walk item: the names are interned
    and the nodes counted. *)
Definition intern_walkitem `{Codec} (st : StringTable * Z) (item : walkitem)
  : result (StringTable * Z) :=
  let '(stringtable, nodecount) := st in
  let '(dir, subdirnames, filenames) := item in
  let nodecount := nodecount + len subdirnames in
  stringtable ← foldM write_string subdirnames stringtable;
  stringtable ← foldM write_string filenames stringtable;
  Ok (stringtable, nodecount).

(** The header of [write_arc], with its placeholders. *)
Definition write_header (f : BytesIO) (nodecount : Z) : result BytesIO :=
  let f := write f (py "RARC") in
  let f := write f (py "FOO ") in
  f ← write_uint32 f 0x20;
  let f := write f (py "BAR ") in
  let f := write f (replicate 16 0) in
  f ← write_uint32 f nodecount;
  f ← write_uint32 f 0x20;
  let f := write f (replicate 4 0) in
  f ← write_uint32 f 0xF0F0F0F0;
  let f := write f (replicate 4 0) in
  f ← write_uint32 f 0xF0F0F0F0;
  Ok (write f (replicate 8 0)).

(** The state of the node loop: the stream, [first_file_entry_index], the
    tree (whose [_nodeindex] fields the loop assigns) and [dirlist]. *)
Record node_state : Type := mkNodeState {
  ns_f : BytesIO;
  ns_first_file_entry_index : Z;
  ns_root : Directory;
  ns_dirlist : list objref
}.

(** [dir.name.upper().encode("shift-jis")[:4]], zero-padded to 4 bytes. *)
Definition nodetype_of `{Codec} (name : pystr) : result bytes :=
  match sjis_encode (str_upper name) with
  | None => Raise UnicodeEncodeError
  | Some bs =>
      let nodetype := take 4 bs in
      Ok (if len nodetype <? 4
          then nodetype ++ replicate (Z.to_nat (4 - len nodetype)) 0
          else nodetype)
  end.

(** One turn of [for i, dirinfo in enumerate(self.root.walk())]. *)
Definition write_node `{Codec} (stringtable : StringTable) (st : node_state)
    (x : Z * walkitem) : result node_state :=
  let '(i, (dirpath, dirnames, filenames)) := x in
  dir ← Archive_getitem (mkArchive (ns_root st)) dirpath;
  let root := set_ref_nodeindex (ns_root st) dir i in
  let dirlist := ns_dirlist st ++ [dir] in
  match ref_name root dir with
  | None => Raise AttributeError (* never: the place was just found *)
  | Some name =>
      nodetype ← (if decide (i = 0) then Ok (py "ROOT") else nodetype_of name);
      let f := write (ns_f st) nodetype in
      offset ← get_string_offset stringtable name;
      f ← write_uint32 f offset;
      let hash := hash_name name in
      let entrycount := len dirnames + len filenames in
      f ← write_uint16 f hash;
      f ← write_uint16 f (entrycount + 2);
      f ← write_uint32 f (ns_first_file_entry_index st);
      Ok (mkNodeState f (ns_first_file_entry_index st + (entrycount + 2)) root dirlist)
  end.

(** The state of the entries loop: the stream, the data buffer and
    [fileid]. *)
Record entry_state : Type := mkEntryState {
  es_f : BytesIO;
  es_data : BytesIO;
  es_fileid : Z
}.

(** The id and flags of a file entry, as the first statements of the
    files loop set them: those of the override table when the path is in
    it, the running [fileid] and the default flags otherwise. *)
Definition override_or (filelisting : option filelisting_t) (filepath : pystr)
    (fileid : Z) : Z * FileListing :=
  let filemeta := FileListing_default in
  match filelisting with
  | Some filelisting =>
      match filelisting !! filepath with
      | Some (fileid, filemeta) => (fileid, filemeta)
      | None => (fileid, filemeta)
      end
  | None => (fileid, filemeta)
  end.

(** One turn of [for filepath, file in files]. *)
Definition write_file_entry `{Codec} `{External}
    (compression_settings : CompressionSetting)
    (filelisting : option filelisting_t) (stringtable : StringTable)
    (st : entry_state) (x : pystr * File) : result entry_state :=
  let '(filepath, file) := x in
  let f := es_f st in
  let data := es_data st in
  let '(fileid, filemeta) := override_or filelisting filepath (es_fileid st) in
  f ← write_uint16 f fileid;
  let filename := file_name file in
  f ← write_uint16 f (hash_name filename);
  f ← write_uint8 f (to_flags filemeta);
  f ← write_uint8 f 0;
  offset ← get_string_offset stringtable filename;
  f ← write_uint16 f offset;
  let filedata_offset := tell data in
  f ← write_uint32 f filedata_offset;
  data ← (if is_yaz0 filemeta && is_compressed filemeta then
            if wszst compression_settings then
              match module_compression_setting with
              | None => Raise NameError
              | Some compression_setting =>
                  compressed_data ← run_wszst compression_setting (file_getvalue file);
                  Ok (write data compressed_data)
              end
            else Ok (write data (file_getvalue file))
          else Ok (write data (file_getvalue file)));
  f ← write_uint32 f (tell data - filedata_offset);
  let data := write_pad32 data in
  f ← write_uint32 f 0;
  Ok (mkEntryState f data (fileid + 1)).

(** One turn of [for subdirname, subdir in chain(specialdirs, ...)]. *)
Definition write_subdir_entry (stringtable : StringTable) (f : BytesIO)
    (x : pystr * option Directory) : result BytesIO :=
  let '(subdirname, subdir) := x in
  f ← write_uint16 f 0xFFFF;
  f ← write_uint16 f (hash_name subdirname);
  let f := write f [0x02; 0x00] in
  offset ← get_string_offset stringtable subdirname;
  f ← write_uint16 f offset;
  f ← match subdir with
      | None => write_uint32 f 0xFFFFFFFF
      | Some subdir =>
          match _nodeindex subdir with
          | Some child_nodeindex => write_uint32 f child_nodeindex
          | None => Raise StructError
          end
      end;
  f ← write_uint32 f 0x10;
  write_uint32 f 0.

(** One turn of [for dir in dirlist]; [root] is the tree after the node
    loop. A [File] in [dirlist] has no [absolute_path]. *)
Definition write_dir_entries `{Codec} `{External}
    (compression_settings : CompressionSetting)
    (filelisting : option filelisting_t) (maxindex : Z)
    (stringtable : StringTable) (root : Directory)
    (st : entry_state) (dir : objref) : result entry_state :=
  match dir with
  | FileRef _ _ => Raise AttributeError
  | DirRef p =>
      match dir_at root p, absolute_path root p with
      | Some d, Some abspath =>
          let files :=
            map (fun '(filename, file) => (abspath ++ py "/" ++ filename, file))
                (files d) in
          let files := sort_by (key_compare maxindex) files in
          st ← foldM (write_file_entry compression_settings filelisting stringtable)
                     files st;
          let specialdirs := [(py ".", Some d); (py "..", parent_at root p)] in
          f ← foldM (write_subdir_entry stringtable)
                    (specialdirs ++ map (fun '(k, subdir) => (k, Some subdir)) (subdirs d))
                    (es_f st);
          Ok (mkEntryState f (es_data st) (es_fileid st))
      | _, _ => Raise AttributeError (* never: the places of dirlist exist *)
      end
  end.

(** What the entries loop keeps: both streams stand at their ends, the
    stream of the entries does not shrink, and the data buffer is a whole
    number of blocks of 32 bytes. *)
Definition entries_inv (n : Z) (st : entry_state) : Prop :=
  at_end (es_f st) /\ n <= len (getvalue (es_f st))
  /\ at_end (es_data st) /\ len (getvalue (es_data st)) mod 0x20 = 0.

(** [Archive.write_arc(f, compression_settings, filelisting, maxindex)] on
    a new stream [f]: the stream after the call and the tree with its
    [_nodeindex] fields as the call leaves them. *)
Definition write_arc `{Codec} `{External} (self : Archive)
    (compression_settings : CompressionSetting)
    (filelisting : option filelisting_t) (maxindex : Z)
  : result (BytesIO * Archive) :=
  let f := BytesIO_new in
  let stringtable := StringTable_new in
  let data := BytesIO_new in
  let nodecount := 1 in
  stringtable ← write_string stringtable (py ".");
  stringtable ← write_string stringtable (py "..");
  stringtable ← write_string stringtable (dir_name (root self));
  '(stringtable, nodecount) ←
    foldM intern_walkitem (walk (root self) None) (stringtable, nodecount);
  f ← write_header f nodecount;
  let first_file_entry_index := 0 in
  let w := walk (root self) None in
  st ← foldM (write_node stringtable) (zip (seqZ 0 (len w)) w)
             (mkNodeState f first_file_entry_index (root self) []);
  let f := ns_f st in
  let first_file_entry_index := ns_first_file_entry_index st in
  let root := ns_root st in
  let dirlist := ns_dirlist st in
  let f := write_pad32 f in
  let current_file_entry_offset := tell f in
  let fileid := maxindex in
  st ← foldM (write_dir_entries compression_settings filelisting maxindex
                                stringtable root)
             dirlist (mkEntryState f data fileid);
  let f := es_f st in
  let data := es_data st in
  let f := write_pad32 f in
  if negb (tell f mod 0x20 =? 0) then Raise AssertionError
  else
    let current_stringtable_offset := tell f in
    let f := write_to stringtable f in
    let f := write_pad32 f in
    let stringtablesize := tell f - current_stringtable_offset in
    let current_data_offset := tell f in
    let f := write f (getvalue data) in
    let rarc_size := tell f in
    let f := seek f 4 in
    f ← write_uint32 f rarc_size;
    let f := seek f 12 in
    f ← write_uint32 f (current_data_offset - 0x20);
    f ← write_uint32 f (rarc_size - current_data_offset);
    f ← write_uint32 f (rarc_size - current_data_offset);
    let f := seek f 40 in
    let total_file_entries := first_file_entry_index in
    f ← write_uint32 f total_file_entries;
    f ← write_uint32 f (current_file_entry_offset - 0x20);
    f ← write_uint32 f stringtablesize;
    f ← write_uint32 f (current_stringtable_offset - 0x20);
    Ok (f, mkArchive root).

(** [Archive.write_arc_uncompressed(f, filelisting, maxindex)]: the two
    optional arguments are not passed on. *)
Definition write_arc_uncompressed `{Codec} `{External} (self : Archive)
    (filelisting : option filelisting_t) (maxindex : Z)
  : result (BytesIO * Archive) :=
  write_arc self CompressionSetting_default None 0.

(** [Archive.write_arc_compressed(f, compression_settings, filelisting,
    maxindex)]: the bytes written to [f] and the tree after the call. *)
Definition write_arc_compressed `{Codec} `{External} (self : Archive)
    (compression_settings : CompressionSetting)
    (filelisting : option filelisting_t) (maxindex : Z)
  : result (bytes * Archive) :=
  '(temp, self) ← write_arc self compression_settings filelisting maxindex;
  let temp := seek temp 0 in
  if yaz0_fast compression_settings then
    out ← compress_fast (getvalue temp); Ok (out, self)
  else if wszst compression_settings then
    data ← run_wszst compression_settings (getvalue temp); Ok (data, self)
  else Ok ([], self).

(** ** An environment for closed examples

    The codec restricted to 7-bit ASCII, where shift-jis is the identity
    on code points and bytes, and [str.upper] on ASCII letters. It refuses
    every string beyond ASCII, also those that shift-jis encodes: the
    examples stay within ASCII, or use a character that shift-jis refuses
    as well (the euro sign U+20AC). No yaz0
    module and no tool (each call raises), and [compression_setting] is
    unbound, as when rarc.py is imported. *)

Definition is_ascii (s : list Z) : bool := forallb (fun c => (0 <=? c) && (c <? 128)) s.

Definition ascii_codec : Codec := {|
  sjis_encode s := if is_ascii s then Some s else None;
  sjis_decode b := if is_ascii b then Some b else None;
  str_upper := map (fun c => if (97 <=? c) && (c <=? 122) then c - 32 else c)
|}.

Definition no_tools : External := {|
  decompress _ _ := Raise ExternalError;
  compress_fast _ := Raise ExternalError;
  wszst_tool _ _ := Raise ExternalError;
  module_compression_setting := None
|}.

(** The tree without its [_nodeindex] fields: what the encoder reads of a
    tree before it assigns them. *)
Fixpoint erase_nodeindex (self : Directory) : Directory :=
  match self with
  | mkDirectory name _ files subdirs =>
      mkDirectory name None files
                  (map (fun kd => (kd.1, erase_nodeindex kd.2)) subdirs)
  end.

(** The assignments [dir._nodeindex = i] of the node loop, in order. *)
Definition assign_all (as_ : list (objref * Z)) (root : Directory) : Directory :=
  fold_left (fun root a => set_ref_nodeindex root a.1 a.2) as_ root.

(** ** Inputs and predicates of the statements *)

(** The errors of the decoder that do not come from the magic. *)
Definition malformed_error (e : exn) : Prop :=
  e = StructError \/ e = IndexError \/ e = UnicodeDecodeError.

(** The buffer [from_file] goes on with: the decompressed one when the
    input begins with the compression magic. *)
Definition container_of `{External} (buf : bytes) : result bytes :=
  if decide (read_at buf 0 4 = Yaz0_magic) then decompress false buf else Ok buf.

(** A buffer with the container magic and every size zero: no node. *)
Definition empty_container : bytes := RARC_magic ++ replicate 60 0.

(** A buffer with the container magic, one node, and a string table offset
    (0x100 + 0x20) past its 80 bytes. *)
Definition unterminated_name_container : bytes :=
  RARC_magic ++ replicate 28 0 ++ [0; 0; 0; 1] ++ replicate 16 0
    ++ [0; 0; 1; 0] ++ replicate 8 0 ++ replicate 16 0.

(** The entries and names of a node table with a cycle: the directory
    entry [a] of node 0 has node 1 as its node, and the directory entry [b]
    of node 1 has node 0; the two names follow the two entries, at offset
    40. *)
Definition cyclic_entries : bytes :=
  [0xFF; 0xFF; 0; 0; 0x02; 0; 0; 0; 0; 0; 0; 1; 0; 0; 0; 0x10; 0; 0; 0; 0]
    ++ [0xFF; 0xFF; 0; 0; 0x02; 0; 0; 2; 0; 0; 0; 0; 0; 0; 0; 0x10; 0; 0; 0; 0]
    ++ py "a" ++ [0] ++ py "b" ++ [0].

(** Every element is a byte. *)
Definition is_bytes (buf : bytes) : Prop := Forall (fun b => 0 <= b < 256) buf.

(** A stream that has only been written to, holding [buf]: it stands at
    its end. *)
Definition stream (buf : bytes) : BytesIO := mkBytesIO buf (len buf).

(** The number of zero bytes [write_pad32] writes at position [pos]. *)
Definition padding (pos : Z) : nat := Z.to_nat (next_aligned_pos pos - pos).

(** The bytes the data buffer gets for a file. *)
Definition payload_ok `{External} (compression_settings : CompressionSetting)
    (filemeta : FileListing) (file : File) (payload : bytes) : Prop :=
  if is_yaz0 filemeta && is_compressed filemeta && wszst compression_settings
  then exists compression_setting,
         module_compression_setting = Some compression_setting
         /\ run_wszst compression_setting (file_getvalue file) = Ok payload
  else payload = file_getvalue file.

(** The 20 bytes of a file entry and of a directory entry. *)
Definition file_entry_bytes (fileid hash flags nameoffset dataoffset datasize : Z) : bytes :=
  be_bytes 2 fileid ++ be_bytes 2 hash ++ be_bytes 1 flags ++ be_bytes 1 0
    ++ be_bytes 2 nameoffset ++ be_bytes 4 dataoffset ++ be_bytes 4 datasize
    ++ be_bytes 4 0.

Definition dir_entry_bytes (hash nameoffset child_nodeindex : Z) : bytes :=
  be_bytes 2 0xFFFF ++ be_bytes 2 hash ++ [0x02; 0x00] ++ be_bytes 2 nameoffset
    ++ be_bytes 4 child_nodeindex ++ be_bytes 4 0x10 ++ be_bytes 4 0.

(** The ids written for the files at [paths], in order, from the running
    [fileid]: each is the override id or the running id, and the running id
    goes on from one past the id written. *)
Fixpoint written_ids (filelisting : option filelisting_t) (fileid : Z)
    (paths : list pystr) : list Z :=
  match paths with
  | [] => []
  | filepath :: paths =>
      let id := (override_or filelisting filepath fileid).1 in
      id :: written_ids filelisting (id + 1) paths
  end.

(** An entry of the table is the entry of a file with a given id: it has
    20 bytes, its id field holds the id and its hash field the hash of the
    file's name. *)
Definition entry_of_file (entry : bytes) (x : File * Z) : Prop :=
  length entry = 20%nat
  /\ be_value (take 2 entry) = x.2
  /\ be_value (take 2 (drop 2 entry)) = hash_name (file_name x.1).

(** The entries a directory takes in the table: one per file, and the
    directory entries that follow them, those of [.] and [..] included. *)
Definition chunk_of_dir (chunk : list bytes * bytes) (ad : pystr * Directory) : Prop :=
  length chunk.1 = length (files ad.2)
  /\ length chunk.2 = (20 * (2 + length (subdirs ad.2)))%nat.

(** The bytes of the chunks, in order. *)
Definition chunks_bytes (chunks : list (list bytes * bytes)) : bytes :=
  concat (map (fun chunk => concat chunk.1 ++ chunk.2) chunks).

(** The full paths of the files of the directories [dirs], each given with
    its absolute path, in the order of the table. *)
Definition paths_of_dirs (dirs : list (pystr * Directory)) : list pystr :=
  flat_map (fun ad => map (fun kf => ad.1 ++ py "/" ++ kf.1) (files ad.2)) dirs.

Definition files_of_dirs (dirs : list (pystr * Directory)) : list File :=
  flat_map (fun ad => (files ad.2).*2) dirs.

(** *** The round trip: places, well-formed trees, the decoded tree *)

(** The places of the directories of a tree, in the order of [walk]. *)
Fixpoint locs (self : Directory) : list (list nat) :=
  match self with
  | mkDirectory _ _ _ subdirs =>
      [] :: concat (imap (fun m l => map (cons m) l)
                         (map (fun kd => locs kd.2) subdirs))
  end.

(** The position of [x] in [l] (the length of [l] when it is absent). *)
Fixpoint index_of {A} `{EqDecision A} (x : A) (l : list A) : nat :=
  match l with
  | [] => O
  | y :: l => if decide (y = x) then O else S (index_of x l)
  end.

(** The path [walk] gives a directory whose path from the directory walked
    is [a], when the walk was entered with [_path]. *)
Definition prefixed (_path : option pystr) (a : pystr) : pystr :=
  match _path with
  | None => a
  | Some _path => _path ++ py "/" ++ a
  end.

(** The item [walk] yields for the directory at place [q] of [d]. *)
Definition walk_item_at (_path : option pystr) (d : Directory) (q : list nat)
  : option walkitem :=
  dq ← dir_at d q;
  a ← absolute_path d q;
  Some (prefixed _path a, keys (subdirs dq), keys (files dq)).

Definition sumZ (l : list Z) : Z := foldr Z.add 0 l.

(** The sums of the prefixes of [ws], from [acc]. *)
Fixpoint sums_from (acc : Z) (ws : list Z) : list Z :=
  match ws with
  | [] => []
  | w :: ws => acc :: sums_from (acc + w) ws
  end.

(** [entrycount] of the node loop for a directory, and for the directory at
    a place: the two synthetic entries are not counted. *)
Definition entry_count (d : Directory) : Z := len (subdirs d) + len (files d).

Definition entries_at (root : Directory) (p : list nat) : Z :=
  from_option entry_count 0 (dir_at root p) + 2.

(** The number of files of the directory at a place, and of the
    directories at the first [j] places of the walk. *)
Definition files_at (root : Directory) (p : list nat) : Z :=
  from_option (fun d => len (files d)) 0 (dir_at root p).

Definition files_before (root : Directory) (j : nat) : Z :=
  sumZ (map (files_at root) (take j (locs root))).

(** The index of the first entry of the directory at position [j] of the
    walk. *)
Definition first_at (root : Directory) (j : nat) : Z :=
  sumZ (map (entries_at root) (take j (locs root))).

(** A 16-byte node record of the directory at place [x.1] whose entries
    start at the entry index [x.2]. *)
Definition node_record_ok (stringtable : StringTable) (root : Directory)
    (rec : bytes) (x : list nat * Z) : Prop :=
  exists nodetype d offset,
    dir_at root x.1 = Some d /\ length nodetype = 4%nat
    /\ get_string_offset stringtable (dir_name d) = Ok offset
    /\ 0 <= offset < 2 ^ 32 /\ 0 <= entry_count d + 2 < 2 ^ 16 /\ 0 <= x.2 < 2 ^ 32
    /\ rec = nodetype ++ be_bytes 4 offset ++ be_bytes 2 (hash_name (dir_name d))
               ++ be_bytes 2 (entry_count d + 2) ++ be_bytes 4 x.2.

(** The node of [nodelist] the decoder makes of such a record, the root's
    apart. *)
Definition node_of (root : Directory) (x : list nat * Z) : node :=
  (None, hash_name (from_option dir_name [] (dir_at root x.1)), entries_at root x.1, x.2).

(** A 20-byte entry of [x.1] with the id [x.2] and the default flags,
    whose data lie in the data section [data]. *)
Definition file_entry_ok (stringtable : StringTable) (data : bytes) (entry : bytes)
    (x : File * Z) : Prop :=
  exists offset dataoffset,
    get_string_offset stringtable (file_name x.1) = Ok offset
    /\ 0 <= x.2 < 2 ^ 16 /\ 0 <= offset < 2 ^ 16 /\ 0 <= dataoffset < 2 ^ 32
    /\ len (file_getvalue x.1) < 2 ^ 32
    /\ read_at data dataoffset (len (file_getvalue x.1)) = file_getvalue x.1
    /\ entry = file_entry_bytes x.2 (hash_name (file_name x.1)) 0x11 offset dataoffset
                                (len (file_getvalue x.1)).

(** A 20-byte entry of a directory named [name] whose node is [child]. *)
Definition dir_entry_ok (stringtable : StringTable) (entry : bytes) (name : pystr)
    (child : Z) : Prop :=
  exists offset,
    get_string_offset stringtable name = Ok offset
    /\ 0 <= offset < 2 ^ 16 /\ 0 <= child < 2 ^ 32
    /\ entry = dir_entry_bytes (hash_name name) offset child.

(** The entries the encoder writes for the directory at place [x.1] of
    [root] when the running id is [x.2]: those of the files, the two
    synthetic ones, those of the subdirectories. *)
Definition dir_chunk_ok (stringtable : StringTable) (root : Directory) (data : bytes)
    (chunk : list bytes) (x : list nat * Z) : Prop :=
  exists d fe dot dotdot se c1 c2,
    dir_at root x.1 = Some d
    /\ chunk = fe ++ [dot; dotdot] ++ se
    /\ Forall2 (file_entry_ok stringtable data) fe
               (zip (files d).*2 (seqZ x.2 (len (files d))))
    /\ dir_entry_ok stringtable dot (py ".") c1
    /\ dir_entry_ok stringtable dotdot (py "..") c2
    /\ Forall2 (fun e kd => exists child, _nodeindex kd.2 = Some child
                              /\ dir_entry_ok stringtable e kd.1 child)
               se (subdirs d).

(** The entry table as the decoder needs it: for the directory at position
    [j] of the walk, the entries from [first_at root j] on are those of its
    files, numbered from [files_before root j], the two synthetic ones, and
    those of its subdirectories, each with the position of the subdirectory
    in the walk. *)
Definition table_ok (stringtable : StringTable) (root : Directory) (data : bytes)
    (entries : list bytes) : Prop :=
  Forall (fun e => length e = 20%nat) entries
  /\ forall j p d, locs root !! j = Some p -> dir_at root p = Some d ->
       let first := Z.to_nat (first_at root j) in
       let nf := length (files d) in
       (forall k kf, files d !! k = Some kf ->
          exists e, entries !! (first + k)%nat = Some e
            /\ file_entry_ok stringtable data e (kf.2, files_before root j + Z.of_nat k))
       /\ (exists e c, entries !! (first + nf)%nat = Some e
              /\ dir_entry_ok stringtable e (py ".") c)
       /\ (exists e c, entries !! (first + nf + 1)%nat = Some e
              /\ dir_entry_ok stringtable e (py "..") c)
       /\ (forall m kd, subdirs d !! m = Some kd ->
            exists e, entries !! (first + nf + 2 + m)%nat = Some e
              /\ dir_entry_ok stringtable e kd.1
                              (Z.of_nat (index_of (p ++ [m]) (locs root)))).

(** A name the codec takes to bytes without a zero and back. *)
Definition wf_name `{Codec} (s : pystr) : bool :=
  match sjis_encode s with
  | Some bs => bool_decide ((0 ∉ bs) /\ sjis_decode bs = Some s)
  | None => false
  end.

(** A name the decoder does not skip. *)
Definition entry_name (s : pystr) : bool :=
  bool_decide (s <> py "." /\ s <> py ".." /\ s <> py "").

Definition wf_file `{Codec} (kf : pystr * File) : bool :=
  bool_decide (kf.1 = file_name kf.2) && wf_name kf.1 && entry_name kf.1.

Definition wf_subdir `{Codec} (kd : pystr * Directory) : bool :=
  bool_decide (kd.1 = dir_name kd.2) && wf_name kd.1 && entry_name kd.1
  && single_segment kd.1 && negb (forallb isspace kd.1).

(** What the round trip asks of one directory: the keys of its mappings
    are the names of the entries and are not repeated; the names go through
    the codec and are not skipped by the decoder; the names of the
    subdirectories have one segment and are not blank. *)
Definition wf_node `{Codec} (d : Directory) : bool :=
  forallb wf_file (files d) && bool_decide (NoDup (keys (files d)))
  && forallb wf_subdir (subdirs d) && bool_decide (NoDup (keys (subdirs d))).

Fixpoint wf_dir `{Codec} (d : Directory) : bool :=
  match d with
  | mkDirectory name idx files subdirs =>
      wf_node (mkDirectory name idx files subdirs)
      && forallb (fun kd => wf_dir kd.2) subdirs
  end.

Definition wf_archive `{Codec} (self : Archive) : bool :=
  wf_name (py ".") && wf_name (py "..") && wf_name (dir_name (root self))
  && single_segment (dir_name (root self)) && wf_dir (root self).

(** A file as the decoder returns it after an encoding without override
    table: the given id, the hash of its name and the default flags. *)
Definition decoded_file (id : Z) (file : File) : File :=
  mkFile (file_name file) (Some id) (Some (hash_name (file_name file)))
         (Some 0x11) (from_flags 0x11) (file_getvalue file).

Fixpoint number_files (id : Z) (files : list (pystr * File)) : list (pystr * File) :=
  match files with
  | [] => []
  | (k, file) :: files => (k, decoded_file id file) :: number_files (id + 1) files
  end.

Fixpoint place_children {A} (p : list nat) (m : nat)
    (l : list (pystr * (list nat -> A))) : list (pystr * A) :=
  match l with
  | [] => []
  | (k, g) :: l => (k, g (p ++ [m])) :: place_children p (S m) l
  end.

(** The directory [d], at place [p] of the tree [root], as the decoder
    returns it: the node index is the position of the place in the walk,
    the ids of the files count the files of the walk from 0. *)
Fixpoint decoded_dir (root : Directory) (d : Directory) : list nat -> Directory :=
  match d with
  | mkDirectory name _ files subdirs =>
      fun p =>
        let j := index_of p (locs root) in
        mkDirectory name (Some (Z.of_nat j))
                    (number_files (files_before root j) files)
                    (place_children p O
                       (map (fun kd => (kd.1, decoded_dir root kd.2)) subdirs))
  end.

(** The tree without what the encoder does not write: node indices, and
    the ids, hashes and flags of the files. *)
Definition bare_file (file : File) : File :=
  mkFile (file_name file) None None None FileListing_default (file_getvalue file).

Fixpoint bare (d : Directory) : Directory :=
  match d with
  | mkDirectory name _ files subdirs =>
      mkDirectory name None (map (fun kf => (kf.1, bare_file kf.2)) files)
                  (map (fun kd => (kd.1, bare kd.2)) subdirs)
  end.

(** *** [FileListing] as text, [listdir], lookups without clash *)

(** [sep.join(l)] *)
Fixpoint str_join (sep : pystr) (l : list pystr) : pystr :=
  match l with
  | [] => []
  | s :: l =>
      match l with
      | [] => s
      | _ => s ++ sep ++ str_join sep l
      end
  end.

(** [string.split(sep)] for a separator of one character. *)
Fixpoint str_split (sep : Z) (string : pystr) : list pystr :=
  match string with
  | [] => [[]]
  | c :: rest =>
      if decide (c = sep) then [] :: str_split sep rest
      else
        match str_split sep rest with
        | [] => [[c]]
        | s :: l => (c :: s) :: l
        end
  end.

(** [FileListing.to_string] *)
Definition to_string (self : FileListing) : pystr :=
  let result := [] in
  let result := if is_compressed self && is_yaz0 self
                then result ++ [py "yaz0_compressed"] else result in
  let result := if is_rel self then result ++ [py "rel"] else result in
  str_join (py "|") result.

(** [FileListing.from_string]: the state of the loop is (data_file,
    rel_file, compressed, yaz0); [file] stays true and [dir] false. *)
Definition from_string (string : pystr) : FileListing :=
  let result := str_split 124 string in
  let '(data_file, rel_file, compressed, yaz0) :=
    fold_left (fun '(data_file, rel_file, compressed, yaz0) setting =>
                 if decide (setting = py "yaz0_compressed")
                 then (data_file, rel_file, true, true)
                 else if decide (setting = py "rel")
                      then (false, true, compressed, yaz0)
                      else (data_file, rel_file, compressed, yaz0))
              result (true, false, false, false) in
  mkFileListing true false compressed data_file rel_file yaz0.

(** The names [listdir] returns for the object a lookup found: a [File]
    has no attribute [files]. *)
Definition listdir_of (self : Directory) (r : objref) : result (list pystr) :=
  match r with
  | DirRef p =>
      match dir_at self p with
      | Some dir => Ok (keys (files dir) ++ keys (subdirs dir))
      | None => Raise AttributeError (* never: the place was just found *)
      end
  | FileRef _ _ => Raise AttributeError
  end.

(** [Directory.listdir(path)] *)
Definition Directory_listdir (self : Directory) (path : pystr) : result (list pystr) :=
  if decide (path = py ".") then Ok (keys (files self) ++ keys (subdirs self))
  else r ← Directory_getitem self path; listdir_of self r.

(** [Archive.listdir(path)] *)
Definition Archive_listdir (self : Archive) (path : pystr) : result (list pystr) :=
  if decide (path = py ".") then Ok [dir_name (root self)]
  else r ← Archive_getitem self path; listdir_of (root self) r.

(** No directory of the tree has a file named as one of its
    subdirectories. *)
Fixpoint unambiguous (d : Directory) : bool :=
  match d with
  | mkDirectory _ _ files subdirs =>
      forallb (fun kd => negb (dict_in kd.1 files) && unambiguous kd.2) subdirs
  end.

(** A tree as the decoder builds it: every mapping is keyed by the names of
    its entries, no key is repeated, and no entry has a name the decoder
    skips. *)
Fixpoint keyed (d : Directory) : bool :=
  match d with
  | mkDirectory _ _ files subdirs =>
      forallb (fun kf => bool_decide (kf.1 = file_name kf.2) && entry_name kf.1) files
      && bool_decide (NoDup (keys files))
      && forallb (fun kd => bool_decide (kd.1 = dir_name kd.2) && entry_name kd.1
                            && keyed kd.2) subdirs
      && bool_decide (NoDup (keys subdirs))
  end.

(** Trees of the examples. *)
Definition example_file_a : File :=
  mkFile (py "a.bin") (Some 5) (Some 0x28A6) (Some 0x95) (from_flags 0x95) [1; 2; 3].

Definition example_file_b : File := File_from_file (py "b.bin") [4; 5].

Definition example_sub : Directory :=
  mkDirectory (py "sub") None [(py "b.bin", example_file_b)] [].

Definition example_archive : Archive :=
  mkArchive (mkDirectory (py "root") None [(py "a.bin", example_file_a)]
                         [(py "sub", example_sub)]).

(** A directory of two files and an override table that gives the first
    the id 5 and the second the id 2. *)
Definition example_flat_archive : Archive :=
  mkArchive (mkDirectory (py "root") None
                         [(py "a.bin", example_file_a); (py "b.bin", example_file_b)] []).

Definition example_filelisting : filelisting_t :=
  {[ py "root/a.bin" := (5, FileListing_default);
     py "root/b.bin" := (2, FileListing_default) ]}.

(** * Properties *)

(** ** The result monad *)

Lemma bind_Ok {A B} (a : A) (k : A -> result B) : (Ok a ≫= k) = k a.
Proof. reflexivity. Qed.

Lemma bind_Ok_inv {A B} (r : result A) (k : A -> result B) (b : B) :
  r ≫= k = Ok b -> exists a, r = Ok a /\ k a = Ok b.
Proof. destruct r as [a| |]; simpl; intros E; try discriminate. eauto. Qed.

Lemma bind_Raise_inv {A B} (r : result A) (k : A -> result B) (e : exn) :
  r ≫= k = Raise e -> r = Raise e \/ exists a, r = Ok a /\ k a = Raise e.
Proof.
  destruct r as [a|e'|]; simpl; intros E; [right; eauto|left; congruence|discriminate].
Qed.

(** A loop raises only what its turns raise. *)
Lemma foldM_raises {A S} (P : exn -> Prop) (step : S -> A -> result S) (l : list A) :
  (forall s a e, a ∈ l -> step s a = Raise e -> P e) ->
  forall s e, foldM step l s = Raise e -> P e.
Proof.
  induction l as [|a l IH]; intros Hstep s e; simpl; [discriminate|].
  intros Hf. apply bind_Raise_inv in Hf as [Hf|(s' & _ & Hf)].
  - eapply Hstep; [left|exact Hf].
  - eapply IH; [|exact Hf]. intros s0 a0 e0 Hin. apply Hstep. right. exact Hin.
Qed.

Lemma foldM_app {A S} (step : S -> A -> result S) (l1 l2 : list A) (s : S) :
  foldM step (l1 ++ l2) s = foldM step l1 s ≫= foldM step l2.
Proof.
  revert s. induction l1 as [|a l1 IH]; intros s; simpl; [reflexivity|].
  destruct (step s a) as [s'| |]; simpl; auto.
Qed.

(** ** FileListing flags *)

Lemma byte_Forall (P : Z -> Prop) :
  Forall P (seqZ 0 256) -> forall b, 0 <= b < 256 -> P b.
Proof.
  intros HP b Hb. rewrite Forall_forall in HP.
  apply HP, elem_of_seqZ. lia.
Qed.

(** C8. Reading a flag byte [b] is total ([from_flags] returns a
    [FileListing] for every [b]; the bits 0x40 and 0x08 only add their
    notice to the log), and writing the listing back gives [b] with the bits
    0x40 and 0x08 cleared and the six recognized bits unchanged. *)
Theorem flags_roundtrip (b : Z) :
  0 <= b < 256 ->
  let r := to_flags (from_flags b) in
  r = Z.land b 0xB7
  /\ Z.land r 0x40 = 0 /\ Z.land r 0x08 = 0
  /\ Z.land r FILE = Z.land b FILE
  /\ Z.land r DIRECTORY = Z.land b DIRECTORY
  /\ Z.land r COMPRESSED = Z.land b COMPRESSED
  /\ Z.land r DATA_FILE = Z.land b DATA_FILE
  /\ Z.land r REL_FILE = Z.land b REL_FILE
  /\ Z.land r YAZ0 = Z.land b YAZ0
  /\ from_flags_notices b =
       (if Z.testbit b 6 then [Unknown_flag_0x40] else [])
       ++ (if Z.testbit b 3 then [Unknown_flag_0x8] else []).
Proof.
  revert b. cbv zeta. apply byte_Forall.
  eapply (bool_decide_unpack _). vm_compute. exact I.
Qed.

Lemma flags_roundtrip_witness :
  0 <= 0xFF < 256
  /\ to_flags (from_flags 0xFF) = 0xB7
  /\ from_flags_notices 0xFF = [Unknown_flag_0x40; Unknown_flag_0x8].
Proof.
  assert (Hb : 0 <= 0xFF < 256) by lia.
  split; [exact Hb|].
  destruct (flags_roundtrip 0xFF Hb) as (H1 & _ & _ & _ & _ & _ & _ & _ & _ & H2).
  split; [exact H1 | exact H2].
Defined.

(** ** hash_name *)

Lemma land_FFFF (x : Z) : Z.land x 0xFFFF = x mod 65536.
Proof. change 0xFFFF with (Z.ones 16). rewrite Z.land_ones by lia. reflexivity. Qed.

Lemma hash_multiplier (name : pystr) :
  (if len name + 1 =? 2 then 2 else if len name + 1 >=? 3 then 3 else 1)
  = reference_multiplier name.
Proof.
  unfold reference_multiplier. cbv zeta.
  assert (Hn : 0 <= len name) by (unfold len; lia).
  rewrite Z.geb_leb.
  destruct (Z.eqb_spec (len name + 1) 2), (Z.eqb_spec (len name + 1) 1),
    (Z.leb_spec 3 (len name + 1)); try reflexivity; lia.
Qed.

Lemma hash_fold_reference (m : Z) (name : pystr) (h : Z) :
  fold_left (fun hash letter => Z.land (Z.land (hash * m) 0xFFFF + letter) 0xFFFF) name h
  = reference_hash_from m h name.
Proof.
  revert h. induction name as [|c name IH]; intros h; simpl; [reflexivity|].
  rewrite IH, !land_FFFF. reflexivity.
Qed.

Lemma reference_hash_from_range (m : Z) (name : pystr) (h : Z) :
  0 <= h < 65536 -> 0 <= reference_hash_from m h name < 65536.
Proof.
  revert h. induction name as [|c name IH]; intros h Hh; simpl; [exact Hh|].
  apply IH. apply Z.mod_pos_bound. lia.
Qed.

(** C9. [hash_name] is the reference algorithm of the specification; the
    hash of the empty name is 0 and every hash fits in 16 bits. *)
Theorem hash_name_reference (name : pystr) :
  hash_name name = reference_hash name
  /\ hash_name (py "") = 0
  /\ 0 <= hash_name name < 65536.
Proof.
  assert (E : hash_name name = reference_hash name).
  { unfold hash_name, reference_hash. cbv zeta.
    rewrite hash_multiplier. apply hash_fold_reference. }
  split; [exact E|]. split; [reflexivity|].
  rewrite E. apply reference_hash_from_range. lia.
Qed.

(** The fixed values of section 8: one character takes the multiplier 2,
    three characters the multiplier 3. *)
Example hash_name_a : hash_name (py "a") = 97.
Proof. reflexivity. Qed.

Example hash_name_abc : hash_name (py "abc") = (97 * 3 + 98) * 3 + 99.
Proof. reflexivity. Qed.

(** ** BytesIO *)

Lemma len_app {A} (a b : list A) : len (a ++ b) = len a + len b.
Proof. unfold len. rewrite length_app. lia. Qed.

Lemma len_nonneg {A} (a : list A) : 0 <= len a.
Proof. unfold len. lia. Qed.

Lemma len_replicate {A} (n : nat) (x : A) : len (replicate n x) = Z.of_nat n.
Proof. unfold len. rewrite length_replicate. reflexivity. Qed.

Lemma write_at_end (f : BytesIO) (bs : bytes) :
  at_end f ->
  write f bs = mkBytesIO (getvalue f ++ bs) (len (getvalue f ++ bs)).
Proof.
  unfold at_end, write, len. intros E. destruct bs as [|b bs].
  { destruct f as [buf pos]. cbn [getvalue tell] in *. rewrite app_nil_r, E.
    reflexivity. }
  f_equal.
  - replace (Z.to_nat (tell f)) with (length (getvalue f)) by lia.
    rewrite firstn_all, Nat.sub_diag. simpl.
    rewrite drop_ge by (simpl; lia). rewrite app_nil_r. reflexivity.
  - rewrite length_app. lia.
Qed.

Lemma tell_write (f : BytesIO) (bs : bytes) : tell (write f bs) = tell f + len bs.
Proof. destruct bs; cbn [write tell]; [unfold len; cbn; lia|reflexivity]. Qed.

Lemma write_at_end_ok (f : BytesIO) (bs : bytes) : at_end f -> at_end (write f bs).
Proof. intros E. rewrite write_at_end by exact E. reflexivity. Qed.

Lemma at_end_new : at_end BytesIO_new.
Proof. reflexivity. Qed.

Lemma read_at_app_l (buf x : bytes) (pos n : Z) :
  (Z.to_nat pos + Z.to_nat n <= length buf)%nat ->
  read_at (buf ++ x) pos n = read_at buf pos n.
Proof.
  intros Hle. unfold read_at.
  rewrite drop_app_le by lia. rewrite take_app_le; [reflexivity|].
  rewrite length_drop. lia.
Qed.

Lemma read_at_length (buf : bytes) (pos n : Z) :
  (Z.to_nat pos + Z.to_nat n <= length buf)%nat ->
  length (read_at buf pos n) = Z.to_nat n.
Proof. intros Hle. unfold read_at. rewrite length_take, length_drop. lia. Qed.

Lemma read_at_inside (buf r : bytes) (pos n : Z) :
  read_at buf pos n = r -> length r = Z.to_nat n ->
  (Z.to_nat pos + Z.to_nat n <= length buf)%nat \/ n <= 0.
Proof.
  intros <-. unfold read_at. rewrite length_take, length_drop. lia.
Qed.

Lemma read_at_app_r (a b : bytes) (pos n : Z) :
  0 <= pos ->
  read_at (a ++ b) (len a + pos) n = read_at b pos n.
Proof.
  intros Hp. unfold read_at, len.
  replace (Z.to_nat (Z.of_nat (length a) + pos)) with (length a + Z.to_nat pos)%nat by lia.
  rewrite drop_app_add. reflexivity.
Qed.

Lemma read_at_0_app (a b : bytes) (n : Z) :
  n = len a -> read_at (a ++ b) 0 n = a.
Proof.
  intros ->. unfold read_at, len. simpl. rewrite drop_0.
  rewrite Nat2Z.id. apply take_app_length.
Qed.

Lemma read_at_0_all (a : bytes) (n : Z) : n = len a -> read_at a 0 n = a.
Proof.
  intros E. rewrite <- (app_nil_r a) at 1. rewrite read_at_0_app by exact E.
  reflexivity.
Qed.

(** ** StringTable *)

Section StringTable_facts.
Context `{Codec}.

Lemma write_string_present (st : StringTable) (s : pystr) (offset : Z) :
  _stringmap st !! s = Some offset -> write_string st s = Ok st.
Proof. intros E. unfold write_string. rewrite E. reflexivity. Qed.

Lemma write_string_new (st st' : StringTable) (s : pystr) :
  _stringmap st !! s = None -> write_string st s = Ok st' ->
  exists bs, sjis_encode s = Some bs
    /\ st' = mkStringTable (write (write (_strings st) bs) [0])
                           (<[s := tell (_strings st)]> (_stringmap st)).
Proof.
  intros E. unfold write_string. rewrite E.
  destruct (sjis_encode s) as [bs|]; [|discriminate].
  intros [= <-]. eauto.
Qed.

Lemma write_string_inv (st st' : StringTable) (s : pystr) :
  StringTable_inv st -> write_string st s = Ok st' -> StringTable_inv st'.
Proof.
  intros [Hend Hmap] Hw.
  destruct (_stringmap st !! s) as [off|] eqn:E.
  { rewrite (write_string_present _ _ _ E) in Hw. injection Hw as <-. split; assumption. }
  destruct (write_string_new _ _ _ E Hw) as (bs & Hbs & ->). cbn [_strings _stringmap].
  rewrite (write_at_end _ bs) by exact Hend.
  rewrite write_at_end by reflexivity. simpl.
  split; [reflexivity|].
  intros s' off'. simpl. rewrite lookup_insert. case_decide as Hs.
  - intros [= <-]. subst s'. rewrite Hend. split; [apply len_nonneg|].
    exists bs. split; [exact Hbs|].
    rewrite <- (Z.add_0_r (len (getvalue (_strings st)))).
    rewrite <- app_assoc, read_at_app_r by lia.
    apply read_at_0_all. rewrite len_app. reflexivity.
  - intros E'. destruct (Hmap _ _ E') as (H0 & bs' & Hbs' & Hr).
    split; [exact H0|]. exists bs'. split; [exact Hbs'|].
    rewrite <- app_assoc. rewrite read_at_app_l; [exact Hr|].
    apply read_at_inside in Hr.
    + pose proof (len_nonneg bs'). lia.
    + rewrite length_app. simpl. pose proof (len_nonneg bs'). unfold len in *. lia.
Qed.

Lemma reachable_inv (st : StringTable) : StringTable_reachable st -> StringTable_inv st.
Proof.
  induction 1 as [|st s st' _ IH Hw].
  - split; [reflexivity|]. intros s off. simpl. rewrite lookup_empty. discriminate.
  - eapply write_string_inv; eassumption.
Qed.

(** Interning keeps every recorded offset. *)
Lemma write_string_keeps (st st' : StringTable) (s s' : pystr) (offset : Z) :
  _stringmap st !! s = Some offset -> write_string st s' = Ok st' ->
  _stringmap st' !! s = Some offset.
Proof.
  intros E Hw.
  destruct (_stringmap st !! s') as [off|] eqn:E'.
  { rewrite (write_string_present _ _ _ E') in Hw. injection Hw as <-. exact E. }
  destruct (write_string_new _ _ _ E' Hw) as (bs & _ & ->). simpl.
  rewrite lookup_insert_ne; [exact E|]. intros ->. congruence.
Qed.

Lemma write_strings_keep (l : list pystr) (st st' : StringTable) (s : pystr) (offset : Z) :
  _stringmap st !! s = Some offset -> foldM write_string l st = Ok st' ->
  _stringmap st' !! s = Some offset.
Proof.
  revert st. induction l as [|s' l IH]; intros st E; simpl.
  - intros [= <-]. exact E.
  - intros Hf. apply bind_Ok_inv in Hf as (st1 & Hw & Hf).
    eapply IH; [|exact Hf]. eapply write_string_keeps; eassumption.
Qed.

Lemma write_strings_reachable (l : list pystr) (st st' : StringTable) :
  StringTable_reachable st -> foldM write_string l st = Ok st' ->
  StringTable_reachable st'.
Proof.
  revert st. induction l as [|s' l IH]; intros st Hr; simpl.
  - intros [= <-]. exact Hr.
  - intros Hf. apply bind_Ok_inv in Hf as (st1 & Hw & Hf).
    eapply IH; [|exact Hf]. eapply reachable_write; eassumption.
Qed.

Lemma write_string_records (st st' : StringTable) (s : pystr) :
  write_string st s = Ok st' -> is_Some (_stringmap st' !! s).
Proof.
  intros Hw. destruct (_stringmap st !! s) as [off|] eqn:E.
  - rewrite (write_string_present _ _ _ E) in Hw. injection Hw as <-. eauto.
  - destruct (write_string_new _ _ _ E Hw) as (bs & _ & ->). simpl.
    rewrite lookup_insert_eq. eauto.
Qed.

(** C10. In every state of a [StringTable], interning [s] a second time
    changes nothing: the blob and the mapping stay as the first intern left
    them. The offset recorded for [s] is where its encoded bytes and the
    terminating zero lie in the blob; when [s] is new it is the length the
    blob had, and the blob grows by exactly those bytes. Every later query
    returns that offset, whatever strings are interned in between. *)
Theorem intern_twice (st st1 : StringTable) (s : pystr) :
  StringTable_reachable st ->
  write_string st s = Ok st1 ->
  write_string st1 s = Ok st1
  /\ exists offset bs,
       get_string_offset st1 s = Ok offset
       /\ sjis_encode s = Some bs
       /\ read_at (getvalue (_strings st1)) offset (len bs + 1) = bs ++ [0]
       /\ (_stringmap st !! s = None ->
           offset = StringTable_size st
           /\ getvalue (_strings st1) = getvalue (_strings st) ++ bs ++ [0])
       /\ forall (others : list pystr) (st2 : StringTable),
            foldM write_string (others ++ [s]) st1 = Ok st2 ->
            get_string_offset st2 s = Ok offset
            /\ read_at (getvalue (_strings st2)) offset (len bs + 1) = bs ++ [0]
            /\ foldM write_string others st1 = Ok st2.
Proof.
  intros Hr Hw.
  assert (Hr1 : StringTable_reachable st1) by (eapply reachable_write; eassumption).
  destruct (write_string_records _ _ _ Hw) as [offset E1].
  destruct (reachable_inv _ Hr1) as [Hend1 Hmap1].
  destruct (Hmap1 _ _ E1) as (H0 & bs & Hbs & Hread).
  split; [eapply write_string_present; exact E1|].
  exists offset, bs.
  split; [unfold get_string_offset, getitem; rewrite E1; reflexivity|].
  split; [exact Hbs|]. split; [exact Hread|]. split.
  - intros E. destruct (write_string_new _ _ _ E Hw) as (bs' & Hbs' & ->).
    simpl in E1. rewrite lookup_insert_eq in E1. injection E1 as <-.
    assert (bs' = bs) by congruence. subst bs'.
    destruct (reachable_inv _ Hr) as [Hend _].
    split; [reflexivity|]. cbn [_strings].
    rewrite (write_at_end _ bs) by exact Hend.
    rewrite write_at_end by reflexivity. simpl.
    rewrite <- app_assoc. reflexivity.
  - intros others st2 Hf. rewrite foldM_app in Hf.
    apply bind_Ok_inv in Hf as (st2' & Hf & Hlast). simpl in Hlast.
    apply bind_Ok_inv in Hlast as (st2'' & Hlast & [= <-]).
    pose proof (write_strings_keep _ _ _ _ _ E1 Hf) as E2.
    rewrite (write_string_present _ _ _ E2) in Hlast. injection Hlast as <-.
    split; [unfold get_string_offset, getitem; rewrite E2; reflexivity|].
    split; [|exact Hf].
    destruct (reachable_inv _ (write_strings_reachable _ _ _ Hr1 Hf)) as [_ Hmap2].
    destruct (Hmap2 _ _ E2) as (_ & bs2 & Hbs2 & Hread2).
    assert (bs2 = bs) by congruence. subst bs2. exact Hread2.
Qed.

End StringTable_facts.

Lemma intern_twice_witness :
  exists st1,
    @write_string ascii_codec StringTable_new (py "a") = Ok st1
    /\ @write_string ascii_codec st1 (py "a") = Ok st1
    /\ getvalue (_strings st1) = [97; 0].
Proof.
  eexists. split; [reflexivity|].
  destruct (@intern_twice ascii_codec StringTable_new _ (py "a")
              reachable_new eq_refl) as (H2 & _).
  split; [exact H2 | reflexivity].
Defined.

(** ** Paths and insertion *)

Lemma split_path_single (path : pystr) :
  single_segment path = true -> split_path path = (path, None).
Proof.
  induction path as [|char path IH]; simpl; [reflexivity|].
  intros Hs. apply andb_prop in Hs as [Hc Hs].
  apply negb_true_iff, bool_decide_eq_false in Hc.
  rewrite decide_False by exact Hc. rewrite (IH Hs). reflexivity.
Qed.

(** Every insertion at a path of one segment raises [TypeError] and leaves
    the directory as it was: [isinstance] is asked about the name, a
    string, and never about the entry. *)
Lemma setitem_single_segment (self : Directory) (path : pystr) (entry : pyobj) :
  single_segment path = true ->
  Directory_setitem self path entry = (self, Raise TypeError).
Proof.
  intros Hs. unfold Directory_setitem.
  rewrite (split_path_single _ Hs). reflexivity.
Qed.

(** C7. Inserting a [File] at a one-segment name [n] that a subdirectory
    of [d] uses fails, inserting a [Directory] at a name that a file of [d]
    uses fails, and in both cases [d], with its [files] and [subdirs], is
    left as it was. *)
Theorem setitem_collision_fails (d : Directory) (n : pystr) (file : File)
    (dir : Directory) :
  single_segment n = true ->
  (dict_in n (subdirs d) = true ->
   exists e, Directory_setitem d n (ObjFile file) = (d, Raise e))
  /\ (dict_in n (files d) = true ->
      exists e, Directory_setitem d n (ObjDirectory dir) = (d, Raise e)).
Proof.
  intros Hs. split; intros _; exists TypeError; apply setitem_single_segment, Hs.
Qed.

Lemma setitem_collision_fails_witness :
  let sub := mkDirectory (py "a") None [] [] in
  let file := File_from_file (py "a") [1; 2; 3] in
  let d := mkDirectory (py "root") None [] [(py "a", sub)] in
  single_segment (py "a") = true
  /\ dict_in (py "a") (subdirs d) = true
  /\ exists e, Directory_setitem d (py "a") (ObjFile file) = (d, Raise e).
Proof.
  intros sub file d.
  split; [reflexivity|]. split; [reflexivity|].
  exact (proj1 (setitem_collision_fails d (py "a") file sub eq_refl) eq_refl).
Defined.

(** ** Extraction *)

(** C5 (what [File.dump] does). The bytes [dump] writes are those that
    [decompress] returns for the stored bytes, for every file: the flags
    take no part. *)
Theorem dump_decompresses_whatever_the_flags `{External} (name : pystr)
    (fileid hashcode flags : option Z) (ft : FileListing) (data : bytes)
    (f : BytesIO) :
  dump (mkFile name fileid hashcode flags ft data) f
  = (out ← decompress true data; Ok (write f out)).
Proof. reflexivity. Qed.

(** ** Decoder: the name loop *)

(** At or past the end of the buffer the loop never meets its zero byte. *)
Lemma count_until_nul_eof (fuel : nat) (buf : bytes) (pos stringlen : Z) :
  len buf <= pos -> count_until_nul fuel buf pos stringlen = OutOfFuel.
Proof.
  intros Hpos. revert stringlen.
  induction fuel as [|fuel IH]; intros stringlen; simpl; [reflexivity|].
  assert (E : read_at buf pos 1 = []).
  { unfold read_at. rewrite drop_ge by (unfold len in Hpos; lia). reflexivity. }
  rewrite E. rewrite decide_False by discriminate.
  change (len (@nil Z)) with 0. rewrite Z.add_0_r. apply IH.
Qed.

Lemma stringtable_get_name_eof `{Codec} (fuel : nat) (f : bytes)
    (stringtable_offset offset : Z) :
  len f <= stringtable_offset + offset ->
  stringtable_get_name fuel f stringtable_offset offset = OutOfFuel.
Proof.
  intros Hpos. unfold stringtable_get_name.
  rewrite count_until_nul_eof by exact Hpos. reflexivity.
Qed.

(** C4 (the failing input). On [unterminated_name_container] the decoder
    has no outcome, whatever the number of turns allowed to the name loop:
    the loop of [stringtable_get_name] reads at the end of the buffer for
    ever. *)
Theorem from_file_unterminated_name (fuel : nat) :
  @from_file ascii_codec no_tools fuel unterminated_name_container = OutOfFuel.
Proof.
  cbv -[count_until_nul].
  match goal with |- context [count_until_nul fuel ?b ?p ?n] =>
    rewrite (count_until_nul_eof fuel b p n) by (vm_compute; discriminate) end.
  reflexivity.
Qed.

(** ** Decoder: the cycle guard *)

Lemma be_value_nonneg (bs : bytes) : Forall (fun b => 0 <= b) bs -> 0 <= be_value bs.
Proof.
  unfold be_value. intros HF.
  enough (G : forall acc, 0 <= acc -> 0 <= fold_left (fun acc b => acc * 256 + b) bs acc)
    by (apply G; lia).
  induction HF as [|b bs Hb _ IH]; intros acc Hacc; [exact Hacc|].
  cbn [fold_left]. apply IH. lia.
Qed.

Lemma unpack_from_nonneg (fmt : list nat) (data : bytes) :
  Forall (fun b => 0 <= b) data -> Forall (fun v => 0 <= v) (unpack_from fmt data).
Proof.
  revert data. induction fmt as [|n fmt IH]; intros data HF; [constructor|].
  cbn [unpack_from]. constructor.
  - apply be_value_nonneg, Forall_take, HF.
  - apply IH, Forall_drop, HF.
Qed.

Lemma unpack_fileentry_nonneg (data : bytes)
    (fileid hashcode flags padbyte nameoffset filedataoffset datasize padding : Z) :
  Forall (fun b => 0 <= b) data ->
  unpack_fileentry data
  = Ok (fileid, hashcode, flags, padbyte, nameoffset, filedataoffset, datasize, padding) ->
  0 <= filedataoffset.
Proof.
  intros HF Hu. unfold unpack_fileentry, unpack in Hu.
  case_decide; [|discriminate Hu]. rewrite bind_Ok in Hu.
  pose proof (unpack_from_nonneg [2; 2; 1; 1; 2; 4; 4; 4]%nat data HF) as Hnn.
  destruct (unpack_from [2; 2; 1; 1; 2; 4; 4; 4]%nat data)
    as [|a [|b [|c [|d [|e [|g [|h [|i [|]]]]]]]]]; try discriminate Hu.
  injection Hu as -> -> -> -> -> -> -> ->.
  rewrite !Forall_cons in Hnn. tauto.
Qed.

Lemma foldM_ext {A S} (step1 step2 : S -> A -> result S) (l : list A) (s : S) :
  (forall s a, a ∈ l -> step1 s a = step2 s a) -> foldM step1 l s = foldM step2 l s.
Proof.
  revert s. induction l as [|a l IH]; intros s Hext; [reflexivity|].
  cbn [foldM]. rewrite (Hext s a) by left.
  destruct (step2 s a) as [s'| |]; try reflexivity.
  rewrite !bind_Ok. apply IH. intros s0 a0 Ha0. apply Hext. right. exact Ha0.
Qed.

Lemma NoDup_range_length (l : list Z) (n : nat) :
  NoDup l -> Forall (fun x => 0 <= x < Z.of_nat n) l -> (length l <= n)%nat.
Proof.
  intros Hnd HF.
  replace n with (length (seqZ 0 (Z.of_nat n))) by (rewrite length_seqZ; lia).
  apply submseteq_length, NoDup_submseteq; [exact Hnd|].
  intros x Hx. rewrite Forall_forall in HF. specialize (HF x Hx).
  apply elem_of_seqZ. lia.
Qed.

Section Cycle_guard.
Context `{Codec}.
Variables (fuel : nat) (f : bytes) (sto feo dto : Z) (nodelist : list node).
Hypothesis f_nonneg : Forall (fun b => 0 <= b) f.

Lemma from_node_entry_ext
    (rec1 rec2 : pystr -> Z -> option (list Z) -> result (Directory * list warning))
    (entryoffset cur : Z) (parents : option (list Z)) (st : Directory * list warning)
    (i : Z) :
  (forall name idx,
      idx ∉ cur :: default [] parents -> 0 <= idx ->
      rec1 name idx (Some (cur :: default [] parents))
      = rec2 name idx (Some (cur :: default [] parents))) ->
  from_node_entry rec1 fuel f sto feo dto entryoffset cur parents st i
  = from_node_entry rec2 fuel f sto feo dto entryoffset cur parents st i.
Proof.
  intros Hrec. destruct st as [newdir log]. unfold from_node_entry.
  destruct (unpack_fileentry (read_at f (feo + (entryoffset + i) * 20) 20))
    as [[[[[[[[fileid hashcode] flags] padbyte] nameoffset] fdo] datasize] padding]| |]
    eqn:Hu; try reflexivity.
  rewrite ?bind_Ok. cbv beta iota.
  destruct (stringtable_get_name fuel f sto nameoffset) as [name| |]; try reflexivity.
  rewrite ?bind_Ok. case_bool_decide; [reflexivity|].
  destruct (nonzero (Z.land flags DIRECTORY) && negb (nonzero (Z.land flags FILE)));
    [|reflexivity].
  cbv zeta. rewrite ?bind_Ok. case_bool_decide; [reflexivity|].
  rewrite (Hrec name fdo); [reflexivity|assumption|].
  eapply unpack_fileentry_nonneg; [|exact Hu].
  unfold read_at. apply Forall_take, Forall_drop, f_nonneg.
Qed.

Lemma from_node_depth (depth : nat) :
  forall (depth' : nat) (name : pystr) (cur : Z) (parents : option (list Z)),
    NoDup (cur :: default [] parents) ->
    Forall (fun x => 0 <= x < len nodelist) (default [] parents) -> 0 <= cur ->
    (length nodelist < depth + length (default [] parents))%nat ->
    (length nodelist < depth' + length (default [] parents))%nat ->
    from_node depth fuel f name sto feo dto nodelist cur parents
    = from_node depth' fuel f name sto feo dto nodelist cur parents.
Proof.
  induction depth as [|depth IH]; intros depth' name cur parents Hnd Hrange Hcur Hd Hd'.
  { apply NoDup_cons in Hnd as [_ Hnd].
    pose proof (NoDup_range_length _ _ Hnd Hrange). lia. }
  destruct depth' as [|depth'].
  { apply NoDup_cons in Hnd as [_ Hnd].
    pose proof (NoDup_range_length _ _ Hnd Hrange). lia. }
  cbn [from_node].
  destruct (nodelist !! Z.to_nat cur) as [[[[nm unknown] entrycount] entryoffset]|] eqn:Hl;
    [|reflexivity].
  apply foldM_ext. intros st i _. apply from_node_entry_ext.
  intros name' idx Hidx Hidx0. apply IH.
  - cbn [default]. apply NoDup_cons. split; assumption.
  - cbn [default]. constructor; [|exact Hrange].
    apply lookup_lt_Some in Hl. cbv beta. unfold len, node in *. lia.
  - exact Hidx0.
  - cbn [from_option id length] in *. unfold node in *. lia.
  - cbn [from_option id length] in *. unfold node in *. lia.
Qed.

End Cycle_guard.

Lemma foldM_invariant {A S} (I : S -> Prop) (step : S -> A -> result S) (l : list A) :
  (forall s a s', a ∈ l -> I s -> step s a = Ok s' -> I s') ->
  forall s s', I s -> foldM step l s = Ok s' -> I s'.
Proof.
  induction l as [|a l IH]; intros Hstep s s' Hs Hf.
  - cbn in Hf. injection Hf as <-. exact Hs.
  - cbn [foldM] in Hf. apply bind_Ok_inv in Hf as (s1 & H1 & Hf).
    apply (IH (fun s0 a0 s0' Ha => Hstep s0 a0 s0' ltac:(right; exact Ha)) s1 s');
      [|exact Hf].
    apply (Hstep s a s1); [left|exact Hs|exact H1].
Qed.

Lemma getvalue_read_uint32 (f f' : BytesIO) (v : Z) :
  read_uint32 f = Ok (v, f') -> getvalue f' = getvalue f.
Proof.
  unfold read_uint32, read. cbv zeta. intros Hr.
  apply bind_Ok_inv in Hr as (l & _ & Hr).
  destruct l as [|v' [|]]; try discriminate Hr. injection Hr as _ <-. reflexivity.
Qed.

Lemma from_file_node_getvalue `{Codec} (fuel : nat) (sto : Z) (st st' : BytesIO * list node)
    (i : Z) :
  from_file_node fuel sto st i = Ok st' ->
  getvalue st'.1 = getvalue st.1 /\ exists nd, st'.2 = st.2 ++ [nd].
Proof.
  destruct st as [f nodes], st' as [f' nodes'].
  unfold from_file_node, read. cbv zeta. intros Hstep.
  apply bind_Ok_inv in Hstep as ([[[nameoffset unknown] entrycount] entryoffset] & _ & Hstep).
  apply bind_Ok_inv in Hstep as (dir_name & _ & Hstep).
  injection Hstep as <- <-. split; [reflexivity|]. eexists. reflexivity.
Qed.

(** ** Decoder: the ways it fails *)

Lemma unpack_raises (fmt : list nat) (data : bytes) (e : exn) :
  unpack fmt data = Raise e -> e = StructError.
Proof. unfold unpack. case_decide; congruence. Qed.

Lemma unpack_fileentry_raises (data : bytes) (e : exn) :
  unpack_fileentry data = Raise e -> e = StructError.
Proof.
  unfold unpack_fileentry. intros Hu.
  apply bind_Raise_inv in Hu as [Hu|(l & _ & Hu)].
  - eapply unpack_raises, Hu.
  - repeat (destruct l as [|? l]; try congruence).
Qed.

Lemma unpack_node_raises (data : bytes) (e : exn) :
  unpack_node data = Raise e -> e = StructError.
Proof.
  unfold unpack_node. intros Hu.
  apply bind_Raise_inv in Hu as [Hu|(l & _ & Hu)].
  - eapply unpack_raises, Hu.
  - repeat (destruct l as [|? l]; try congruence).
Qed.

Lemma read_uint32_raises (f : BytesIO) (e : exn) :
  read_uint32 f = Raise e -> e = StructError.
Proof.
  unfold read_uint32, read. intros Hu.
  apply bind_Raise_inv in Hu as [Hu|(l & _ & Hu)].
  - eapply unpack_raises, Hu.
  - repeat (destruct l as [|? l]; try congruence).
Qed.

(** A field read with success lies inside the buffer. *)
Lemma read_uint32_inv (buf : bytes) (pos v : Z) (f' : BytesIO) :
  0 <= pos -> read_uint32 (mkBytesIO buf pos) = Ok (v, f') ->
  v = be_value (read_at buf pos 4) /\ f' = mkBytesIO buf (pos + 4)
  /\ pos + 4 <= len buf.
Proof.
  intros Hpos Hr. unfold read_uint32, read in Hr. cbn [getvalue tell] in Hr.
  apply bind_Ok_inv in Hr as (l & Hu & Hr). unfold unpack in Hu.
  case_decide as Hlen; [|discriminate Hu]. injection Hu as <-.
  cbn [unpack_from sum_list sum_list_with] in Hr, Hlen. injection Hr as <- <-.
  change (id 4 + 0)%nat with 4%nat in Hlen.
  rewrite take_ge by lia. unfold len. rewrite Hlen.
  split; [reflexivity|]. split; [f_equal; lia|].
  unfold read_at in Hlen. rewrite length_take, length_drop in Hlen. lia.
Qed.

(** A skip that a field read with success follows was not cut short. *)
Lemma read_skip_inv (buf : bytes) (pos n : Z) :
  0 <= pos -> 0 <= n -> pos + len (read_at buf pos n) + 4 <= len buf ->
  len (read_at buf pos n) = n.
Proof.
  intros Hpos Hn. unfold read_at, len. rewrite length_take, length_drop. lia.
Qed.

Lemma from_file_nodes_length `{Codec} (fuel : nat) (sto : Z) (l : list Z) :
  forall (st st' : BytesIO * list node),
    foldM (from_file_node fuel sto) l st = Ok st' ->
    getvalue st'.1 = getvalue st.1 /\ length st'.2 = (length st.2 + length l)%nat.
Proof.
  induction l as [|i l IH]; intros st st' Hf.
  - injection Hf as <-. split; [reflexivity|]. cbn. lia.
  - cbn [foldM] in Hf. apply bind_Ok_inv in Hf as (st1 & H1 & Hf).
    apply from_file_node_getvalue in H1 as [Hg [nd Hnd]].
    destruct (IH _ _ Hf) as [Hg' Hl]. split; [congruence|].
    rewrite Hl, Hnd, length_app. cbn. lia.
Qed.

Section Decoder_failures.
Context `{Codec}.

Lemma stringtable_get_name_raises (fuel : nat) (f : bytes) (so o : Z) (e : exn) :
  stringtable_get_name fuel f so o = Raise e -> e = UnicodeDecodeError.
Proof.
  unfold stringtable_get_name. intros Hg.
  apply bind_Raise_inv in Hg as [Hg|(n & _ & Hg)].
  - exfalso. revert Hg. generalize (so + o) 0.
    induction fuel as [|fuel IH]; intros pos n; simpl; [discriminate|].
    case_decide; [discriminate|]. apply IH.
  - destruct (sjis_decode _); congruence.
Qed.

Lemma from_fileentry_raises (fuel : nat) (f : bytes)
    (so gdo fileid hashcode flags no fdo ds : Z) (e : exn) :
  from_fileentry fuel f so gdo fileid hashcode flags no fdo ds = Raise e ->
  e = UnicodeDecodeError.
Proof.
  unfold from_fileentry. intros Hf.
  apply bind_Raise_inv in Hf as [Hf|(n & _ & Hf)]; [|discriminate].
  eapply stringtable_get_name_raises, Hf.
Qed.

(** One entry raises what its own statements raise, or what the nested
    call it makes raises; it makes that call on a node index that is not
    among the parents. *)
Lemma from_node_entry_raises (P : exn -> Prop)
    (rec : pystr -> Z -> option (list Z) -> result (Directory * list warning))
    (fuel : nat) (f : bytes) (so geo do eo cur : Z) (parents : option (list Z))
    (st : Directory * list warning) (i : Z) (e : exn) :
  Forall (fun b => 0 <= b) f ->
  (forall e, malformed_error e -> P e) ->
  (forall name idx e,
      idx ∉ cur :: default [] parents -> 0 <= idx ->
      rec name idx (Some (cur :: default [] parents)) = Raise e -> P e) ->
  from_node_entry rec fuel f so geo do eo cur parents st i = Raise e ->
  P e.
Proof.
  intros Hnn Hmal Hrec. unfold from_node_entry. destruct st as [newdir log].
  intros He. unfold malformed_error in Hmal.
  destruct (unpack_fileentry (read_at f (geo + (eo + i) * 20) 20))
    as [[[[[[[[fileid hashcode] flags] padbyte] nameoffset] fdo] datasize] padding]|e'|]
    eqn:Hu; [| |discriminate He].
  2:{ injection He as <-. apply Hmal. left. eapply unpack_fileentry_raises, Hu. }
  rewrite ?bind_Ok in He. cbv beta iota in He.
  apply bind_Raise_inv in He as [He|(name & _ & He)].
  { apply Hmal. right; right. eapply stringtable_get_name_raises, He. }
  case_bool_decide; [discriminate|].
  destruct (_ && _).
  - apply bind_Raise_inv in He as [He|(name' & _ & He)].
    { apply Hmal. right; right. eapply stringtable_get_name_raises, He. }
    case_bool_decide as Hin; [discriminate|].
    apply bind_Raise_inv in He as [He|([subdir sublog] & _ & He)]; [|discriminate].
    eapply (Hrec name' fdo); [exact Hin| |exact He].
    eapply unpack_fileentry_nonneg; [|exact Hu].
    unfold read_at. apply Forall_take, Forall_drop, Hnn.
  - apply bind_Raise_inv in He as [He|(file & _ & He)]; [|discriminate].
    apply Hmal. right; right. eapply from_fileentry_raises, He.
Qed.

(** Whatever the number of nested calls allowed, [from_node] raises the
    errors of a malformed buffer or [RecursionError]. *)
Lemma from_node_raises (depth fuel : nat) (f : bytes) (_name : pystr)
    (so geo do : Z) (nodelist : list node) (cur : Z) (parents : option (list Z))
    (e : exn) :
  Forall (fun b => 0 <= b) f ->
  from_node depth fuel f _name so geo do nodelist cur parents = Raise e ->
  malformed_error e \/ e = RecursionError.
Proof.
  intros Hnn. revert _name cur parents e.
  induction depth as [|depth IH]; intros _name cur parents e; cbn [from_node].
  { intros [= <-]. right. reflexivity. }
  destruct (nodelist !! Z.to_nat cur) as [[[[name unknown] entrycount] entryoffset]|].
  - apply (foldM_raises (fun e => malformed_error e \/ e = RecursionError)).
    intros s a e' _.
    apply (from_node_entry_raises (fun e => malformed_error e \/ e = RecursionError));
      [exact Hnn|intros e0 He0; left; exact He0|].
    intros name' idx e'' _ _. apply IH.
  - intros [= <-]. left. right; left. reflexivity.
Qed.

(** When more nested calls are allowed than the cycle guard lets through,
    [from_node] does not raise [RecursionError]. *)
Lemma from_node_raises_within (depth fuel : nat) (f : bytes) (so geo do : Z)
    (nodelist : list node) :
  Forall (fun b => 0 <= b) f ->
  forall (_name : pystr) (cur : Z) (parents : option (list Z)) (e : exn),
    NoDup (cur :: default [] parents) ->
    Forall (fun x => 0 <= x < len nodelist) (default [] parents) -> 0 <= cur ->
    (length nodelist < depth + length (default [] parents))%nat ->
    from_node depth fuel f _name so geo do nodelist cur parents = Raise e ->
    malformed_error e.
Proof.
  intros Hnn.
  induction depth as [|depth IH]; intros _name cur parents e Hnd Hrange Hcur Hd.
  { apply NoDup_cons in Hnd as [_ Hnd].
    pose proof (NoDup_range_length _ _ Hnd Hrange). lia. }
  cbn [from_node].
  destruct (nodelist !! Z.to_nat cur) as [[[[name unknown] entrycount] entryoffset]|] eqn:Hl.
  - apply (foldM_raises malformed_error). intros s a e' _.
    apply (from_node_entry_raises malformed_error); [exact Hnn|auto|].
    intros name' idx e'' Hidx Hidx0. apply IH.
    + cbn [default]. apply NoDup_cons. split; assumption.
    + cbn [default]. constructor; [|exact Hrange].
      apply lookup_lt_Some in Hl. cbv beta. unfold len, node in *. lia.
    + exact Hidx0.
    + cbn [from_option id length] in *. unfold node in *. lia.
  - intros [= <-]. right; left. reflexivity.
Qed.
Lemma from_file_node_raises (fuel : nat) (so : Z) (st : BytesIO * list node)
    (i : Z) (e : exn) :
  from_file_node fuel so st i = Raise e -> malformed_error e.
Proof.
  unfold from_file_node, read. destruct st as [f nodes]. intros Hn.
  apply bind_Raise_inv in Hn as [Hn|([[[no un] ec] eo] & _ & Hn)].
  { left. eapply unpack_node_raises, Hn. }
  apply bind_Raise_inv in Hn as [Hn|(dn & _ & Hn)]; [|discriminate].
  case_decide; [|discriminate].
  apply bind_Raise_inv in Hn as [Hn|(n & _ & Hn)]; [|discriminate].
  right; right. eapply stringtable_get_name_raises, Hn.
Qed.

End Decoder_failures.

(** The decoder after the magic, by what its header and its node table
    give: they fail, and the decoder fails so whatever the limit; or they
    give the node table, as many nodes as the field at offset 32 says, and
    the decoder is the call of [from_node] on node 0. *)
Lemma from_file_body_cases `{Codec} (fuel : nat) (buf : bytes) :
  (exists r : result (Archive * list warning),
      (forall a, r <> Ok a) /\ (forall e, r = Raise e -> malformed_error e)
      /\ from_file_body fuel (mkBytesIO buf 4) = r
      /\ forall limit, from_file_body_within limit fuel (mkBytesIO buf 4) = r)
  \/ (exists (nodes : list node) (name : pystr) (sto feo dto : Z),
         length nodes = Z.to_nat (be_value (read_at buf 32 4))
         /\ from_file_body fuel (mkBytesIO buf 4)
            = ('(root, log) ← from_node (S (length nodes)) fuel buf name sto feo dto
                                        nodes 0 None;
               Ok (mkArchive root, log))
         /\ forall limit,
              from_file_body_within limit fuel (mkBytesIO buf 4)
              = ('(root, log) ← from_node limit fuel buf name sto feo dto nodes 0 None;
                 Ok (mkArchive root, log))).
Proof.
  unfold from_file_body_within, from_file_body.
  assert (Hread : forall pos n,
            read (mkBytesIO buf pos) n
            = (read_at buf pos n, mkBytesIO buf (pos + len (read_at buf pos n))))
    by reflexivity.
  assert (Hfail : forall e : exn, malformed_error e ->
            exists r : result (Archive * list warning),
              (forall a, r <> Ok a) /\ (forall e, r = Raise e -> malformed_error e)
              /\ Raise e = r /\ (nat -> Raise e = r)).
  { intros e He. exists (Raise e). split; [discriminate|]. split; [congruence|auto]. }
  assert (Hfuel : exists r : result (Archive * list warning),
              (forall a, r <> Ok a) /\ (forall e, r = Raise e -> malformed_error e)
              /\ OutOfFuel = r /\ (nat -> OutOfFuel = r)).
  { exists OutOfFuel. split; [discriminate|]. split; [discriminate|auto]. }
  destruct (read_uint32 (mkBytesIO buf 4)) as [[size f1]|e|] eqn:H1; cbn [mbind result_bind];
    [|left; apply Hfail; left; eapply read_uint32_raises, H1|left; exact Hfuel].
  apply read_uint32_inv in H1 as (_ & -> & Hl1); [|lia].
  rewrite !Hread. cbv beta iota.
  destruct (read_uint32 (mkBytesIO buf (4 + 4 + len (read_at buf (4 + 4) 4))))
    as [[data_offset f2]|e|] eqn:H2; cbn [mbind result_bind];
    [|left; apply Hfail; left; eapply read_uint32_raises, H2|left; exact Hfuel].
  pose proof (len_nonneg (read_at buf (4 + 4) 4)) as Hs1.
  apply read_uint32_inv in H2 as (_ & -> & Hl2); [|lia].
  rewrite (read_skip_inv buf (4 + 4) 4) in * by lia.
  rewrite !Hread. cbv beta iota.
  destruct (read_uint32 (mkBytesIO buf (4 + 4 + 4 + 4 + len (read_at buf (4 + 4 + 4 + 4) 16))))
    as [[node_count f3]|e|] eqn:H3; cbn [mbind result_bind];
    [|left; apply Hfail; left; eapply read_uint32_raises, H3|left; exact Hfuel].
  pose proof (len_nonneg (read_at buf (4 + 4 + 4 + 4) 16)) as Hs2.
  apply read_uint32_inv in H3 as (Hnc & -> & Hl3); [|lia].
  assert (Hskip : len (read_at buf (4 + 4 + 4 + 4) 16) = 16)
    by (apply read_skip_inv; lia).
  rewrite Hskip in Hnc, Hl3 |- *. clear Hskip.
  change (4 + 4 + 4 + 4 + 16) with 32 in *.
  rewrite !Hread. cbv beta iota.
  destruct (read_uint32 (mkBytesIO buf (32 + 4 + len (read_at buf (32 + 4) 8))))
    as [[file_entry_offset f4]|e|] eqn:H4; cbn [mbind result_bind];
    [|left; apply Hfail; left; eapply read_uint32_raises, H4|left; exact Hfuel].
  pose proof (len_nonneg (read_at buf (32 + 4) 8)) as Hs3.
  apply read_uint32_inv in H4 as (_ & -> & Hl4); [|lia].
  rewrite !Hread. cbv beta iota.
  match goal with |- context [read_uint32 ?g] =>
    destruct (read_uint32 g) as [[stringtable_offset f5]|e|] eqn:H5; cbn [mbind result_bind];
      [|left; apply Hfail; left; eapply read_uint32_raises, H5|left; exact Hfuel]
  end.
  assert (Hg5 : getvalue f5 = buf) by (apply getvalue_read_uint32 in H5; exact H5).
  unfold read. cbv beta iota zeta.
  match goal with |- context [foldM ?step ?l ?s] =>
    destruct (foldM step l s) as [[f6 nodes]|e|] eqn:H6; cbn [mbind result_bind];
      [|left; apply Hfail; revert H6; apply foldM_raises; intros s0 a0 e0 _;
        apply from_file_node_raises|left; exact Hfuel]
  end.
  apply from_file_nodes_length in H6 as [Hg6 Hlen]. cbn [fst snd getvalue length] in Hg6, Hlen.
  rewrite Hg5 in Hg6. rewrite length_seqZ in Hlen. cbn [Nat.add] in Hlen.
  destruct nodes as [|[[[rootfoldername ?] ?] ?] nodes].
  { left. apply Hfail. right; left. reflexivity. }
  right. rewrite Hg6.
  eexists _, _, _, _, _. split; [|split; [reflexivity|intros limit; reflexivity]].
  rewrite Hlen, Hnc. reflexivity.
Qed.

Lemma malformed_not_header (e : exn) : malformed_error e -> e <> RuntimeError_header.
Proof. intros [->|[->| ->]]; discriminate. Qed.

(** What [from_file] does, by the buffer [container_of] returns. *)
Lemma from_file_container `{Codec} `{External} (fuel : nat) (buf : bytes) :
  from_file fuel buf =
  b ← container_of buf;
  if decide (read_at b 0 4 = RARC_magic)
  then from_file_body fuel (mkBytesIO b (len (read_at b 0 4)))
  else Raise RuntimeError_header.
Proof.
  unfold from_file, container_of, read, seek. cbn [getvalue tell].
  case_decide as Hy; cbn [mbind result_bind].
  - destruct (decompress false buf) as [b| |]; reflexivity.
  - reflexivity.
Qed.


Lemma from_file_within_container `{Codec} `{External} (limit fuel : nat) (buf : bytes) :
  from_file_within limit fuel buf =
  b ← container_of buf;
  if decide (read_at b 0 4 = RARC_magic)
  then from_file_body_within limit fuel (mkBytesIO b (len (read_at b 0 4)))
  else Raise RuntimeError_header.
Proof.
  unfold from_file_within, container_of, read, seek. cbn [getvalue tell].
  case_decide as Hy; cbn [mbind result_bind].
  - destruct (decompress false buf) as [b| |]; reflexivity.
  - reflexivity.
Qed.

(** C6, amended. The format error is raised exactly when the buffer, after
    the decompression that a leading compression magic calls for, does not
    begin with the container magic. The other failures of the decoder are
    [struct.error] (a truncated header, node or entry), [IndexError] (no
    node, or a child node index outside the node table),
    [UnicodeDecodeError] (name bytes that cannot be decoded) and
    [RecursionError]: when directories nest deeper than the interpreter
    allows, which takes a node table of at least as many nodes as the
    nested calls allowed. With more nested calls allowed than the node
    table has nodes, the decoder is [from_file]. A wrapped buffer whose
    decompressed form begins with the container magic decodes exactly as
    that form does. A failure of the decompression is the failure of the
    decoder. *)
Theorem from_file_failure_modes `{Codec} `{External} (limit fuel : nat) (buf : bytes) :
  match container_of buf with
  | Ok b =>
      is_bytes b ->
      (from_file_within limit fuel buf = Raise RuntimeError_header
       <-> read_at b 0 4 <> RARC_magic)
      /\ (forall e, from_file_within limit fuel buf = Raise e ->
            e = RuntimeError_header \/ malformed_error e
            \/ (e = RecursionError /\ Z.of_nat limit <= be_value (read_at b 32 4)))
      /\ (be_value (read_at b 32 4) < Z.of_nat limit ->
          from_file_within limit fuel buf = from_file fuel buf)
      /\ (read_at b 0 4 = RARC_magic ->
          from_file_within limit fuel buf = from_file_within limit fuel b)
  | Raise e => from_file_within limit fuel buf = Raise e
  | OutOfFuel => from_file_within limit fuel buf = OutOfFuel
  end.
Proof.
  rewrite from_file_within_container, from_file_container.
  destruct (container_of buf) as [b|e|] eqn:Hc; cbn [mbind result_bind];
    [|reflexivity..].
  intros Hb.
  assert (Hnn : Forall (fun x => 0 <= x) b).
  { eapply Forall_impl; [exact Hb|]. cbn. intros x Hx. lia. }
  assert (Hlast : read_at b 0 4 = RARC_magic ->
            (if decide (read_at b 0 4 = RARC_magic)
             then from_file_body_within limit fuel (mkBytesIO b (len (read_at b 0 4)))
             else Raise RuntimeError_header)
            = from_file_within limit fuel b).
  { intros Hm. rewrite from_file_within_container. unfold container_of at 1.
    rewrite (decide_False (P := read_at b 0 4 = Yaz0_magic))
      by (rewrite Hm; intros E; vm_compute in E; discriminate).
    reflexivity. }
  case_decide as Hm.
  2:{ split; [split; [intros _; exact Hm|reflexivity]|].
      split; [intros e [= <-]; left; reflexivity|].
      split; [reflexivity|]. intros Hm'. contradiction. }
  rewrite Hm in *. change (len RARC_magic) with 4 in *.
  assert (Hraise : forall e,
            from_file_body_within limit fuel (mkBytesIO b 4) = Raise e ->
            malformed_error e
            \/ (e = RecursionError /\ Z.of_nat limit <= be_value (read_at b 32 4))).
  { intros e He.
    destruct (from_file_body_cases fuel b)
      as [(r & _ & Hmal & _ & Hw)|(nodes & name & sto & feo & dto & Hlen & _ & Hw)].
    - rewrite Hw in He. left. apply Hmal, He.
    - rewrite Hw in He.
      apply bind_Raise_inv in He as [He|([rootdir log] & _ & He)]; [|discriminate He].
      destruct (decide (length nodes < limit)%nat) as [Hlt|Hge].
      + left. eapply (from_node_raises_within limit fuel b sto feo dto nodes Hnn);
          [| | | |exact He].
        * cbn [default]. apply NoDup_singleton.
        * constructor.
        * lia.
        * cbn [default length]. lia.
      + apply from_node_raises in He; [|exact Hnn].
        destruct He as [He| ->]; [left; exact He|].
        right. split; [reflexivity|].
        pose proof (be_value_nonneg (read_at b 32 4)
                      ltac:(unfold read_at; apply Forall_take, Forall_drop, Hnn)).
        lia. }
  split; [|split; [|split]].
  - split; [|intros Hne; contradiction].
    intros He. apply Hraise in He as [He|[He _]]; [|discriminate He].
    apply malformed_not_header in He. congruence.
  - intros e He. right. apply Hraise, He.
  - intros Hlt.
    destruct (from_file_body_cases fuel b)
      as [(r & _ & _ & Hbody & Hw)|(nodes & name & sto & feo & dto & Hlen & Hbody & Hw)].
    + rewrite Hw, Hbody. reflexivity.
    + rewrite Hw, Hbody. f_equal.
      pose proof (be_value_nonneg (read_at b 32 4)
                    ltac:(unfold read_at; apply Forall_take, Forall_drop, Hnn)).
      apply from_node_depth; try exact Hnn.
      * cbn [default]. apply NoDup_singleton.
      * constructor.
      * lia.
      * cbn [default length]. lia.
      * cbn [default length]. lia.
  - exact Hlast.
Qed.

Lemma from_file_failure_modes_witness :
  exists buf : bytes,
    @container_of no_tools buf = Ok buf
    /\ is_bytes buf
    /\ be_value (read_at buf 32 4) = 2
    /\ @from_file_within ascii_codec no_tools 1 16 buf = Raise RecursionError
    /\ @from_file_within ascii_codec no_tools 3 16 buf = @from_file ascii_codec no_tools 16 buf.
Proof.
  destruct (@write_arc ascii_codec no_tools example_archive CompressionSetting_default
              None 0) as [[f self']| |] eqn:E; [|vm_compute in E; discriminate E..].
  exists (getvalue f).
  assert (Hb : is_bytes (getvalue f)).
  { vm_compute in E. injection E as <- _. apply (bool_decide_unpack _).
    vm_compute. reflexivity. }
  assert (Hc : @container_of no_tools (getvalue f) = Ok (getvalue f)).
  { vm_compute in E. injection E as <- _. vm_compute. reflexivity. }
  assert (Hn : be_value (read_at (getvalue f) 32 4) = 2).
  { vm_compute in E. injection E as <- _. vm_compute. reflexivity. }
  assert (Hr : @from_file_within ascii_codec no_tools 1 16 (getvalue f)
               = Raise RecursionError).
  { vm_compute in E. injection E as <- _. vm_compute. reflexivity. }
  pose proof (@from_file_failure_modes ascii_codec no_tools 3 16 (getvalue f)) as H3.
  rewrite Hc in H3. destruct (H3 Hb) as (_ & _ & Heq & _).
  split; [exact Hc|]. split; [exact Hb|]. split; [exact Hn|]. split; [exact Hr|].
  apply Heq. rewrite Hn. reflexivity.
Defined.

(** C6, as stated, fails: [empty_container] begins with the container
    magic and holds no name, and decoding it raises [IndexError]. *)
Lemma from_file_empty_container :
  read_at empty_container 0 4 = RARC_magic
  /\ @from_file ascii_codec no_tools 0 empty_container = Raise IndexError.
Proof. split; reflexivity. Qed.

(** ** The tree: induction and the [_nodeindex] assignments *)

Lemma Directory_ind' (P : Directory -> Prop) :
  (forall name idx files subdirs,
      Forall (fun kd => P kd.2) subdirs -> P (mkDirectory name idx files subdirs)) ->
  forall d, P d.
Proof.
  intros HP. fix IH 1. intros [name idx files subdirs].
  apply HP. induction subdirs as [|[k sd] l IHl]; constructor.
  - apply IH.
  - exact IHl.
Qed.

Lemma erase_set_nodeindex (p : list nat) (d : Directory) (i : Z) :
  erase_nodeindex (set_nodeindex d p i) = erase_nodeindex d.
Proof.
  revert d. induction p as [|j p IH]; intros [name idx files subdirs]; simpl.
  - reflexivity.
  - f_equal. destruct (subdirs !! j) as [[k sd]|] eqn:E; [|reflexivity].
    rewrite list_fmap_insert. simpl. rewrite IH.
    apply list_insert_id. rewrite list_lookup_fmap, E. reflexivity.
Qed.

Lemma erase_set_ref (r : objref) (d : Directory) (i : Z) :
  erase_nodeindex (set_ref_nodeindex d r i) = erase_nodeindex d.
Proof. destruct r; simpl; [apply erase_set_nodeindex|reflexivity]. Qed.

Lemma erase_assign_all (as_ : list (objref * Z)) (d : Directory) :
  erase_nodeindex (assign_all as_ d) = erase_nodeindex d.
Proof.
  revert d. induction as_ as [|a as_ IH]; intros d; simpl; [reflexivity|].
  unfold assign_all in *. simpl. rewrite IH. apply erase_set_ref.
Qed.

Lemma erase_dir_name (d : Directory) : dir_name (erase_nodeindex d) = dir_name d.
Proof. destruct d; reflexivity. Qed.

Lemma erase_files (d : Directory) : files (erase_nodeindex d) = files d.
Proof. destruct d; reflexivity. Qed.

Lemma erase_subdirs (d : Directory) :
  subdirs (erase_nodeindex d) = map (fun kd => (kd.1, erase_nodeindex kd.2)) (subdirs d).
Proof. destruct d; reflexivity. Qed.

Lemma keys_erase (l : list (pystr * Directory)) :
  keys (map (fun kd => (kd.1, erase_nodeindex kd.2)) l) = keys l.
Proof. unfold keys. rewrite <- list_fmap_compose. reflexivity. Qed.

Lemma walk_erase (d : Directory) (path : option pystr) :
  walk (erase_nodeindex d) path = walk d path.
Proof.
  revert path. induction d as [name idx files subdirs IH] using Directory_ind'.
  intros path. simpl. rewrite keys_erase. f_equal.
  induction IH as [|[k sd] l Hsd _ IHl]; simpl; [reflexivity|].
  rewrite Hsd, IHl. reflexivity.
Qed.

Lemma dict_index_erase (name : pystr) (l : list (pystr * Directory)) :
  dict_index name (map (fun kd => (kd.1, erase_nodeindex kd.2)) l) = dict_index name l.
Proof.
  induction l as [|[k sd] l IH]; simpl; [reflexivity|].
  rewrite IH. reflexivity.
Qed.

Lemma Directory_getitem_erase (d : Directory) (path : pystr) :
  Directory_getitem (erase_nodeindex d) path = Directory_getitem d path.
Proof.
  revert path. induction d as [name idx files subdirs IH] using Directory_ind'.
  intros path. simpl. destruct (split_path path) as [n rest].
  rewrite dict_index_erase.
  destruct (no_rest rest); [reflexivity|].
  destruct (dict_in n files); [reflexivity|].
  generalize O.
  induction IH as [|[k sd] l Hsd _ IHl]; intros i; simpl; [reflexivity|].
  case_decide; [rewrite Hsd; reflexivity|apply IHl].
Qed.

Lemma Archive_getitem_erase (d : Directory) (path : pystr) :
  Archive_getitem (mkArchive (erase_nodeindex d)) path = Archive_getitem (mkArchive d) path.
Proof.
  unfold Archive_getitem. simpl. destruct (split_path path) as [n rest].
  rewrite erase_dir_name, Directory_getitem_erase. reflexivity.
Qed.

Lemma dir_at_erase (p : list nat) (d : Directory) :
  dir_at (erase_nodeindex d) p = erase_nodeindex <$> dir_at d p.
Proof.
  revert d. induction p as [|j p IH]; intros d; simpl; [reflexivity|].
  rewrite erase_subdirs, list_lookup_fmap.
  destruct (subdirs d !! j) as [[k sd]|]; simpl; [apply IH|reflexivity].
Qed.

Lemma ref_name_erase (d : Directory) (r : objref) :
  ref_name (erase_nodeindex d) r = ref_name d r.
Proof.
  destruct r as [p|p k]; simpl; rewrite dir_at_erase.
  - destruct (dir_at d p); simpl; [rewrite erase_dir_name|]; reflexivity.
  - destruct (dir_at d p); simpl; [rewrite erase_files|]; reflexivity.
Qed.

Lemma absolute_path_erase (p : list nat) (d : Directory) :
  absolute_path (erase_nodeindex d) p = absolute_path d p.
Proof.
  revert d. induction p as [|j p IH]; intros d; simpl.
  - rewrite erase_dir_name. reflexivity.
  - rewrite erase_subdirs, list_lookup_fmap, erase_dir_name.
    destruct (subdirs d !! j) as [[k sd]|]; simpl; [rewrite IH|]; reflexivity.
Qed.

(** Functions of the erased tree take equal values on trees that differ in
    their [_nodeindex] fields only. *)
Lemma by_erase {A} (g : Directory -> A) (d1 d2 : Directory) :
  (forall d, g (erase_nodeindex d) = g d) ->
  erase_nodeindex d1 = erase_nodeindex d2 -> g d1 = g d2.
Proof. intros Hg E. rewrite <- (Hg d1), <- (Hg d2), E. reflexivity. Qed.

Lemma set_nodeindex_twice (p : list nat) (d : Directory) (i j : Z) :
  set_nodeindex (set_nodeindex d p i) p j = set_nodeindex d p j.
Proof.
  revert d. induction p as [|a p IH]; intros [name idx files subdirs]; simpl.
  - reflexivity.
  - f_equal. destruct (subdirs !! a) as [[k sd]|] eqn:E.
    + rewrite list_lookup_insert_eq by (eapply lookup_lt_Some, E).
      rewrite list_insert_insert_eq, IH. reflexivity.
    + rewrite E. reflexivity.
Qed.

Lemma set_nodeindex_comm (p q : list nat) (d : Directory) (i j : Z) :
  p <> q ->
  set_nodeindex (set_nodeindex d q j) p i = set_nodeindex (set_nodeindex d p i) q j.
Proof.
  revert q d. induction p as [|a p IH]; intros [|b q] [name idx files subdirs] Hne;
    simpl; try reflexivity; [congruence|].
  f_equal. destruct (decide (a = b)) as [->|Hab].
  - destruct (subdirs !! b) as [[k sd]|] eqn:E.
    + rewrite !list_lookup_insert_eq by (eapply lookup_lt_Some, E).
      rewrite !list_insert_insert_eq. rewrite IH by congruence. reflexivity.
    + rewrite E. reflexivity.
  - destruct (subdirs !! a) as [[ka sda]|] eqn:Ea;
      destruct (subdirs !! b) as [[kb sdb]|] eqn:Eb;
      rewrite ?list_lookup_insert_ne by congruence; rewrite ?Ea, ?Eb; try reflexivity.
    apply list_insert_insert_ne. congruence.
Qed.

Lemma set_ref_twice (r : objref) (d : Directory) (i j : Z) :
  set_ref_nodeindex (set_ref_nodeindex d r i) r j = set_ref_nodeindex d r j.
Proof. destruct r; simpl; [apply set_nodeindex_twice|reflexivity]. Qed.

Lemma set_ref_comm (r r' : objref) (d : Directory) (i j : Z) :
  r <> r' ->
  set_ref_nodeindex (set_ref_nodeindex d r' j) r i
  = set_ref_nodeindex (set_ref_nodeindex d r i) r' j.
Proof.
  destruct r, r'; simpl; try reflexivity.
  intros Hne. apply set_nodeindex_comm. congruence.
Qed.

(** A later assignment to a place hides an earlier one. *)
Lemma assign_all_absorbs (as_ : list (objref * Z)) (r : objref) (i k : Z)
    (d : Directory) :
  set_ref_nodeindex (assign_all as_ (set_ref_nodeindex d r k)) r i
  = set_ref_nodeindex (assign_all as_ d) r i.
Proof.
  revert d. induction as_ as [|[r' j] as_ IH]; intros d.
  - apply set_ref_twice.
  - unfold assign_all in *. simpl. destruct (decide (r' = r)) as [->|Hne].
    + rewrite set_ref_twice. reflexivity.
    + rewrite set_ref_comm by exact Hne. apply IH.
Qed.

Lemma assign_all_snoc (as_ : list (objref * Z)) (a : objref * Z) (d : Directory) :
  assign_all (as_ ++ [a]) d = set_ref_nodeindex (assign_all as_ d) a.1 a.2.
Proof. unfold assign_all. rewrite fold_left_app. reflexivity. Qed.

(** Running the assignments of the node loop a second time changes nothing. *)
Lemma assign_all_idempotent (as_ : list (objref * Z)) (d : Directory) :
  assign_all as_ (assign_all as_ d) = assign_all as_ d.
Proof.
  revert d. induction as_ as [|[r i] as_ IH] using rev_ind; intros d; [reflexivity|].
  rewrite !assign_all_snoc. simpl.
  rewrite assign_all_absorbs, IH. reflexivity.
Qed.

(** ** The encoder reads the [_nodeindex] fields it has assigned

    [write_arc] twice on a tree: the second call starts from the tree as
    the first left it. *)

Section Encoder_determinism.
Context `{Codec} `{External}.

Lemma write_node_erased (stringtable : StringTable) (st st' : node_state)
    (x : Z * walkitem) :
  write_node stringtable st x = Ok st' ->
  exists a : objref * Z,
    ns_root st' = set_ref_nodeindex (ns_root st) a.1 a.2
    /\ forall X', erase_nodeindex X' = erase_nodeindex (ns_root st) ->
       write_node stringtable
         (mkNodeState (ns_f st) (ns_first_file_entry_index st) X' (ns_dirlist st)) x
       = Ok (mkNodeState (ns_f st') (ns_first_file_entry_index st')
                         (set_ref_nodeindex X' a.1 a.2) (ns_dirlist st')).
Proof.
  intros Hw. unfold write_node in *.
  destruct x as [i [[dirpath dirnames] filenames]].
  apply bind_Ok_inv in Hw as (dir & Hdir & Hw).
  exists (dir, i).
  destruct (ref_name (set_ref_nodeindex (ns_root st) dir i) dir) as [name|] eqn:Hname;
    [|discriminate].
  apply bind_Ok_inv in Hw as (nodetype & Hnt & Hw).
  apply bind_Ok_inv in Hw as (offset & Hoff & Hw).
  apply bind_Ok_inv in Hw as (f1 & Hf1 & Hw).
  apply bind_Ok_inv in Hw as (f2 & Hf2 & Hw).
  apply bind_Ok_inv in Hw as (f3 & Hf3 & Hw).
  apply bind_Ok_inv in Hw as (f4 & Hf4 & Hw).
  injection Hw as <-. split; [reflexivity|].
  intros X' HX. cbn [ns_root ns_f ns_dirlist ns_first_file_entry_index fst snd].
  rewrite (by_erase (fun d => Archive_getitem (mkArchive d) dirpath) X' (ns_root st))
    by (exact HX || intros; apply Archive_getitem_erase).
  rewrite Hdir. cbn [mbind result_bind].
  rewrite (by_erase (fun d => ref_name d dir) (set_ref_nodeindex X' dir i)
                    (set_ref_nodeindex (ns_root st) dir i))
    by (intros; apply ref_name_erase || rewrite !erase_set_ref; exact HX).
  rewrite Hname, Hnt. cbn [mbind result_bind].
  rewrite Hoff. cbn [mbind result_bind]. rewrite Hf1. cbn [mbind result_bind].
  rewrite Hf2. cbn [mbind result_bind]. rewrite Hf3. cbn [mbind result_bind].
  rewrite Hf4. reflexivity.
Qed.

Lemma write_nodes_erased (stringtable : StringTable) (l : list (Z * walkitem))
    (st st' : node_state) :
  foldM (write_node stringtable) l st = Ok st' ->
  exists as_ : list (objref * Z),
    ns_root st' = assign_all as_ (ns_root st)
    /\ forall X', erase_nodeindex X' = erase_nodeindex (ns_root st) ->
       foldM (write_node stringtable) l
         (mkNodeState (ns_f st) (ns_first_file_entry_index st) X' (ns_dirlist st))
       = Ok (mkNodeState (ns_f st') (ns_first_file_entry_index st')
                         (assign_all as_ X') (ns_dirlist st')).
Proof.
  revert st. induction l as [|x l IH]; intros st Hf; simpl in *.
  - injection Hf as <-. exists []. split; [reflexivity|]. intros X' _. reflexivity.
  - apply bind_Ok_inv in Hf as (st1 & Hw & Hf).
    destruct (write_node_erased _ _ _ _ Hw) as (a & Hr1 & Hw').
    destruct (IH st1 Hf) as (as_ & Hr & Hf').
    exists (a :: as_). split.
    + rewrite Hr, Hr1. reflexivity.
    + intros X' HX. rewrite (Hw' X' HX). cbn [mbind result_bind].
      apply (Hf' (set_ref_nodeindex X' a.1 a.2)).
      rewrite Hr1, !erase_set_ref. exact HX.
Qed.

(** C2. Two calls of the encoder on the same tree, override table and
    compression settings write the same bytes: the second call, which finds
    the tree with the [_nodeindex] fields the first call assigned, returns
    the same stream and leaves the same tree. *)
Theorem write_arc_twice (self self' : Archive) (compression_settings : CompressionSetting)
    (filelisting : option filelisting_t) (maxindex : Z) (f : BytesIO) :
  write_arc self compression_settings filelisting maxindex = Ok (f, self') ->
  write_arc self' compression_settings filelisting maxindex = Ok (f, self').
Proof.
  intros Hw. unfold write_arc in Hw.
  apply bind_Ok_inv in Hw as (st1 & Hs1 & Hw).
  apply bind_Ok_inv in Hw as (st2 & Hs2 & Hw).
  apply bind_Ok_inv in Hw as (st3 & Hs3 & Hw).
  apply bind_Ok_inv in Hw as ([stringtable nodecount] & Hs4 & Hw).
  apply bind_Ok_inv in Hw as (f0 & Hh & Hw).
  apply bind_Ok_inv in Hw as (ns & Hn & Hw).
  destruct (write_nodes_erased _ _ _ _ Hn) as (as_ & Hr & Hn').
  cbn [ns_root ns_f ns_dirlist ns_first_file_entry_index] in Hr, Hn'.
  assert (He : erase_nodeindex (ns_root ns) = erase_nodeindex (root self)).
  { rewrite Hr. apply erase_assign_all. }
  specialize (Hn' _ He).
  assert (Hid : assign_all as_ (ns_root ns) = ns_root ns).
  { rewrite Hr. apply assign_all_idempotent. }
  rewrite Hid in Hn'.
  assert (Hroot : self' = mkArchive (ns_root ns)).
  { repeat (apply bind_Ok_inv in Hw as (? & _ & Hw)).
    destruct (negb _); [discriminate|].
    repeat (apply bind_Ok_inv in Hw as (? & _ & Hw)).
    congruence. }
  unfold write_arc. subst self'. cbn [root].
  rewrite (by_erase dir_name _ _ erase_dir_name He).
  rewrite (by_erase (fun d => walk d None) _ _ (fun d => walk_erase d None) He).
  rewrite Hs1. cbn [mbind result_bind]. rewrite Hs2. cbn [mbind result_bind].
  rewrite Hs3. cbn [mbind result_bind]. rewrite Hs4. cbn [mbind result_bind].
  rewrite Hh. cbn [mbind result_bind]. rewrite Hn'. cbn [mbind result_bind].
  destruct ns as [nf nfirst nroot ndirlist].
  cbn [ns_root ns_f ns_dirlist ns_first_file_entry_index] in *.
  exact Hw.
Qed.

End Encoder_determinism.

Lemma write_arc_twice_witness :
  exists f self',
    @write_arc ascii_codec no_tools example_archive CompressionSetting_default None 0
    = Ok (f, self')
    /\ @write_arc ascii_codec no_tools self' CompressionSetting_default None 0
       = Ok (f, self').
Proof.
  eexists. eexists.
  assert (E : forall r, r = @write_arc ascii_codec no_tools example_archive
                            CompressionSetting_default None 0 ->
                        @write_arc ascii_codec no_tools example_archive
                            CompressionSetting_default None 0 = r)
    by (intros r ->; reflexivity).
  split.
  - apply E. vm_compute. reflexivity.
  - apply (@write_arc_twice ascii_codec no_tools example_archive).
    apply E. vm_compute. reflexivity.
Defined.

(** The compressed encoder in turn. *)
Lemma write_arc_compressed_twice `{Codec} `{External} (self self' : Archive)
    (compression_settings : CompressionSetting)
    (filelisting : option filelisting_t) (maxindex : Z) (out : bytes) :
  write_arc_compressed self compression_settings filelisting maxindex = Ok (out, self') ->
  write_arc_compressed self' compression_settings filelisting maxindex = Ok (out, self').
Proof.
  unfold write_arc_compressed. intros Hw.
  apply bind_Ok_inv in Hw as ([temp self1] & Hw & Hc).
  assert (self1 = self').
  { repeat case_match; try discriminate;
      repeat (apply bind_Ok_inv in Hc as (? & _ & Hc)); congruence. }
  subst self1. rewrite (write_arc_twice _ _ _ _ _ _ Hw). exact Hc.
Qed.

(** ** Writing at the end of a stream *)

Lemma stream_at_end (f : BytesIO) : at_end f -> f = stream (getvalue f).
Proof. destruct f as [b t]. unfold at_end, stream. simpl. intros ->. reflexivity. Qed.

Lemma at_end_stream (b : bytes) : at_end (stream b).
Proof. reflexivity. Qed.

Lemma write_stream (b bs : bytes) : write (stream b) bs = stream (b ++ bs).
Proof. rewrite write_at_end by reflexivity. reflexivity. Qed.

Lemma pack_be_Ok (n : nat) (v : Z) (bs : bytes) :
  pack_be n v = Ok bs -> bs = be_bytes n v /\ 0 <= v < 256 ^ Z.of_nat n.
Proof. unfold pack_be. case_decide; [|discriminate]. intros [= <-]. auto. Qed.

Lemma write_uint32_stream (b : bytes) (v : Z) (f' : BytesIO) :
  write_uint32 (stream b) v = Ok f' ->
  f' = stream (b ++ be_bytes 4 v) /\ 0 <= v < 2 ^ 32.
Proof.
  unfold write_uint32. intros Hw. apply bind_Ok_inv in Hw as (bs & Hp & [= <-]).
  apply pack_be_Ok in Hp as [-> Hr]. rewrite write_stream. split; [reflexivity|].
  exact Hr.
Qed.

Lemma write_uint16_stream (b : bytes) (v : Z) (f' : BytesIO) :
  write_uint16 (stream b) v = Ok f' ->
  f' = stream (b ++ be_bytes 2 v) /\ 0 <= v < 2 ^ 16.
Proof.
  unfold write_uint16. intros Hw. apply bind_Ok_inv in Hw as (bs & Hp & [= <-]).
  apply pack_be_Ok in Hp as [-> Hr]. rewrite write_stream. split; [reflexivity|].
  exact Hr.
Qed.

Lemma write_uint8_stream (b : bytes) (v : Z) (f' : BytesIO) :
  write_uint8 (stream b) v = Ok f' ->
  f' = stream (b ++ be_bytes 1 v) /\ 0 <= v < 2 ^ 8.
Proof.
  unfold write_uint8. intros Hw. apply bind_Ok_inv in Hw as (bs & Hp & [= <-]).
  apply pack_be_Ok in Hp as [-> Hr]. rewrite write_stream. split; [reflexivity|].
  exact Hr.
Qed.

Lemma write_pad32_stream (b : bytes) :
  write_pad32 (stream b) = stream (b ++ replicate (padding (len b)) 0).
Proof. unfold write_pad32. rewrite write_stream. reflexivity. Qed.

(** Takes one [bind] of the hypothesis apart, the writes of integers at the
    end of a stream included. *)
Ltac step_write H :=
  let f := fresh "f" in
  let Hf := fresh "Hf" in
  let Hr := fresh "Hrange" in
  apply bind_Ok_inv in H as (f & Hf & H);
  first [ apply write_uint32_stream in Hf as [-> Hr]
        | apply write_uint16_stream in Hf as [-> Hr]
        | apply write_uint8_stream in Hf as [-> Hr]
        | idtac ].

Lemma length_be_bytes (n : nat) (v : Z) : length (be_bytes n v) = n.
Proof.
  revert v. induction n as [|n IH]; intros v; simpl; [reflexivity|].
  rewrite length_app, IH. simpl. lia.
Qed.

Lemma be_value_snoc (bs : bytes) (b : Z) : be_value (bs ++ [b]) = be_value bs * 256 + b.
Proof. unfold be_value. rewrite fold_left_app. reflexivity. Qed.

Lemma be_value_be_bytes (n : nat) (v : Z) :
  0 <= v < 256 ^ Z.of_nat n -> be_value (be_bytes n v) = v.
Proof.
  revert v. induction n as [|n IH]; intros v Hv.
  - simpl in *. unfold be_value. simpl. lia.
  - simpl be_bytes. rewrite be_value_snoc, IH.
    + pose proof (Z.div_mod v 256). lia.
    + rewrite Nat2Z.inj_succ, Z.pow_succ_r in Hv by lia.
      split; [apply Z.div_pos; lia|apply Z.div_lt_upper_bound; lia].
Qed.

(** ** The order of the file entries *)

Lemma insert_by_constant {A} (key : A -> Z) (c : Z) (x : A) (l : list A) :
  (forall y, key y = c) -> insert_by key x l = l ++ [x].
Proof.
  intros Hkey. induction l as [|y l IH]; simpl; [reflexivity|].
  rewrite !Hkey, Z.ltb_irrefl, IH. reflexivity.
Qed.

(** The sort of [write_arc] leaves the files in the order of the
    directory: its key is a constant and the sort is stable. *)
Lemma sort_by_key_compare (maxindex : Z) (files : list (pystr * File)) :
  sort_by (key_compare maxindex) files = files.
Proof.
  unfold sort_by.
  enough (G : forall acc, fold_left (fun acc x => insert_by (key_compare maxindex) x acc)
                                    files acc = acc ++ files) by apply (G []).
  induction files as [|x files IH]; intros acc; simpl.
  - rewrite app_nil_r. reflexivity.
  - rewrite IH, (insert_by_constant _ (maxindex + 1)) by reflexivity.
    rewrite <- app_assoc. reflexivity.
Qed.

Section File_entries.
Context `{Codec} `{External}.

(** One file: twenty bytes onto the stream, the payload and its padding
    onto the data buffer. *)
Lemma write_file_entry_stream (compression_settings : CompressionSetting)
    (filelisting : option filelisting_t) (stringtable : StringTable)
    (fb db : bytes) (fileid : Z) (filepath : pystr) (file : File)
    (st' : entry_state) :
  write_file_entry compression_settings filelisting stringtable
                   (mkEntryState (stream fb) (stream db) fileid) (filepath, file)
  = Ok st' ->
  exists offset payload,
    let '(id, filemeta) := override_or filelisting filepath fileid in
    get_string_offset stringtable (file_name file) = Ok offset
    /\ payload_ok compression_settings filemeta file payload
    /\ 0 <= id < 2 ^ 16 /\ 0 <= offset < 2 ^ 16
    /\ len db < 2 ^ 32 /\ len payload < 2 ^ 32
    /\ st' = mkEntryState
               (stream (fb ++ file_entry_bytes id (hash_name (file_name file))
                                               (to_flags filemeta) offset
                                               (len db) (len payload)))
               (stream ((db ++ payload)
                          ++ replicate (padding (len (db ++ payload))) 0))
               (id + 1).
Proof.
  unfold write_file_entry. cbn [es_f es_data es_fileid].
  destruct (override_or filelisting filepath fileid) as [id filemeta].
  intros Hw.
  step_write Hw. step_write Hw. step_write Hw. step_write Hw.
  step_write Hw. step_write Hw. step_write Hw.
  rename f into offset. exists offset.
  apply bind_Ok_inv in Hw as (data & Hdata & Hw).
  assert (Hp : exists payload, payload_ok compression_settings filemeta file payload
                               /\ data = stream (db ++ payload)).
  { unfold payload_ok. revert Hdata.
    destruct (is_yaz0 filemeta && is_compressed filemeta);
      [destruct (wszst compression_settings)|]; simpl.
    - destruct module_compression_setting as [cs|]; [|discriminate].
      intros Hdata. apply bind_Ok_inv in Hdata as (payload & Hrun & [= <-]).
      exists payload. rewrite write_stream. eauto.
    - intros [= <-]. rewrite write_stream. eauto.
    - intros [= <-]. rewrite write_stream. eauto. }
  destruct Hp as (payload & Hp & ->). exists payload.
  change (tell (stream (db ++ payload))) with (len (db ++ payload)) in Hw.
  change (tell (stream db)) with (len db) in Hw, Hrange4.
  replace (len (db ++ payload) - len db) with (len payload) in Hw
    by (rewrite len_app; lia).
  step_write Hw. step_write Hw. injection Hw as <-.
  rewrite write_pad32_stream.
  repeat split; try assumption; try lia.
  unfold file_entry_bytes. rewrite <- !app_assoc. reflexivity.
Qed.

Lemma write_subdir_entry_stream (stringtable : StringTable) (fb : bytes)
    (subdirname : pystr) (subdir : option Directory) (f' : BytesIO) :
  write_subdir_entry stringtable (stream fb) (subdirname, subdir) = Ok f' ->
  exists offset child,
    get_string_offset stringtable subdirname = Ok offset
    /\ child = match subdir with
               | None => Some 0xFFFFFFFF
               | Some subdir => _nodeindex subdir
               end
    /\ 0 <= offset < 2 ^ 16 /\ 0 <= default 0 child < 2 ^ 32
    /\ f' = stream (fb ++ dir_entry_bytes (hash_name subdirname) offset (default 0 child)).
Proof.
  unfold write_subdir_entry. intros Hw.
  step_write Hw. step_write Hw. rewrite write_stream in Hw.
  step_write Hw. rename f into offset. step_write Hw.
  apply bind_Ok_inv in Hw as (f1 & Hf1 & Hw).
  assert (Hc : exists child, match subdir with
                             | None => Some 0xFFFFFFFF
                             | Some subdir => _nodeindex subdir
                             end = Some child
                             /\ write_uint32
                                  (stream ((((fb ++ be_bytes 2 65535)
                                               ++ be_bytes 2 (hash_name subdirname))
                                              ++ [2; 0]) ++ be_bytes 2 offset)) child
                                = Ok f1).
  { destruct subdir as [subdir|]; [|eauto].
    destruct (_nodeindex subdir) as [child|]; [eauto|discriminate]. }
  destruct Hc as (child & Hchild & Hwc).
  apply write_uint32_stream in Hwc as [-> Hrc].
  step_write Hw. apply write_uint32_stream in Hw as [-> _].
  exists offset, (Some child). rewrite Hchild. simpl.
  repeat split; try assumption; try lia.
  unfold dir_entry_bytes. rewrite <- !app_assoc. reflexivity.
Qed.

Lemma write_subdir_entries_stream (stringtable : StringTable)
    (l : list (pystr * option Directory)) (fb : bytes) (f' : BytesIO) :
  foldM (write_subdir_entry stringtable) l (stream fb) = Ok f' ->
  exists rest, f' = stream (fb ++ rest) /\ length rest = (20 * length l)%nat.
Proof.
  revert fb. induction l as [|[name sd] l IH]; intros fb Hw; simpl in Hw.
  - injection Hw as <-. exists []. rewrite app_nil_r. split; reflexivity.
  - apply bind_Ok_inv in Hw as (f1 & Hw1 & Hw).
    apply write_subdir_entry_stream in Hw1 as (offset & child & _ & _ & _ & _ & ->).
    apply IH in Hw as (rest & -> & Hlen).
    eexists. rewrite <- app_assoc. split; [reflexivity|].
    rewrite length_app, Hlen. simpl. lia.
Qed.

Lemma file_entry_bytes_fields (id hash flags offset dataoffset datasize : Z) :
  length (file_entry_bytes id hash flags offset dataoffset datasize) = 20%nat
  /\ take 2 (file_entry_bytes id hash flags offset dataoffset datasize) = be_bytes 2 id
  /\ take 2 (drop 6 (file_entry_bytes id hash flags offset dataoffset datasize))
     = be_bytes 2 offset.
Proof. repeat split. Qed.

End File_entries.

(** C3, as stated, fails: with the override ids 5 for [a.bin] and 2 for
    [b.bin] the entry of [a.bin] (id 5) is written before the entry of
    [b.bin] (id 2); the entry table starts at offset 0x60, and the decoder
    reads the two files back in that order. *)
Lemma write_arc_ids_not_ascending :
  exists f self' decoded,
    @write_arc ascii_codec no_tools example_flat_archive CompressionSetting_default
               (Some example_filelisting) 5 = Ok (f, self')
    /\ be_value (read_at (getvalue f) 0x60 2) = 5
    /\ be_value (read_at (getvalue f) (0x60 + 20) 2) = 2
    /\ @from_file ascii_codec no_tools 16 (getvalue f) = Ok (decoded, [])
    /\ map (fun kf => (kf.1, _fileid kf.2)) (files (root decoded))
       = [(py "a.bin", Some 5); (py "b.bin", Some 2)].
Proof.
  eexists. eexists. eexists.
  split; [vm_compute; reflexivity|].
  split; [vm_compute; reflexivity|].
  split; [vm_compute; reflexivity|].
  split; vm_compute; reflexivity.
Qed.

(** C1, as stated, fails: [a.bin] has the id 5 and the flags 0x95 in the
    tree; encoded without override table and decoded, it has the id 0 and
    the flags 0x11. *)
Lemma roundtrip_loses_id_and_flags :
  exists f self' decoded,
    @write_arc_uncompressed ascii_codec no_tools example_archive None 0 = Ok (f, self')
    /\ @from_file ascii_codec no_tools 16 (getvalue f) = Ok (decoded, [])
    /\ map (fun kf => (kf.1, _fileid kf.2, _flags kf.2)) (files (root example_archive))
       = [(py "a.bin", Some 5, Some 0x95)]
    /\ map (fun kf => (kf.1, _fileid kf.2, _flags kf.2)) (files (root decoded))
       = [(py "a.bin", Some 0, Some 0x11)].
Proof.
  eexists. eexists. eexists.
  split; [vm_compute; reflexivity|].
  split; [vm_compute; reflexivity|].
  split; vm_compute; reflexivity.
Qed.

(** ** The round trip: the places of a tree *)

Lemma index_of_lookup {A} `{EqDecision A} (l : list A) (j : nat) (x : A) :
  NoDup l -> l !! j = Some x -> index_of x l = j.
Proof.
  revert j. induction l as [|y l IH]; intros j Hnd Hj; [discriminate|].
  apply NoDup_cons in Hnd as [Hy Hnd]. simpl. destruct j as [|j]; simpl in Hj.
  - injection Hj as ->. rewrite decide_True by reflexivity. reflexivity.
  - rewrite decide_False.
    + f_equal. apply IH; assumption.
    + intros ->. apply Hy. eapply list_elem_of_lookup_2, Hj.
Qed.

Lemma lookup_index_of {A} `{EqDecision A} (l : list A) (x : A) :
  x ∈ l -> l !! index_of x l = Some x.
Proof.
  induction l as [|y l IH]; intros Hx; [inversion Hx|]. simpl.
  case_decide as Hy; [subst; reflexivity|]. simpl. apply IH.
  apply elem_of_cons in Hx as [->|Hx]; [congruence|exact Hx].
Qed.

(** The places below the children, the first child being the [b]-th. *)
Lemma child_locs_cons (b : nat) (l0 : list (list nat)) (ls : list (list (list nat))) :
  concat (imap (fun m l => map (cons (b + m)%nat) l) (l0 :: ls))
  = map (cons b) l0 ++ concat (imap (fun m l => map (cons (S b + m)%nat) l) ls).
Proof.
  simpl. rewrite Nat.add_0_r. f_equal. f_equal.
  unfold compose. apply imap_ext. intros m l _. simpl.
  replace (b + S m)%nat with (S (b + m)) by lia. reflexivity.
Qed.

Lemma elem_of_child_locs (b : nat) (ls : list (list (list nat))) (q : list nat) :
  q ∈ concat (imap (fun m l => map (cons (b + m)%nat) l) ls)
  <-> exists m q' l, q = (b + m)%nat :: q' /\ ls !! m = Some l /\ q' ∈ l.
Proof.
  rewrite list_elem_of_In, in_concat. split.
  - intros (l' & Hl' & Hq). apply list_elem_of_In in Hl', Hq.
    apply elem_of_lookup_imap in Hl' as (m & l & -> & Hm).
    apply list_elem_of_fmap in Hq as (q' & -> & Hq'). eauto 6.
  - intros (m & q' & l & -> & Hm & Hq').
    exists (map (cons (b + m)%nat) l). split; apply list_elem_of_In.
    + apply elem_of_lookup_imap. eauto.
    + apply list_elem_of_fmap. eauto.
Qed.

Lemma NoDup_child_locs (b : nat) (ls : list (list (list nat))) :
  Forall NoDup ls ->
  NoDup (concat (imap (fun m l => map (cons (b + m)%nat) l) ls)).
Proof.
  revert b. induction ls as [|l0 ls IH]; intros b Hnd; [constructor|].
  apply Forall_cons in Hnd as [Hl0 Hnd].
  rewrite child_locs_cons. apply NoDup_app. split; [|split].
  - apply NoDup_fmap; [|exact Hl0]. intros x y [= ->]. reflexivity.
  - intros q Hq Hq'. apply list_elem_of_fmap in Hq as (q0 & -> & _).
    apply elem_of_child_locs in Hq' as (m & q' & l & [= Hb _] & _). lia.
  - apply IH, Hnd.
Qed.

Lemma locs_unfold (name : pystr) (idx : option Z) (fs : list (pystr * File))
    (sds : list (pystr * Directory)) :
  locs (mkDirectory name idx fs sds)
  = [] :: concat (imap (fun m l => map (cons (0 + m)%nat) l)
                       (map (fun kd => locs kd.2) sds)).
Proof. reflexivity. Qed.

Lemma NoDup_locs (d : Directory) : NoDup (locs d).
Proof.
  induction d as [name idx fs sds IH] using Directory_ind'.
  rewrite locs_unfold. apply NoDup_cons. split.
  - intros Hin. apply elem_of_child_locs in Hin as (m & q' & l & Hq & _). discriminate.
  - apply NoDup_child_locs. apply Forall_fmap. exact IH.
Qed.

(** The places of [locs] are those where the tree has a directory. *)
Lemma elem_of_locs (d : Directory) (p : list nat) :
  p ∈ locs d <-> is_Some (dir_at d p).
Proof.
  revert p. induction d as [name idx fs sds IH] using Directory_ind'.
  intros p. rewrite locs_unfold, elem_of_cons, elem_of_child_locs.
  destruct p as [|m q]; simpl.
  - split; [eauto|]. intros _. left. reflexivity.
  - rewrite Forall_lookup in IH. split.
    + intros [Hp|(m' & q' & l & [= -> ->] & Hm & Hq')]; [discriminate|].
      rewrite list_lookup_fmap in Hm.
      destruct (sds !! m') as [[k sd]|] eqn:E; [|discriminate].
      injection Hm as <-. simpl. eapply (IH _ _ E), Hq'.
    + intros Hq. right. destruct (sds !! m) as [[k sd]|] eqn:E; [|destruct Hq; discriminate].
      exists m, q, (locs sd). split; [reflexivity|]. split.
      * rewrite list_lookup_fmap, E. reflexivity.
      * eapply (IH _ _ E), Hq.
Qed.

Lemma locs_head (d : Directory) : exists l, locs d = [] :: l.
Proof. destruct d. eexists. reflexivity. Qed.

Lemma dir_at_app (d : Directory) (p q : list nat) :
  dir_at d (p ++ q) = dir_at d p ≫= fun d' => dir_at d' q.
Proof.
  revert d. induction p as [|m p IH]; intros d; simpl; [reflexivity|].
  destruct (subdirs d !! m) as [[k sd]|]; [apply IH|reflexivity].
Qed.

(** A place is shorter than the walk is long: the bound on the nesting. *)
Lemma locs_length_bound (d : Directory) (p : list nat) :
  p ∈ locs d -> (length p < length (locs d))%nat.
Proof.
  revert p. induction d as [name idx fs sds IH] using Directory_ind'.
  intros p. rewrite locs_unfold. intros Hp.
  apply elem_of_cons in Hp as [->|Hp]; [simpl; lia|].
  apply elem_of_child_locs in Hp as (m & q & l & -> & Hm & Hq).
  rewrite list_lookup_fmap in Hm.
  destruct (sds !! m) as [[k sd]|] eqn:E; [|discriminate]. injection Hm as <-.
  rewrite Forall_lookup in IH. pose proof (IH _ _ E q Hq) as Hlt. cbn [length snd] in *.
  enough (length (locs sd) <= length (concat (imap (fun m l => map (cons (0 + m)%nat) l)
                                                   (map (fun kd => locs kd.2) sds))))%nat by lia.
  clear -E. generalize 0%nat as b. revert m E.
  induction sds as [|[k' sd'] sds IHs]; intros m E b; [discriminate|].
  simpl map. rewrite child_locs_cons, length_app, length_map.
  destruct m as [|m]; simpl in E.
  - injection E as _ <-. lia.
  - specialize (IHs _ E (S b)). lia.
Qed.

(** ** The walk, place by place *)

Lemma prefixed_assoc (P : option pystr) (name a : pystr) :
  prefixed P (name ++ py "/" ++ a) = prefixed (Some (prefixed P name)) a.
Proof. destruct P as [P|]; simpl; rewrite <- ?app_assoc; reflexivity. Qed.

Lemma walk_item_at_child (P : option pystr) (d sd : Directory) (k : pystr)
    (b : nat) (q : list nat) :
  subdirs d !! b = Some (k, sd) ->
  walk_item_at P d (b :: q) = walk_item_at (Some (prefixed P (dir_name d))) sd q.
Proof.
  intros E. unfold walk_item_at. cbn [dir_at absolute_path]. rewrite E.
  destruct (dir_at sd q) as [dq|]; [|reflexivity].
  destruct (absolute_path sd q) as [a|]; [|reflexivity].
  cbn [mbind option_bind fmap option_fmap option_map].
  rewrite prefixed_assoc. reflexivity.
Qed.

Lemma walk_locs (d : Directory) (P : option pystr) :
  Some <$> walk d P = walk_item_at P d <$> locs d.
Proof.
  revert P. induction d as [name idx fs sds IH] using Directory_ind'. intros P.
  rewrite locs_unfold. cbn [walk fmap list_fmap].
  f_equal.
  change (match P with Some _path => _path ++ py "/" ++ name | None => name end)
    with (prefixed P name).
  set (d := mkDirectory name idx fs sds).
  enough (G : forall done rest b, sds = done ++ rest -> b = length done ->
              Forall (fun kd => forall P, Some <$> walk kd.2 P
                                          = walk_item_at P kd.2 <$> locs kd.2) rest ->
              Some <$> flat_map (fun kd => walk kd.2 (Some (prefixed P name))) rest
              = walk_item_at P d <$>
                  concat (imap (fun m l => map (cons (b + m)%nat) l)
                               (map (fun kd => locs kd.2) rest))).
  { apply (G [] sds O); [reflexivity|reflexivity|exact IH]. }
  clear IH. intros done rest. revert done.
  induction rest as [|[k sd] rest IHr]; intros done b Hs Hb HF; [reflexivity|].
  apply Forall_cons in HF as [Hsd HF].
  cbn [flat_map map]. rewrite child_locs_cons, !fmap_app. f_equal.
  - cbn [snd] in Hsd. rewrite Hsd, <- list_fmap_compose.
    apply list_fmap_ext. intros i q _. cbn [compose].
    symmetry. apply (walk_item_at_child P d sd k).
    subst b. unfold d. cbn [subdirs]. rewrite Hs.
    rewrite lookup_app_r, Nat.sub_diag by lia. reflexivity.
  - apply (IHr (done ++ [(k, sd)])).
    + rewrite <- app_assoc. exact Hs.
    + rewrite length_app. simpl. lia.
    + exact HF.
Qed.

(** ** Lookup by path finds the directory of the place *)

Lemma absolute_path_cons (d : Directory) (m : nat) (q : list nat) :
  absolute_path d (m :: q)
  = match subdirs d !! m with
    | Some (_, sd) => (fun name => dir_name d ++ py "/" ++ name) <$> absolute_path sd q
    | None => None
    end.
Proof. reflexivity. Qed.

Lemma split_path_segment (name rest : pystr) :
  single_segment name = true -> rest <> [] ->
  split_path (name ++ py "/" ++ rest) = (name, Some rest).
Proof.
  intros Hs Hr. induction name as [|c name IH]; simpl.
  - destruct rest; [congruence|]. reflexivity.
  - simpl in Hs. apply andb_prop in Hs as [Hc Hs].
    apply negb_true_iff, bool_decide_eq_false in Hc.
    rewrite decide_False by exact Hc.
    simpl in IH. rewrite (IH Hs). reflexivity.
Qed.

Lemma Directory_getitem_unfold (name : pystr) (idx : option Z)
    (fs : list (pystr * File)) (sds : list (pystr * Directory)) (path : pystr) :
  Directory_getitem (mkDirectory name idx fs sds) path
  = let '(n, rest) := split_path path in
    if no_rest rest then
      match dict_index n sds with
      | Some i => Ok (DirRef [i])
      | None =>
          match dict_index n fs with
          | Some k => Ok (FileRef [] k)
          | None => Raise FileNotFoundError
          end
      end
    else if dict_in n fs then Raise RuntimeError_file_in_path
    else
      match dict_index n sds with
      | None => Raise KeyError
      | Some j =>
          match sds !! j with
          | Some (_, sd) => r ← Directory_getitem sd (default [] rest); Ok (ref_under j r)
          | None => Raise KeyError
          end
      end.
Proof.
  cbn [Directory_getitem]. destruct (split_path path) as [n rest].
  destruct (no_rest rest); [reflexivity|].
  destruct (dict_in n fs); [reflexivity|].
  change (ref_under) with (fun j => ref_under (0 + j)) at 2.
  generalize O as b.
  induction sds as [|[k sd] sds IH]; intros b; [reflexivity|].
  cbn [dict_index]. case_decide as Hk.
  - cbn [lookup list_lookup]. rewrite Nat.add_0_r. reflexivity.
  - rewrite IH. destruct (dict_index n sds) as [j|]; [|reflexivity].
    cbn [fmap option_fmap option_map lookup list_lookup].
    destruct (sds !! j) as [[k' sd']|]; [|reflexivity].
    replace (S b + j)%nat with (b + S j)%nat by lia. reflexivity.
Qed.

Lemma dict_index_lookup {A} (l : list (pystr * A)) (m : nat) (k : pystr) (v : A) :
  NoDup (keys l) -> l !! m = Some (k, v) -> dict_index k l = Some m.
Proof.
  revert m. induction l as [|[k' v'] l IH]; intros m Hnd Hm; [discriminate|].
  unfold keys in Hnd. rewrite fmap_cons in Hnd. apply NoDup_cons in Hnd as [Hk Hnd].
  simpl. destruct m as [|m]; simpl in Hm.
  - injection Hm as -> ->. rewrite decide_True by reflexivity. reflexivity.
  - rewrite decide_False.
    + rewrite (IH m Hnd Hm). reflexivity.
    + intros ->. apply Hk. apply list_elem_of_fmap.
      exists (k, v). split; [reflexivity|]. eapply list_elem_of_lookup_2, Hm.
Qed.

Section Well_formed.
Context `{Codec}.

Lemma wf_node_spec (d : Directory) :
  wf_node d = true ->
  Forall (fun kf => wf_file kf = true) (files d) /\ NoDup (keys (files d))
  /\ Forall (fun kd => wf_subdir kd = true) (subdirs d) /\ NoDup (keys (subdirs d)).
Proof.
  unfold wf_node. rewrite !andb_true_iff, !bool_decide_eq_true.
  rewrite !forallb_forall, !Forall_forall.
  setoid_rewrite list_elem_of_In. tauto.
Qed.

Lemma wf_dir_spec (d : Directory) :
  wf_dir d = true ->
  wf_node d = true /\ Forall (fun kd => wf_dir kd.2 = true) (subdirs d).
Proof.
  destruct d as [name idx fs sds]. cbn [wf_dir subdirs].
  rewrite andb_true_iff, forallb_forall, Forall_forall.
  setoid_rewrite list_elem_of_In. tauto.
Qed.

Lemma wf_dir_at (p : list nat) (root d : Directory) :
  wf_dir root = true -> dir_at root p = Some d -> wf_dir d = true.
Proof.
  revert root. induction p as [|m p IH]; intros root Hwf Hd; simpl in Hd.
  - congruence.
  - destruct (subdirs root !! m) as [[k sd]|] eqn:E; [|discriminate].
    apply wf_dir_spec in Hwf as [_ Hsds]. rewrite Forall_lookup in Hsds.
    eapply IH; [|exact Hd]. apply (Hsds _ _ E).
Qed.

Lemma wf_subdir_spec (kd : pystr * Directory) :
  wf_subdir kd = true ->
  kd.1 = dir_name kd.2 /\ wf_name kd.1 = true /\ entry_name kd.1 = true
  /\ single_segment kd.1 = true /\ forallb isspace kd.1 = false.
Proof.
  unfold wf_subdir. rewrite !andb_true_iff, bool_decide_eq_true, negb_true_iff. tauto.
Qed.

Lemma wf_file_spec (kf : pystr * File) :
  wf_file kf = true ->
  kf.1 = file_name kf.2 /\ wf_name kf.1 = true /\ entry_name kf.1 = true.
Proof.
  unfold wf_file. rewrite !andb_true_iff, bool_decide_eq_true. tauto.
Qed.

Lemma entry_name_spec (s : pystr) :
  entry_name s = true -> s <> py "." /\ s <> py ".." /\ s <> py "".
Proof. unfold entry_name. rewrite bool_decide_eq_true. tauto. Qed.

(** The path of a directory below a subdirectory starts with the name of
    the subdirectory: it is not empty and not blank. *)
Lemma absolute_path_not_blank (d : Directory) (q : list nat) (a : pystr) :
  dir_name d <> [] -> forallb isspace (dir_name d) = false ->
  absolute_path d q = Some a -> a <> [] /\ forallb isspace a = false.
Proof.
  intros Hne Hb Ha. destruct q as [|m q]; [simpl in Ha|rewrite absolute_path_cons in Ha].
  - injection Ha as <-. auto.
  - destruct (subdirs d !! m) as [[k sd]|]; [|discriminate].
    destruct (absolute_path sd q) as [a'|]; [|discriminate].
    change (Some (dir_name d ++ py "/" ++ a') = Some a) in Ha.
    apply (inj Some) in Ha. subst a. split.
    + intros E. apply app_eq_nil in E as [E _]. auto.
    + rewrite forallb_app, Hb. reflexivity.
Qed.

(** A lookup by the path of a place below [d] returns that place, when it
    returns. *)
Lemma Directory_getitem_place (q : list nat) (d sd : Directory) (k a : pystr)
    (m : nat) (r : objref) :
  wf_dir d = true ->
  subdirs d !! m = Some (k, sd) -> absolute_path sd q = Some a ->
  Directory_getitem d a = Ok r -> r = DirRef (m :: q).
Proof.
  revert d sd k a m r. induction q as [|m2 q IH]; intros d sd k a m r Hwf Hm Ha Hg.
  - simpl in Ha. injection Ha as <-.
    destruct (wf_dir_spec _ Hwf) as [Hn Hsds].
    destruct (wf_node_spec _ Hn) as (_ & _ & Hsub & Hnd).
    rewrite Forall_lookup in Hsub.
    destruct (wf_subdir_spec _ (Hsub _ _ Hm)) as (Hk & _ & _ & Hseg & _).
    cbn [fst snd] in Hk, Hseg. subst k.
    destruct d as [name idx fs sds]. rewrite Directory_getitem_unfold in Hg.
    rewrite (split_path_single _ Hseg) in Hg. cbn [no_rest] in Hg.
    cbn [subdirs] in *. rewrite (dict_index_lookup _ _ _ _ Hnd Hm) in Hg.
    congruence.
  - rewrite absolute_path_cons in Ha.
    destruct (subdirs sd !! m2) as [[k2 sd2]|] eqn:Hm2; [|discriminate].
    destruct (absolute_path sd2 q) as [a2|] eqn:Ha2; [|discriminate].
    change (Some (dir_name sd ++ py "/" ++ a2) = Some a) in Ha. apply (inj Some) in Ha. subst a.
    destruct (wf_dir_spec _ Hwf) as [Hn Hsds].
    destruct (wf_node_spec _ Hn) as (_ & _ & Hsub & Hnd).
    rewrite Forall_lookup in Hsub, Hsds.
    destruct (wf_subdir_spec _ (Hsub _ _ Hm)) as (Hk & _ & _ & Hseg & _).
    cbn [fst snd] in Hk, Hseg. subst k.
    pose proof (Hsds _ _ Hm) as Hwfsd. cbn [snd] in Hwfsd.
    destruct (wf_dir_spec _ Hwfsd) as [Hn2 _].
    destruct (wf_node_spec _ Hn2) as (_ & _ & Hsub2 & _).
    rewrite Forall_lookup in Hsub2.
    destruct (wf_subdir_spec _ (Hsub2 _ _ Hm2)) as (Hk2 & _ & He2 & _ & Hb2).
    cbn [fst snd] in Hk2, He2, Hb2. subst k2.
    apply entry_name_spec in He2 as (_ & _ & Hne2).
    destruct (absolute_path_not_blank sd2 q a2 Hne2 Hb2 Ha2) as [Hane Hab].
    destruct d as [name idx fs sds]. rewrite Directory_getitem_unfold in Hg.
    rewrite (split_path_segment _ _ Hseg Hane) in Hg.
    cbn [no_rest] in Hg. rewrite Hab in Hg.
    destruct (dict_in (dir_name sd) fs); [discriminate|].
    cbn [subdirs] in *. rewrite (dict_index_lookup _ _ _ _ Hnd Hm), Hm in Hg.
    apply bind_Ok_inv in Hg as (r' & Hg & [= <-]). cbn [default] in Hg.
    rewrite (IH sd sd2 (dir_name sd2) a2 m2 r' Hwfsd Hm2 Ha2 Hg). reflexivity.
Qed.

Lemma Archive_getitem_place (T : Directory) (p : list nat) (a : pystr) (r : objref) :
  wf_dir T = true -> single_segment (dir_name T) = true ->
  absolute_path T p = Some a ->
  Archive_getitem (mkArchive T) a = Ok r -> r = DirRef p.
Proof.
  intros Hwf Hseg Ha Hg. unfold Archive_getitem in Hg. cbn [root] in Hg.
  destruct p as [|m q]; [simpl in Ha|rewrite absolute_path_cons in Ha].
  - injection Ha as <-. rewrite (split_path_single _ Hseg) in Hg.
    cbn [no_rest] in Hg. rewrite decide_False in Hg by (intros E; apply E; reflexivity).
    congruence.
  - destruct (subdirs T !! m) as [[k sd]|] eqn:Hm; [|discriminate].
    destruct (absolute_path sd q) as [a'|] eqn:Ha'; [|discriminate].
    change (Some (dir_name T ++ py "/" ++ a') = Some a) in Ha.
    apply (inj Some) in Ha. subst a.
    destruct (wf_dir_spec _ Hwf) as [Hn Hsds].
    destruct (wf_node_spec _ Hn) as (_ & _ & Hsub & _).
    rewrite Forall_lookup in Hsub.
    destruct (wf_subdir_spec _ (Hsub _ _ Hm)) as (Hk & _ & He & _ & Hb).
    cbn [fst snd] in Hk, He, Hb. subst k.
    apply entry_name_spec in He as (_ & _ & Hne).
    destruct (absolute_path_not_blank sd q a' Hne Hb Ha') as [Hane Hab].
    rewrite (split_path_segment _ _ Hseg Hane) in Hg.
    cbn [no_rest default] in Hg. rewrite Hab in Hg.
    eapply Directory_getitem_place; eassumption.
Qed.

End Well_formed.

(** ** The node indices the node loop leaves in the tree *)

Lemma nodeindex_set_nodeindex (p q : list nat) (d : Directory) (i : Z) :
  _nodeindex <$> dir_at (set_nodeindex d p i) q
  = if decide (p = q) then (fun _ => Some i) <$> dir_at d q
    else _nodeindex <$> dir_at d q.
Proof.
  revert q d. induction p as [|a p IH]; intros [|m q] [name idx fs sds];
    cbn [set_nodeindex dir_at subdirs _nodeindex]; try reflexivity.
  destruct (decide (a = m)) as [->|Ham].
  - destruct (sds !! m) as [[k sd]|] eqn:E.
    + rewrite list_lookup_insert_eq by (eapply lookup_lt_Some, E).
      rewrite IH. repeat case_decide; congruence.
    + rewrite E. repeat case_decide; reflexivity.
  - rewrite decide_False by congruence.
    destruct (sds !! a) as [[k sd]|] eqn:E; [|reflexivity].
    rewrite list_lookup_insert_ne by exact Ham. reflexivity.
Qed.

Lemma is_Some_dir_at_erase (d1 d2 : Directory) (p : list nat) :
  erase_nodeindex d1 = erase_nodeindex d2 ->
  is_Some (dir_at d1 p) -> is_Some (dir_at d2 p).
Proof.
  intros He Hs. rewrite <- (fmap_is_Some erase_nodeindex), <- dir_at_erase, <- He,
    dir_at_erase, fmap_is_Some. exact Hs.
Qed.

Lemma nodeindex_assign_other (as_ : list (objref * Z)) (X : Directory) (q : list nat) :
  Forall (fun a => a.1 <> DirRef q) as_ ->
  _nodeindex <$> dir_at (assign_all as_ X) q = _nodeindex <$> dir_at X q.
Proof.
  revert X. induction as_ as [|[r i] as_ IH]; intros X Hne; [reflexivity|].
  apply Forall_cons in Hne as [Hr Hne]. cbn [fst] in Hr.
  change (assign_all ((r, i) :: as_) X) with (assign_all as_ (set_ref_nodeindex X r i)).
  rewrite IH by exact Hne. destruct r as [p|p k]; [|reflexivity].
  cbn [set_ref_nodeindex]. rewrite nodeindex_set_nodeindex.
  rewrite decide_False by congruence. reflexivity.
Qed.

(** After the assignments at the places [L], from [b] on, the directory at
    the [j]-th place has the node index [b + j]. *)
Lemma nodeindex_assign_all (L : list (list nat)) (b : Z) (X : Directory)
    (j : nat) (p : list nat) :
  NoDup L -> L !! j = Some p -> is_Some (dir_at X p) ->
  _nodeindex <$> dir_at (assign_all (zip (DirRef <$> L) (seqZ b (len L))) X) p
  = Some (Some (b + Z.of_nat j)).
Proof.
  revert b X j. induction L as [|p0 L IH]; intros b X j Hnd Hj Hp; [discriminate|].
  apply NoDup_cons in Hnd as [Hp0 Hnd].
  replace (len (p0 :: L)) with (Z.succ (len L)) by (unfold len; simpl; lia).
  rewrite seqZ_cons by (unfold len; lia). rewrite Z.pred_succ.
  cbn [fmap list_fmap zip zip_with].
  change (assign_all ((DirRef p0, b) :: ?l) X)
    with (assign_all l (set_nodeindex X p0 b)).
  destruct j as [|j]; simpl in Hj.
  - injection Hj as ->. rewrite nodeindex_assign_other.
    + rewrite nodeindex_set_nodeindex, decide_True by reflexivity.
      destruct Hp as [d ->]. rewrite Z.add_0_r. reflexivity.
    + apply Forall_forall. intros [r i] Hin. cbn [fst]. intros ->.
      apply elem_of_zip_l in Hin. apply list_elem_of_fmap in Hin as (p' & [= <-] & Hin).
      contradiction.
  - rewrite (IH (Z.succ b) _ j Hnd Hj).
    + f_equal. f_equal. lia.
    + eapply is_Some_dir_at_erase; [|exact Hp]. symmetry. apply erase_set_nodeindex.
Qed.

(** ** Sums along a list *)

Lemma lookup_concat_prefix {A} (ls : list (list A)) (j k : nat) (l : list A) :
  ls !! j = Some l -> (k < length l)%nat ->
  concat ls !! (length (concat (take j ls)) + k)%nat = l !! k.
Proof.
  revert j. induction ls as [|l0 ls IH]; intros j Hj Hk; [discriminate|].
  destruct j as [|j]; simpl in *.
  - injection Hj as ->. rewrite lookup_app_l by lia. reflexivity.
  - rewrite length_app, <- Nat.add_assoc, lookup_app_r by lia.
    rewrite <- (IH j Hj Hk). f_equal. lia.
Qed.

Lemma read_at_concat (chunks : list bytes) (n e : nat) (c : bytes) :
  Forall (fun c => length c = n) chunks -> chunks !! e = Some c ->
  read_at (concat chunks) (Z.of_nat (e * n)) (Z.of_nat n) = c.
Proof.
  revert e. induction chunks as [|c0 chunks IH]; intros e Hlen He; [discriminate|].
  apply Forall_cons in Hlen as [Hc0 Hlen]. destruct e as [|e]; simpl in He.
  - injection He as ->. simpl. apply read_at_0_app. unfold len. lia.
  - cbn [concat]. replace (Z.of_nat (S e * n)) with (len c0 + Z.of_nat (e * n))
      by (unfold len; lia).
    rewrite read_at_app_r by lia. apply IH; assumption.
Qed.

(** ** Names read back from the string table *)

Lemma read_at_cons (buf : bytes) (pos n : Z) (b : Z) (rest : bytes) :
  0 <= pos -> read_at buf pos n = b :: rest ->
  read_at buf pos 1 = [b] /\ read_at buf (pos + 1) (n - 1) = rest.
Proof.
  unfold read_at. intros Hpos Hr.
  destruct (Z.to_nat n) as [|n'] eqn:En; [rewrite take_0 in Hr; discriminate|].
  replace (Z.to_nat (pos + 1)) with (S (Z.to_nat pos)) by lia.
  replace (Z.to_nat (n - 1)) with n' by lia.
  destruct (drop (Z.to_nat pos) buf) as [|x l] eqn:Ed; [discriminate|].
  simpl in Hr. injection Hr as -> <-.
  change (Z.to_nat 1) with 1%nat. split; [reflexivity|].
  replace (S (Z.to_nat pos)) with (Z.to_nat pos + 1)%nat by lia.
  rewrite <- drop_drop, Ed. reflexivity.
Qed.

Lemma count_until_nul_found (bs : bytes) (fuel : nat) (buf : bytes) (pos stringlen : Z) :
  0 <= pos -> 0 ∉ bs -> (length bs < fuel)%nat ->
  read_at buf pos (len bs + 1) = bs ++ [0] ->
  count_until_nul fuel buf pos stringlen = Ok (stringlen + len bs).
Proof.
  revert fuel pos stringlen. induction bs as [|b bs IH]; intros fuel pos n Hpos H0 Hf Hr.
  - destruct fuel as [|fuel]; [simpl in Hf; lia|]. simpl.
    change (len (@nil Z) + 1) with 1 in Hr. rewrite Hr.
    rewrite decide_True by reflexivity. f_equal. unfold len. simpl. lia.
  - destruct fuel as [|fuel]; [simpl in Hf; lia|].
    apply not_elem_of_cons in H0 as [Hb H0].
    apply read_at_cons in Hr as [Hr1 Hr]; [|exact Hpos]. cbn [count_until_nul].
    rewrite Hr1. rewrite decide_False by congruence.
    change (len [b]) with 1. rewrite (IH fuel (pos + 1) (n + 1)).
    + f_equal. unfold len. simpl. lia.
    + lia.
    + exact H0.
    + simpl in Hf. lia.
    + etransitivity; [|exact Hr]. f_equal. unfold len. simpl. lia.
Qed.

Lemma read_at_prefix (buf : bytes) (pos n : Z) (a b : bytes) :
  read_at buf pos n = a ++ b -> read_at buf pos (len a) = a.
Proof.
  unfold read_at. intros Hr.
  assert (Hl : (length a <= Z.to_nat n)%nat).
  { apply (f_equal length) in Hr. rewrite length_take, length_app in Hr. lia. }
  replace (Z.to_nat (len a)) with (length a `min` Z.to_nat n)%nat by (unfold len; lia).
  rewrite <- take_take, Hr. apply take_app_length.
Qed.

Section Names.
Context `{Codec}.

Lemma wf_name_spec (s : pystr) :
  wf_name s = true ->
  exists bs, sjis_encode s = Some bs /\ (0 ∉ bs) /\ sjis_decode bs = Some s.
Proof.
  unfold wf_name. destruct (sjis_encode s) as [bs|]; [|discriminate].
  rewrite bool_decide_eq_true. eauto.
Qed.

(** The name at a recorded offset is read back from a buffer that holds
    the blob of the table at [stringtable_offset]. *)
Lemma stringtable_get_name_interned (stt : StringTable) (s : pystr) (offset : Z)
    (fuel : nat) (A C : bytes) :
  StringTable_inv stt -> wf_name s = true ->
  get_string_offset stt s = Ok offset ->
  (length (getvalue (_strings stt)) <= fuel)%nat ->
  stringtable_get_name fuel (A ++ getvalue (_strings stt) ++ C) (len A) offset = Ok s.
Proof.
  intros [_ Hmap] Hwf Hoff Hfuel.
  unfold get_string_offset, getitem in Hoff.
  destruct (_stringmap stt !! s) as [o|] eqn:E; [|discriminate]. injection Hoff as ->.
  destruct (Hmap _ _ E) as (H0 & bs & Hbs & Hread).
  destruct (wf_name_spec _ Hwf) as (bs' & Hbs' & Hnul & Hdec).
  assert (bs' = bs) by congruence. subst bs'.
  assert (Hin : (Z.to_nat offset + Z.to_nat (len bs + 1) <= length (getvalue (_strings stt)))%nat).
  { apply read_at_inside in Hread as [Hin|Hneg].
    - exact Hin.
    - pose proof (len_nonneg bs). lia.
    - rewrite length_app. simpl. unfold len. lia. }
  assert (HB : read_at (A ++ getvalue (_strings stt) ++ C) (len A + offset) (len bs + 1)
               = bs ++ [0]).
  { rewrite read_at_app_r by exact H0. rewrite read_at_app_l by exact Hin. exact Hread. }
  unfold stringtable_get_name.
  rewrite (count_until_nul_found bs) by
    (try exact Hnul; try exact HB; pose proof (len_nonneg A); unfold len in *; lia).
  cbn [mbind result_bind]. rewrite Z.add_0_l.
  rewrite (read_at_prefix _ _ _ _ _ HB), Hdec. reflexivity.
Qed.

Lemma intern_walkitem_reachable (st st' : StringTable * Z) (item : walkitem) :
  StringTable_reachable st.1 -> intern_walkitem st item = Ok st' ->
  StringTable_reachable st'.1.
Proof.
  destruct st as [stt n], item as [[dir subdirnames] filenames]. cbn [fst].
  intros Hr Hi. unfold intern_walkitem in Hi.
  apply bind_Ok_inv in Hi as (stt1 & H1 & Hi).
  apply bind_Ok_inv in Hi as (stt2 & H2 & [= <-]). cbn [fst].
  eapply write_strings_reachable; [|exact H2].
  eapply write_strings_reachable; [|exact H1]. exact Hr.
Qed.

Lemma intern_walkitems_reachable (items : list walkitem) (st st' : StringTable * Z) :
  StringTable_reachable st.1 -> foldM intern_walkitem items st = Ok st' ->
  StringTable_reachable st'.1.
Proof.
  revert st. induction items as [|item items IH]; intros st Hr Hf; simpl in Hf.
  - injection Hf as <-. exact Hr.
  - apply bind_Ok_inv in Hf as (st1 & H1 & Hf).
    eapply IH; [|exact Hf]. eapply intern_walkitem_reachable; eassumption.
Qed.

End Names.

(** ** The node loop *)

Lemma nodetype_of_length `{Codec} (name : pystr) (nodetype : bytes) :
  nodetype_of name = Ok nodetype -> length nodetype = 4%nat.
Proof.
  unfold nodetype_of. destruct (sjis_encode (str_upper name)) as [bs|]; [|discriminate].
  intros [= <-]. unfold len.
  destruct (Z.ltb_spec (Z.of_nat (length (take 4 bs))) 4) as [Hlt|Hge].
  - rewrite length_app, length_replicate. lia.
  - pose proof (length_take_le bs 4). rewrite length_take in *. lia.
Qed.

Lemma walk_item_at_Some (P : option pystr) (T : Directory) (p : list nat)
    (item : walkitem) :
  walk_item_at P T p = Some item ->
  exists d a, dir_at T p = Some d /\ absolute_path T p = Some a
    /\ item = (prefixed P a, keys (subdirs d), keys (files d)).
Proof.
  unfold walk_item_at. destruct (dir_at T p) as [d|]; [|discriminate].
  destruct (absolute_path T p) as [a|]; [|discriminate].
  intros [= <-]. eauto.
Qed.

Lemma len_keys {A} (l : list (pystr * A)) : len (keys l) = len l.
Proof. unfold len, keys. rewrite length_fmap. reflexivity. Qed.

Section Node_loop.
Context `{Codec} (stringtable : StringTable) (T : Directory).
Hypothesis wf_T : wf_dir T = true.
Hypothesis root_segment : single_segment (dir_name T) = true.

Lemma write_node_place (b : Z) (item : walkitem) (p : list nat) (fb : bytes)
    (first : Z) (X : Directory) (dl : list objref) (st' : node_state) :
  walk_item_at None T p = Some item ->
  erase_nodeindex X = erase_nodeindex T ->
  write_node stringtable (mkNodeState (stream fb) first X dl) (b, item) = Ok st' ->
  exists rec,
    st' = mkNodeState (stream (fb ++ rec)) (first + entries_at T p)
                      (set_nodeindex X p b) (dl ++ [DirRef p])
    /\ node_record_ok stringtable T rec (p, first).
Proof.
  intros Hitem HX Hw.
  apply walk_item_at_Some in Hitem as (d & a & Hd & Ha & ->). cbn [prefixed] in Hw.
  unfold write_node in Hw. cbn [ns_root ns_f ns_dirlist ns_first_file_entry_index] in Hw.
  apply bind_Ok_inv in Hw as (dir & Hdir & Hw).
  rewrite (by_erase (fun d => Archive_getitem (mkArchive d) a) X T) in Hdir
    by (exact HX || intros; apply Archive_getitem_erase).
  apply (Archive_getitem_place T p a dir wf_T root_segment Ha) in Hdir. subst dir.
  cbn [set_ref_nodeindex] in Hw.
  rewrite (by_erase (fun d => ref_name d (DirRef p)) (set_nodeindex X p b) T) in Hw
    by (intros; apply ref_name_erase || rewrite erase_set_nodeindex; exact HX).
  cbn [ref_name] in Hw. rewrite Hd in Hw. cbn [fmap option_fmap option_map] in Hw.
  apply bind_Ok_inv in Hw as (nodetype & Hnt & Hw).
  assert (Hlen : length nodetype = 4%nat).
  { case_decide; [injection Hnt as <-; reflexivity|eapply nodetype_of_length, Hnt]. }
  rewrite write_stream in Hw.
  step_write Hw. rename f into offset. step_write Hw. step_write Hw. step_write Hw.
  step_write Hw. injection Hw as <-.
  rewrite !len_keys in *.
  eexists. split.
  - unfold entries_at. rewrite Hd. cbn [from_option]. unfold entry_count.
    rewrite <- !app_assoc. reflexivity.
  - exists nodetype, d, offset. cbn [fst snd]. unfold entry_count.
    split_and!; try assumption; try lia; reflexivity.
Qed.

Lemma write_nodes_places (L : list (list nat)) (items : list walkitem) (b : Z)
    (fb : bytes) (first : Z) (X : Directory) (dl : list objref) (st' : node_state) :
  Some <$> items = walk_item_at None T <$> L ->
  erase_nodeindex X = erase_nodeindex T ->
  foldM (write_node stringtable) (zip (seqZ b (len items)) items)
        (mkNodeState (stream fb) first X dl) = Ok st' ->
  exists recs,
    st' = mkNodeState (stream (fb ++ concat recs))
                      (first + sumZ (map (entries_at T) L))
                      (assign_all (zip (DirRef <$> L) (seqZ b (len L))) X)
                      (dl ++ (DirRef <$> L))
    /\ Forall2 (node_record_ok stringtable T) recs
               (zip L (sums_from first (map (entries_at T) L))).
Proof.
  revert items b fb first X dl.
  induction L as [|p L IH]; intros [|item items] b fb first X dl Hitems HX Hw;
    try discriminate.
  - simpl in Hw. injection Hw as <-. exists []. simpl.
    rewrite !app_nil_r, Z.add_0_r. split; [reflexivity|constructor].
  - rewrite !fmap_cons in Hitems. injection Hitems as Hitem Hitems.
    replace (len (item :: items)) with (Z.succ (len items)) in Hw
      by (unfold len; simpl; lia).
    rewrite seqZ_cons, Z.pred_succ in Hw by (unfold len; lia).
    cbn [zip zip_with foldM] in Hw.
    apply bind_Ok_inv in Hw as (st1 & Hw1 & Hw).
    apply (write_node_place b item p) in Hw1 as (rec & -> & Hrec);
      [|symmetry; exact Hitem|exact HX].
    apply IH in Hw as (recs & -> & Hrecs);
      [|exact Hitems|rewrite erase_set_nodeindex; exact HX].
    exists (rec :: recs). split.
    + replace (len (p :: L)) with (Z.succ (len L)) by (unfold len; simpl; lia).
      rewrite (seqZ_cons b), Z.pred_succ by (unfold len; lia).
      cbn [concat map sumZ foldr fmap list_fmap zip zip_with].
      change (assign_all ((DirRef p, b) :: ?l) X)
        with (assign_all l (set_nodeindex X p b)).
      rewrite <- !app_assoc. cbn [app]. f_equal. unfold sumZ. lia.
    + cbn [map sums_from zip zip_with]. constructor; assumption.
Qed.

End Node_loop.

(** ** The entries loop *)

Lemma read_at_stable (data ext c : bytes) (pos : Z) :
  read_at data pos (len c) = c -> read_at (data ++ ext) pos (len c) = c.
Proof.
  intros Hr. destruct (read_at_inside data c pos (len c) Hr) as [Hin|Hle].
  - unfold len. rewrite Nat2Z.id. reflexivity.
  - rewrite read_at_app_l by exact Hin. exact Hr.
  - unfold len in *. destruct c; [|simpl in Hle; lia]. reflexivity.
Qed.

Lemma file_entry_ok_app (stringtable : StringTable) (data ext e : bytes) (x : File * Z) :
  file_entry_ok stringtable data e x -> file_entry_ok stringtable (data ++ ext) e x.
Proof.
  intros (offset & dataoffset & Ho & Hid & Hoff & Hdo & Hsz & Hr & He).
  exists offset, dataoffset. do 5 (split; [assumption|]).
  split; [apply read_at_stable, Hr|exact He].
Qed.

Lemma dir_chunk_ok_app (stringtable : StringTable) (X : Directory) (data ext : bytes)
    (chunk : list bytes) (x : list nat * Z) :
  dir_chunk_ok stringtable X data chunk x ->
  dir_chunk_ok stringtable X (data ++ ext) chunk x.
Proof.
  intros (d & fe & dot & dotdot & se & c1 & c2 & Hd & Hc & Hfe & Hdot & Hdd & Hse).
  exists d, fe, dot, dotdot, se, c1, c2. do 2 (split; [assumption|]).
  split; [|auto].
  eapply Forall2_impl; [exact Hfe|]. intros e y. apply file_entry_ok_app.
Qed.

Lemma snd_paths_of_files (abspath : pystr) (l : list (pystr * File)) :
  (map (fun '(filename, file) => (abspath ++ py "/" ++ filename, file)) l).*2 = l.*2.
Proof.
  induction l as [|[k f] l IH]; [reflexivity|].
  cbn [map fmap list_fmap snd]. f_equal. exact IH.
Qed.

Lemma len_cons {A} (x : A) (l : list A) : len (x :: l) = Z.succ (len l).
Proof. unfold len. simpl. lia. Qed.

Section Entries_loop.
Context `{Codec} `{External}.
Variable compression_settings : CompressionSetting.
Variable filelisting : option filelisting_t.
Variable stringtable : StringTable.
Hypothesis no_override : forall filepath fileid,
  override_or filelisting filepath fileid = (fileid, FileListing_default).

Lemma write_file_entries_ok (l : list (pystr * File)) (fb db : bytes) (c : Z)
    (st' : entry_state) :
  foldM (write_file_entry compression_settings filelisting stringtable) l
        (mkEntryState (stream fb) (stream db) c) = Ok st' ->
  exists fe ext,
    st' = mkEntryState (stream (fb ++ concat fe)) (stream (db ++ ext)) (c + len l)
    /\ length fe = length l
    /\ Forall2 (file_entry_ok stringtable (db ++ ext)) fe (zip l.*2 (seqZ c (len l))).
Proof.
  revert fb db c st'. induction l as [|[filepath file] l IH]; intros fb db c st' Hw.
  - simpl in Hw. injection Hw as <-. exists [], []. simpl.
    rewrite !app_nil_r, Z.add_0_r. split_and!; [reflexivity..|constructor].
  - cbn [foldM] in Hw. apply bind_Ok_inv in Hw as (st1 & Hw1 & Hw).
    apply write_file_entry_stream in Hw1 as (offset & payload & Hw1).
    rewrite no_override in Hw1.
    destruct Hw1 as (Ho & Hp & Hid & Hoff & Hdb & Hsz & ->).
    unfold payload_ok in Hp. cbn in Hp. subst payload.
    apply IH in Hw as (fe & ext & -> & Hlen & Hfe).
    exists (file_entry_bytes c (hash_name (file_name file)) 0x11 offset (len db)
                             (len (file_getvalue file)) :: fe),
      ((file_getvalue file
          ++ replicate (padding (len (db ++ file_getvalue file))) 0) ++ ext).
    split; [|split].
    + rewrite len_cons. cbn [concat]. rewrite <- !app_assoc.
      f_equal. lia.
    + simpl. rewrite Hlen. reflexivity.
    + rewrite len_cons, seqZ_cons, Z.pred_succ by (pose proof (len_nonneg l); lia).
      cbn [fmap list_fmap zip zip_with snd]. constructor.
      * rewrite <- !app_assoc.
        exists offset, (len db). cbn [fst snd]. pose proof (len_nonneg db).
        do 5 (split; [assumption || lia|]). split; [|reflexivity].
        rewrite <- (Z.add_0_r (len db)), read_at_app_r by lia.
        apply read_at_0_app. reflexivity.
      * replace (Z.succ c) with (c + 1) by lia. revert Hfe.
        rewrite <- !app_assoc. exact id.
Qed.

Lemma write_subdir_entries_ok (l : list (pystr * option Directory)) (fb : bytes)
    (f' : BytesIO) :
  foldM (write_subdir_entry stringtable) l (stream fb) = Ok f' ->
  exists se,
    f' = stream (fb ++ concat se)
    /\ Forall2 (fun e x => exists child,
                  match x.2 with
                  | None => Some 0xFFFFFFFF
                  | Some subdir => _nodeindex subdir
                  end = Some child
                  /\ dir_entry_ok stringtable e x.1 child) se l.
Proof.
  revert fb f'. induction l as [|[subdirname subdir] l IH]; intros fb f' Hw.
  - simpl in Hw. injection Hw as <-. exists []. simpl. rewrite app_nil_r.
    split; [reflexivity|constructor].
  - cbn [foldM] in Hw. apply bind_Ok_inv in Hw as (f1 & Hw1 & Hw).
    unfold write_subdir_entry in Hw1.
    step_write Hw1. step_write Hw1. rewrite write_stream in Hw1.
    step_write Hw1. rename f into offset. step_write Hw1.
    apply bind_Ok_inv in Hw1 as (f2 & Hc & Hw1).
    assert (exists child,
               match subdir with
               | None => Some 0xFFFFFFFF
               | Some subdir => _nodeindex subdir
               end = Some child
               /\ f2 = stream ((((fb ++ be_bytes 2 0xFFFF) ++ be_bytes 2 (hash_name subdirname))
                                  ++ [0x02; 0x00]) ++ be_bytes 2 offset ++ be_bytes 4 child)
               /\ 0 <= child < 2 ^ 32) as (child & Hchild & -> & Hchildrange).
    { destruct subdir as [subdir|].
      - destruct (_nodeindex subdir) as [child|]; [|discriminate].
        apply write_uint32_stream in Hc as [-> Hr]. exists child.
        rewrite <- !app_assoc. auto.
      - apply write_uint32_stream in Hc as [-> Hr]. exists 0xFFFFFFFF.
        rewrite <- !app_assoc. auto. }
    step_write Hw1. apply write_uint32_stream in Hw1 as [-> _].
    apply IH in Hw as (se & -> & Hse).
    exists (dir_entry_bytes (hash_name subdirname) offset child :: se). split.
    + cbn [concat]. unfold dir_entry_bytes. rewrite <- !app_assoc. reflexivity.
    + constructor; [|exact Hse]. exists child. split; [exact Hchild|].
      exists offset. auto.
Qed.

Lemma write_dir_entries_ok (maxindex : Z) (X : Directory) (p : list nat)
    (fb db : bytes) (c : Z) (st' : entry_state) :
  write_dir_entries compression_settings filelisting maxindex stringtable X
                    (mkEntryState (stream fb) (stream db) c) (DirRef p) = Ok st' ->
  exists chunk ext,
    st' = mkEntryState (stream (fb ++ concat chunk)) (stream (db ++ ext))
                       (c + files_at X p)
    /\ dir_chunk_ok stringtable X (db ++ ext) chunk (p, c)
    /\ len chunk = entries_at X p.
Proof.
  unfold write_dir_entries. intros Hw.
  destruct (dir_at X p) as [d|] eqn:Hd; [|discriminate].
  destruct (absolute_path X p) as [abspath|]; [|discriminate].
  rewrite sort_by_key_compare in Hw.
  apply bind_Ok_inv in Hw as (st1 & Hfiles & Hw).
  apply write_file_entries_ok in Hfiles as (fe & ext & -> & Hlen & Hfe).
  rewrite snd_paths_of_files in Hfe.
  cbn [es_f es_data es_fileid] in Hw.
  apply bind_Ok_inv in Hw as (f1 & Hsub & [= <-]).
  apply write_subdir_entries_ok in Hsub as (se & -> & Hse).
  cbn [app] in Hse.
  apply Forall2_cons_inv_r in Hse as (dot & se1 & (c1 & _ & Hdot) & Hse & ->).
  apply Forall2_cons_inv_r in Hse as (dotdot & se2 & (c2 & _ & Hdotdot) & Hse & ->).
  cbn [fst snd] in *.
  assert (Hlf : len (map (fun '(filename, file) => (abspath ++ py "/" ++ filename, file))
                         (files d)) = len (files d)).
  { unfold len. rewrite length_map. reflexivity. }
  rewrite Hlf in *.
  exists (fe ++ [dot; dotdot] ++ se2), ext. split_and!.
  - unfold files_at. rewrite Hd. cbn [from_option].
    rewrite concat_app, <- !app_assoc. f_equal.
    unfold len. rewrite length_map. reflexivity.
  - exists d, fe, dot, dotdot, se2, c1, c2. cbn [fst snd].
    split_and!; try assumption; try reflexivity.
    apply Forall2_fmap_r in Hse.
    eapply Forall2_impl; [exact Hse|]. intros e [k sd]. cbn. auto.
  - unfold entries_at, entry_count. rewrite Hd. cbn [from_option].
    apply Forall2_length in Hse. rewrite length_map in Hse, Hlen.
    unfold len. rewrite !length_app. cbn [length]. lia.
Qed.

Lemma write_dirs_entries_ok (maxindex : Z) (X : Directory) (Ls : list (list nat))
    (fb db : bytes) (c : Z) (st' : entry_state) :
  foldM (write_dir_entries compression_settings filelisting maxindex stringtable X)
        (DirRef <$> Ls) (mkEntryState (stream fb) (stream db) c) = Ok st' ->
  exists chunks ext,
    st' = mkEntryState (stream (fb ++ concat (concat chunks))) (stream (db ++ ext))
                       (c + sumZ (map (files_at X) Ls))
    /\ Forall2 (dir_chunk_ok stringtable X (db ++ ext)) chunks
               (zip Ls (sums_from c (map (files_at X) Ls)))
    /\ Forall2 (fun chunk p => len chunk = entries_at X p) chunks Ls.
Proof.
  revert fb db c st'. induction Ls as [|p Ls IH]; intros fb db c st' Hw.
  - simpl in Hw. injection Hw as <-. exists [], []. simpl.
    rewrite !app_nil_r, Z.add_0_r. split_and!; [reflexivity|constructor..].
  - rewrite fmap_cons in Hw. cbn [foldM] in Hw.
    apply bind_Ok_inv in Hw as (st1 & Hw1 & Hw).
    apply write_dir_entries_ok in Hw1 as (chunk & ext1 & -> & Hchunk & Hlen).
    apply IH in Hw as (chunks & ext & -> & Hchunks & Hlens).
    exists (chunk :: chunks), (ext1 ++ ext). split_and!.
    + cbn [concat map sumZ foldr]. rewrite concat_app, <- !app_assoc.
      f_equal. unfold sumZ. lia.
    + cbn [map sums_from zip zip_with]. constructor.
      * rewrite app_assoc. apply dir_chunk_ok_app, Hchunk.
      * revert Hchunks. rewrite <- !app_assoc. exact id.
    + constructor; assumption.
Qed.

End Entries_loop.

(** ** From the chunks of the directories to the table of the entries *)

Lemma sums_from_lookup (ws : list Z) (acc : Z) (j : nat) :
  (j < length ws)%nat -> sums_from acc ws !! j = Some (acc + sumZ (take j ws)).
Proof.
  revert acc j. induction ws as [|w ws IH]; intros acc [|j] Hj; simpl in *; try lia.
  - f_equal. unfold sumZ. simpl. lia.
  - rewrite IH by lia. f_equal. unfold sumZ. simpl. lia.
Qed.

Lemma len_concat_take {A B} (chunks : list (list A)) (Ls : list B) (g : B -> Z) (j : nat) :
  Forall2 (fun chunk p => len chunk = g p) chunks Ls ->
  len (concat (take j chunks)) = sumZ (map g (take j Ls)).
Proof.
  intros HF. revert j.
  induction HF as [|chunk p chunks Ls Hc HF IH]; intros [|j]; try reflexivity.
  cbn [take concat map]. rewrite len_app, IH, Hc. reflexivity.
Qed.

Lemma files_at_erase (X T : Directory) (p : list nat) :
  erase_nodeindex X = erase_nodeindex T -> files_at X p = files_at T p.
Proof.
  intros HX. apply (by_erase (fun d => files_at d p)); [|exact HX].
  intros d. unfold files_at. rewrite dir_at_erase.
  destruct (dir_at d p); [|reflexivity]. cbn [fmap option_fmap option_map from_option].
  rewrite erase_files. reflexivity.
Qed.

Lemma entries_at_erase (X T : Directory) (p : list nat) :
  erase_nodeindex X = erase_nodeindex T -> entries_at X p = entries_at T p.
Proof.
  intros HX. apply (by_erase (fun d => entries_at d p)); [|exact HX].
  intros d. unfold entries_at, entry_count. rewrite dir_at_erase.
  destruct (dir_at d p); [|reflexivity]. cbn [fmap option_fmap option_map from_option].
  rewrite erase_files, erase_subdirs. unfold len. rewrite length_map. reflexivity.
Qed.

Lemma dir_at_erased (X T d : Directory) (p : list nat) :
  erase_nodeindex X = erase_nodeindex T -> dir_at T p = Some d ->
  exists dX, dir_at X p = Some dX /\ erase_nodeindex dX = erase_nodeindex d.
Proof.
  intros HX Hd. pose proof (dir_at_erase p X) as HdX.
  rewrite HX, dir_at_erase, Hd in HdX.
  destruct (dir_at X p) as [dX|]; [|discriminate].
  exists dX. split; [reflexivity|]. injection HdX as HdX. symmetry. exact HdX.
Qed.

Lemma erased_fields (dX d : Directory) :
  erase_nodeindex dX = erase_nodeindex d ->
  dir_name dX = dir_name d /\ files dX = files d
  /\ length (subdirs dX) = length (subdirs d)
  /\ forall m kd, subdirs d !! m = Some kd ->
       exists kdX, subdirs dX !! m = Some kdX /\ kdX.1 = kd.1.
Proof.
  intros He. split_and!.
  - rewrite <- (erase_dir_name dX), He. apply erase_dir_name.
  - rewrite <- (erase_files dX), He. apply erase_files.
  - pose proof (erase_subdirs dX) as HsX. rewrite He, erase_subdirs in HsX.
    apply (f_equal length) in HsX. rewrite !length_map in HsX. symmetry. exact HsX.
  - intros m kd Hm. pose proof (erase_subdirs dX) as HsX.
    rewrite He, erase_subdirs in HsX.
    apply (f_equal (fun l => l !! m)) in HsX.
    change (map ?g ?l) with (g <$> l) in HsX.
    rewrite !list_lookup_fmap, Hm in HsX.
    destruct (subdirs dX !! m) as [kdX|]; [|discriminate].
    exists kdX. split; [reflexivity|]. injection HsX as Hk _. symmetry. exact Hk.
Qed.

Lemma file_entry_ok_length (stringtable : StringTable) (data e : bytes) (x : File * Z) :
  file_entry_ok stringtable data e x -> length e = 20%nat.
Proof.
  intros (offset & dataoffset & _ & _ & _ & _ & _ & _ & ->).
  apply file_entry_bytes_fields.
Qed.

Lemma dir_entry_ok_length (stringtable : StringTable) (e : bytes) (name : pystr)
    (child : Z) :
  dir_entry_ok stringtable e name child -> length e = 20%nat.
Proof.
  intros (offset & _ & _ & _ & ->). unfold dir_entry_bytes.
  rewrite !length_app, !length_be_bytes. reflexivity.
Qed.

Lemma dir_chunk_ok_lengths (stringtable : StringTable) (X : Directory) (data : bytes)
    (chunk : list bytes) (x : list nat * Z) :
  dir_chunk_ok stringtable X data chunk x -> Forall (fun e => length e = 20%nat) chunk.
Proof.
  intros (d & fe & dot & dotdot & se & c1 & c2 & Hd & -> & Hfe & Hdot & Hdd & Hse).
  apply Forall_app. split; [|apply Forall_cons; split; [|apply Forall_cons; split]].
  - eapply Forall2_Forall_l; [exact Hfe|]. apply Forall_forall.
    intros y _ e. apply file_entry_ok_length.
  - eapply dir_entry_ok_length, Hdot.
  - eapply dir_entry_ok_length, Hdd.
  - eapply Forall2_Forall_l; [exact Hse|]. apply Forall_forall.
    intros y _ e (child & _ & He). eapply dir_entry_ok_length, He.
Qed.

Lemma lookup_zip_pair {A B} (l : list A) (k : list B) (i : nat) (x : A) (y : B) :
  l !! i = Some x -> k !! i = Some y -> zip l k !! i = Some (x, y).
Proof. intros Hl Hk. apply lookup_zip_with_Some. eauto. Qed.

(** The table of the entries: the chunks of the directories, one after the
    other. *)
Lemma chunks_table_ok (stringtable : StringTable) (T X : Directory) (data : bytes)
    (chunks : list (list bytes)) :
  erase_nodeindex X = erase_nodeindex T ->
  (forall j q, locs T !! j = Some q ->
               _nodeindex <$> dir_at X q = Some (Some (Z.of_nat j))) ->
  Forall2 (dir_chunk_ok stringtable X data) chunks
          (zip (locs T) (sums_from 0 (map (files_at X) (locs T)))) ->
  Forall2 (fun chunk p => len chunk = entries_at X p) chunks (locs T) ->
  table_ok stringtable T data (concat chunks).
Proof.
  intros HX Hidx Hchunks Hlens.
  replace (map (files_at X) (locs T)) with (map (files_at T) (locs T)) in Hchunks
    by (apply map_ext; intros q; symmetry; apply files_at_erase, HX).
  assert (Hlens' : Forall2 (fun chunk p => len chunk = entries_at T p) chunks (locs T)).
  { eapply Forall2_impl; [exact Hlens|]. intros chunk q ->. apply entries_at_erase, HX. }
  clear Hlens. split.
  { apply Forall_concat. eapply Forall2_Forall_l; [exact Hchunks|].
    apply Forall_forall. intros y _ chunk. apply dir_chunk_ok_lengths. }
  intros j p d Hj Hd first nf.
  assert (Hjlt : (j < length (locs T))%nat) by (eapply lookup_lt_Some, Hj).
  assert (Hc : zip (locs T) (sums_from 0 (map (files_at T) (locs T))) !! j
               = Some (p, files_before T j)).
  { apply lookup_zip_pair; [exact Hj|].
    rewrite sums_from_lookup by (rewrite length_map; exact Hjlt).
    unfold files_before. rewrite firstn_map. reflexivity. }
  destruct (Forall2_lookup_r _ _ _ _ _ Hchunks Hc) as (chunk & Hchunk & Hok).
  destruct Hok as (dX & fe & dot & dotdot & se & c1 & c2 & HdX & -> & Hfe & Hdot & Hdd & Hse).
  cbn [fst snd] in *.
  destruct (dir_at_erased X T d p HX Hd) as (dX' & HdX' & He).
  rewrite HdX in HdX'. injection HdX' as <-.
  apply erased_fields in He as (Hname & Hfiles & Hnsub & Hsub).
  rewrite Hfiles in Hfe.
  assert (Hfirst : first = length (concat (take j chunks))).
  { unfold first, first_at.
    rewrite <- (len_concat_take chunks (locs T) (entries_at T) j Hlens').
    unfold len. apply Nat2Z.id. }
  assert (Hnfe : length fe = nf).
  { apply Forall2_length in Hfe. rewrite Hfe, length_zip_with, length_fmap, length_seqZ.
    unfold nf, len. lia. }
  assert (Hat : forall k, (k < length (fe ++ [dot; dotdot] ++ se))%nat ->
                 concat chunks !! (first + k)%nat = (fe ++ [dot; dotdot] ++ se) !! k).
  { intros k Hk. rewrite Hfirst. apply lookup_concat_prefix; assumption. }
  apply Forall2_length in Hse as Hnse.
  split_and!.
  - intros k kf Hk.
    assert (Hklt : (k < nf)%nat) by (eapply lookup_lt_Some, Hk).
    assert (Hz : zip (files d).*2 (seqZ (files_before T j) (len (files d))) !! k
                 = Some (kf.2, files_before T j + Z.of_nat k)).
    { apply lookup_zip_pair; [rewrite list_lookup_fmap, Hk; reflexivity|].
      apply lookup_seqZ. unfold nf, len. lia. }
    destruct (Forall2_lookup_r _ _ _ _ _ Hfe Hz) as (e & He & Hok).
    exists e. split; [|exact Hok].
    rewrite Hat by (rewrite length_app; lia).
    rewrite lookup_app_l by lia. exact He.
  - exists dot, c1. split; [|exact Hdot].
    rewrite Hat by (rewrite length_app; cbn [length app]; lia).
    apply list_lookup_middle. lia.
  - exists dotdot, c2. split; [|exact Hdd].
    replace (first + nf + 1)%nat with (first + (nf + 1))%nat by lia.
    rewrite Hat by (rewrite length_app; cbn [length app]; lia).
    cbn [app]. rewrite (cons_middle dot fe), app_assoc.
    apply list_lookup_middle. rewrite length_app. cbn [length]. lia.
  - intros m kd Hm.
    assert (Hmlt : (m < length (subdirs d))%nat) by (eapply lookup_lt_Some, Hm).
    destruct (Hsub m kd Hm) as (kdX & HmX & Hk).
    destruct (Forall2_lookup_r _ _ _ _ _ Hse HmX) as (e & He & child & Hchild & Hok).
    exists e. split.
    + replace (first + nf + 2 + m)%nat with (first + (nf + 2 + m))%nat by lia.
      rewrite Hat by (rewrite !length_app; cbn [length]; lia).
      rewrite lookup_app_r by lia. rewrite lookup_app_r by (cbn [length]; lia).
      replace (nf + 2 + m - length fe - length [dot; dotdot])%nat with m
        by (cbn [length]; lia).
      exact He.
    + rewrite <- Hk.
      assert (HX' : dir_at X (p ++ [m]) = Some kdX.2).
      { rewrite dir_at_app, HdX. cbn. rewrite HmX. destruct kdX. reflexivity. }
      assert (HT' : is_Some (dir_at T (p ++ [m]))).
      { rewrite dir_at_app, Hd. cbn. rewrite Hm. destruct kd. eexists. reflexivity. }
      apply elem_of_locs in HT'.
      apply list_elem_of_lookup_1 in HT' as (j' & Hj').
      rewrite (index_of_lookup _ _ _ (NoDup_locs T) Hj').
      specialize (Hidx j' _ Hj'). rewrite HX' in Hidx. cbn in Hidx.
      replace (Z.of_nat j') with child by congruence. exact Hok.
Qed.

(** ** The header and its fields *)

(** The writes at the positions 4, 12 and 40 of the header, after the rest
    of the file has been written: they replace the placeholders and leave
    the rest of the buffer as it is. *)
Lemma header_overwrite (h rest s1 s2 s3 s4 s5 s6 s7 s8 : bytes) :
  length h = 64%nat ->
  length s1 = 4%nat -> length s2 = 4%nat -> length s3 = 4%nat -> length s4 = 4%nat ->
  length s5 = 4%nat -> length s6 = 4%nat -> length s7 = 4%nat -> length s8 = 4%nat ->
  let f := write (seek (stream (h ++ rest)) 4) s1 in
  let f := write (write (write (seek f 12) s2) s3) s4 in
  let f := write (write (write (write (seek f 40) s5) s6) s7) s8 in
  exists hdr,
    getvalue f = hdr ++ rest /\ length hdr = 64%nat
    /\ read_at hdr 0 4 = take 4 h /\ read_at hdr 4 4 = s1 /\ read_at hdr 8 4 = take 4 (drop 8 h)
    /\ read_at hdr 12 4 = s2 /\ read_at hdr 16 4 = s3 /\ read_at hdr 20 4 = s4
    /\ read_at hdr 32 4 = take 4 (drop 32 h) /\ read_at hdr 40 4 = s5
    /\ read_at hdr 44 4 = s6 /\ read_at hdr 48 4 = s7 /\ read_at hdr 52 4 = s8.
Proof.
  intros Hh H1 H2 H3 H4 H5 H6 H7 H8.
  remember h as h0 eqn:Eh. rewrite Eh in Hh.
  do 64 (destruct h as [|? h]; [discriminate Hh|]). destruct h; [|discriminate Hh].
  clear Hh.
  cbv zeta.
  exists (take 4 h0 ++ s1 ++ take 4 (drop 8 h0) ++ s2 ++ s3 ++ s4 ++ take 16 (drop 24 h0)
            ++ s5 ++ s6 ++ s7 ++ s8 ++ drop 56 h0).
  subst h0.
  repeat match goal with
         | Hs : length ?s = 4%nat |- _ =>
             destruct s as [|? [|? [|? [|? [|]]]]]; try discriminate Hs; clear Hs
         end.
  split_and!; reflexivity.
Qed.

Lemma write_header_stream (nodecount : Z) (f : BytesIO) :
  write_header BytesIO_new nodecount = Ok f ->
  exists h, f = stream h /\ length h = 64%nat /\ take 4 h = RARC_magic
    /\ take 4 (drop 32 h) = be_bytes 4 nodecount /\ 0 <= nodecount < 2 ^ 32.
Proof.
  unfold write_header. change BytesIO_new with (stream []).
  rewrite !write_stream. intros Hw.
  step_write Hw. rewrite !write_stream in Hw.
  step_write Hw. step_write Hw. rewrite !write_stream in Hw.
  step_write Hw. rewrite !write_stream in Hw.
  step_write Hw. rewrite !write_stream in Hw. injection Hw as <-.
  eexists. split; [reflexivity|].
  split_and!; try reflexivity; lia.
Qed.

(** The node count of the first loop is the number of directories. *)
Lemma intern_walkitems_count `{Codec} (items : list walkitem) (st st' : StringTable * Z) :
  foldM intern_walkitem items st = Ok st' ->
  st'.2 = st.2 + sumZ (map (fun item : walkitem => len item.1.2) items).
Proof.
  revert st st'. induction items as [|[[dir subdirnames] filenames] items IH];
    intros [stt n] st' Hw.
  - simpl in Hw. injection Hw as <-. unfold sumZ. simpl. lia.
  - cbn [foldM] in Hw. apply bind_Ok_inv in Hw as (st1 & Hw1 & Hw).
    unfold intern_walkitem in Hw1.
    apply bind_Ok_inv in Hw1 as (stt1 & _ & Hw1).
    apply bind_Ok_inv in Hw1 as (stt2 & _ & [= <-]).
    apply IH in Hw. rewrite Hw. cbn [fst snd map]. unfold sumZ. simpl. lia.
Qed.

Lemma walk_count (d : Directory) (path : option pystr) :
  sumZ (map (fun item : walkitem => len item.1.2) (walk d path)) + 1 = len (walk d path).
Proof.
  revert path. induction d as [name idx fs sds IH] using Directory_ind'. intros path.
  cbn [walk]. set (dirpath := match path with None => name | Some p => p ++ py "/" ++ name end).
  cbn [map fst snd]. rewrite len_cons, len_keys.
  change (sumZ (?a :: ?l)) with (a + sumZ l).
  enough (G : sumZ (map (fun item : walkitem => len item.1.2)
                        (flat_map (fun kd => walk kd.2 (Some dirpath)) sds)) + len sds
              = len (flat_map (fun kd => walk kd.2 (Some dirpath)) sds)) by lia.
  induction IH as [|kd sds Hkd _ IHsds]; [reflexivity|].
  cbn [flat_map]. rewrite map_app, len_app, len_cons.
  specialize (Hkd (Some dirpath)).
  assert (Happ : forall a b, sumZ (a ++ b) = sumZ a + sumZ b).
  { intros a b. induction a as [|x a IHa]; [reflexivity|].
    cbn [app]. change (sumZ (?a :: ?l)) with (a + sumZ l). lia. }
  rewrite Happ. lia.
Qed.

Lemma tell_stream (b : bytes) : tell (stream b) = len b.
Proof. reflexivity. Qed.

Lemma getvalue_stream (b : bytes) : getvalue (stream b) = b.
Proof. reflexivity. Qed.

Lemma Ok_inj {A} (a b : A) : Ok a = Ok b -> a = b.
Proof. intros [= ->]. reflexivity. Qed.

(** Takes apart a [write_uint32] at any position of a stream. *)
Ltac step_pack H :=
  let f := fresh "f" in
  let bs := fresh "bs" in
  let Hf := fresh "Hf" in
  let Hp := fresh "Hp" in
  let Hr := fresh "Hfield" in
  apply bind_Ok_inv in H as (f & Hf & H);
  unfold write_uint32 in Hf;
  apply bind_Ok_inv in Hf as (bs & Hp & Hf);
  apply pack_be_Ok in Hp as [-> Hr];
  apply Ok_inj in Hf; subst f.

Section Layout.
Context `{Codec} `{External}.

(** The buffer [write_arc] makes of a well-formed tree when the override
    table has no entry: the header, the node records, the entries, the names and the
    data, each section padded, and the fields of the header that place
    them. *)
Lemma write_arc_layout (self self' : Archive) (compression_settings : CompressionSetting)
    (filelisting : option filelisting_t) (f : BytesIO) :
  (forall filepath fileid,
      override_or filelisting filepath fileid = (fileid, FileListing_default)) ->
  wf_archive self = true ->
  write_arc self compression_settings filelisting 0 = Ok (f, self') ->
  exists (stt : StringTable) (hdr : bytes) (recs : list bytes) (pad1 : bytes)
         (entries : list bytes) (pad2 pad3 data : bytes),
    let T := root self in
    let A1 := hdr ++ concat recs ++ pad1 in
    let A2 := A1 ++ concat entries ++ pad2 in
    let A3 := A2 ++ getvalue (_strings stt) ++ pad3 in
    getvalue f = A3 ++ data
    /\ StringTable_reachable stt
    /\ length hdr = 64%nat
    /\ read_at hdr 0 4 = RARC_magic
    /\ read_at hdr 4 4 = be_bytes 4 (len (A3 ++ data))
    /\ read_at hdr 12 4 = be_bytes 4 (len A3 - 0x20)
    /\ read_at hdr 32 4 = be_bytes 4 (len (locs T))
    /\ read_at hdr 44 4 = be_bytes 4 (len A1 - 0x20)
    /\ read_at hdr 52 4 = be_bytes 4 (len A2 - 0x20)
    /\ len (A3 ++ data) < 2 ^ 32
    /\ len A2 mod 0x20 = 0
    /\ Forall2 (node_record_ok stt T) recs
               (zip (locs T) (sums_from 0 (map (entries_at T) (locs T))))
    /\ table_ok stt T data entries
    /\ self' = mkArchive (assign_all (zip (DirRef <$> locs T) (seqZ 0 (len (locs T)))) T).
Proof.
  intros Hno Hwf Hw.
  assert (Hwf' := Hwf). unfold wf_archive in Hwf'. rewrite !andb_true_iff in Hwf'.
  destruct Hwf' as ((((Hdot & Hdd) & Hrn) & Hseg) & HwfT).
  unfold write_arc in Hw.
  apply bind_Ok_inv in Hw as (st1 & Hs1 & Hw).
  apply bind_Ok_inv in Hw as (st2 & Hs2 & Hw).
  apply bind_Ok_inv in Hw as (st3 & Hs3 & Hw).
  apply bind_Ok_inv in Hw as ([stt nodecount] & Hintern & Hw).
  assert (Hreach : StringTable_reachable stt).
  { apply (intern_walkitems_reachable (walk (root self) None) (st3, 1) (stt, nodecount));
      [|exact Hintern].
    cbn [fst]. eapply reachable_write; [|exact Hs3].
    eapply reachable_write; [|exact Hs2]. eapply reachable_write; [|exact Hs1].
    constructor. }
  apply intern_walkitems_count in Hintern as Hcount. cbn [fst snd] in Hcount.
  assert (Hnc : nodecount = len (locs (root self))).
  { pose proof (walk_count (root self) None) as Hwc.
    pose proof (walk_locs (root self) None) as Hwl.
    apply (f_equal length) in Hwl. rewrite !length_fmap in Hwl. unfold len in *. lia. }
  apply bind_Ok_inv in Hw as (f0 & Hhdr & Hw).
  apply write_header_stream in Hhdr as (h & -> & Hhlen & Hmagic & Hncb & Hncr).
  apply bind_Ok_inv in Hw as (stn & Hnodes & Hw).
  apply (write_nodes_places stt (root self) HwfT Hseg (locs (root self)))
    in Hnodes as (recs & -> & Hrecs); [|apply walk_locs|reflexivity].
  cbn [ns_f ns_first_file_entry_index ns_root ns_dirlist] in Hw.
  change ([] ++ (DirRef <$> locs (root self))) with (DirRef <$> locs (root self)) in Hw.
  rewrite write_pad32_stream in Hw.
  change BytesIO_new with (stream []) in Hw.
  apply bind_Ok_inv in Hw as (ste & Hents & Hw).
  apply (write_dirs_entries_ok _ _ _ Hno) in Hents as (chunks & ext & -> & Hchunks & Hlens).
  cbn [es_f es_data app] in Hw, Hchunks.
  set (X := assign_all (zip (DirRef <$> locs (root self))
                            (seqZ 0 (len (locs (root self))))) (root self)) in *.
  rewrite write_pad32_stream in Hw.
  match type of Hw with
  | context [if negb ?c then _ else _] => destruct c eqn:Hassert
  end; [|discriminate Hw].
  cbn [negb] in Hw. unfold write_to in Hw.
  rewrite !write_stream, !write_pad32_stream, !write_stream, ?getvalue_stream,
    ?tell_stream in Hw.
  set (pad1 := replicate (padding (len (h ++ concat recs))) 0) in *.
  set (cc := concat (concat chunks)) in *.
  set (pad2 := replicate (padding (len (((h ++ concat recs) ++ pad1) ++ cc))) 0) in *.
  set (blob := getvalue (_strings stt)) in *.
  set (pad3 := replicate (padding (len (((((h ++ concat recs) ++ pad1) ++ cc) ++ pad2)
                                          ++ blob))) 0) in *.
  set (B := ((((((h ++ concat recs) ++ pad1) ++ cc) ++ pad2) ++ blob) ++ pad3) ++ ext) in *.
  step_pack Hw. step_pack Hw. step_pack Hw. step_pack Hw.
  step_pack Hw. step_pack Hw. step_pack Hw. step_pack Hw.
  apply Ok_inj in Hw. apply pair_equal_spec in Hw as [<- <-].
  assert (HB : B = h ++ concat recs ++ pad1 ++ cc ++ pad2 ++ blob ++ pad3 ++ ext).
  { unfold B. rewrite <- !app_assoc. reflexivity. }
  match goal with
  | |- context [write (write (write (write (seek (write (write (write (seek
                   (write (seek (stream B) 4) ?s1) 12) ?s2) ?s3) ?s4) 40) ?s5) ?s6) ?s7) ?s8] =>
      destruct (header_overwrite h (concat recs ++ pad1 ++ cc ++ pad2 ++ blob ++ pad3 ++ ext)
                  s1 s2 s3 s4 s5 s6 s7 s8 Hhlen
                  (length_be_bytes 4 _) (length_be_bytes 4 _) (length_be_bytes 4 _)
                  (length_be_bytes 4 _) (length_be_bytes 4 _) (length_be_bytes 4 _)
                  (length_be_bytes 4 _) (length_be_bytes 4 _))
        as (hdr & Hget & Hlen & Hm & Hsize & _ & Hdo & _ & _ & Hnodes & _ & Hfeo & _ & Hsto)
  end.
  cbv zeta in Hget. rewrite <- HB in Hget.
  assert (Hlenh : forall x, len (hdr ++ x) = len (h ++ x)).
  { intros x. unfold len. rewrite !length_app, Hlen, Hhlen. reflexivity. }
  exists stt, hdr, recs, pad1, (concat chunks), pad2, pad3, ext. cbv zeta. fold cc.
  rewrite Hget, Hm, Hsize, Hdo, Hnodes, Hfeo, Hsto, Hmagic, Hncb, <- Hnc.
  rewrite <- !app_assoc, !Hlenh.
  unfold B in *. revert Hfield Hfield0 Hfield3 Hfield4 Hfield6 Hassert.
  rewrite <- !app_assoc. intros Hfield Hfield0 Hfield3 Hfield4 Hfield6 Hassert.
  apply Z.eqb_eq in Hassert. rewrite tell_stream in Hassert.
  change (256 ^ Z.of_nat 4) with (2 ^ 32) in *. fold blob.
  split_and!; try reflexivity; try assumption; try lia.
  - apply chunks_table_ok with (X := X); try assumption.
    + apply erase_assign_all.
    + intros j q Hj. unfold X.
      rewrite (nodeindex_assign_all _ 0 _ j q (NoDup_locs _) Hj).
      * rewrite Z.add_0_l. reflexivity.
      * apply elem_of_locs. eapply list_elem_of_lookup_2, Hj.
  - rewrite Hnc. reflexivity.
Qed.

End Layout.

(** ** The decoder on the output of the encoder *)

Lemma unpack_from_app (n : nat) (fmt : list nat) (a rest : bytes) :
  length a = n -> unpack_from (n :: fmt) (a ++ rest) = be_value a :: unpack_from fmt rest.
Proof.
  intros Ha. cbn [unpack_from].
  rewrite take_app_length', drop_app_length' by (symmetry; exact Ha). reflexivity.
Qed.

Lemma unpack_file_entry_bytes (fileid hash flags nameoffset dataoffset datasize : Z) :
  0 <= fileid < 2 ^ 16 -> 0 <= hash < 2 ^ 16 -> 0 <= flags < 2 ^ 8 ->
  0 <= nameoffset < 2 ^ 16 -> 0 <= dataoffset < 2 ^ 32 -> 0 <= datasize < 2 ^ 32 ->
  unpack_fileentry (file_entry_bytes fileid hash flags nameoffset dataoffset datasize)
  = Ok (fileid, hash, flags, 0, nameoffset, dataoffset, datasize, 0).
Proof.
  intros Hid Hh Hfl Hno Hdo Hds. unfold unpack_fileentry, unpack.
  rewrite decide_True by (apply file_entry_bytes_fields).
  unfold file_entry_bytes.
  rewrite !unpack_from_app by apply length_be_bytes.
  replace (be_bytes 4 0) with (be_bytes 4 0 ++ []) by apply app_nil_r.
  rewrite unpack_from_app by apply length_be_bytes.
  rewrite !be_value_be_bytes by (try assumption; lia). reflexivity.
Qed.

Lemma unpack_dir_entry_bytes (hash nameoffset child : Z) :
  0 <= hash < 2 ^ 16 -> 0 <= nameoffset < 2 ^ 16 -> 0 <= child < 2 ^ 32 ->
  unpack_fileentry (dir_entry_bytes hash nameoffset child)
  = Ok (0xFFFF, hash, 0x02, 0, nameoffset, child, 0x10, 0).
Proof.
  intros Hh Hno Hc. unfold unpack_fileentry, unpack.
  rewrite decide_True
    by (unfold dir_entry_bytes; rewrite !length_app, !length_be_bytes; reflexivity).
  unfold dir_entry_bytes.
  change [2; 0] with (be_bytes 1 2 ++ be_bytes 1 0). rewrite <- !app_assoc.
  rewrite !unpack_from_app by apply length_be_bytes.
  replace (be_bytes 4 0) with (be_bytes 4 0 ++ []) by apply app_nil_r.
  rewrite unpack_from_app by apply length_be_bytes.
  rewrite !be_value_be_bytes by (try assumption; lia). reflexivity.
Qed.

Lemma unpack_node_record (nameoffset hash entrycount first : Z) :
  0 <= nameoffset < 2 ^ 32 -> 0 <= hash < 2 ^ 16 -> 0 <= entrycount < 2 ^ 16 ->
  0 <= first < 2 ^ 32 ->
  unpack_node (be_bytes 4 nameoffset ++ be_bytes 2 hash ++ be_bytes 2 entrycount
                 ++ be_bytes 4 first)
  = Ok (nameoffset, hash, entrycount, first).
Proof.
  intros Hno Hh Hc Hf. unfold unpack_node, unpack.
  rewrite decide_True by (rewrite !length_app, !length_be_bytes; reflexivity).
  rewrite !unpack_from_app by apply length_be_bytes.
  replace (be_bytes 4 first) with (be_bytes 4 first ++ []) by apply app_nil_r.
  rewrite unpack_from_app by apply length_be_bytes.
  rewrite !be_value_be_bytes by (try assumption; lia). reflexivity.
Qed.

Lemma hash_name_range (name : pystr) : 0 <= hash_name name < 2 ^ 16.
Proof.
  pose proof (reference_hash_from_range (reference_multiplier name) name 0) as Hr.
  unfold hash_name. rewrite hash_multiplier, hash_fold_reference.
  change (2 ^ 16) with 65536. apply Hr. lia.
Qed.

Lemma dict_set_new {A} (k : pystr) (v : A) (l : list (pystr * A)) :
  k ∉ keys l -> dict_set k v l = l ++ [(k, v)].
Proof.
  induction l as [|[k' v'] l IH]; intros Hk; [reflexivity|].
  cbn [dict_set]. unfold keys in Hk. rewrite fmap_cons in Hk. cbn [fst] in Hk.
  apply not_elem_of_cons in Hk as [Hne Hk].
  rewrite decide_False by congruence. cbn [app]. f_equal. apply IH, Hk.
Qed.

Lemma keys_number_files (c : Z) (l : list (pystr * File)) :
  keys (number_files c l) = keys l.
Proof.
  revert c. induction l as [|[k file] l IH]; intros c; [reflexivity|].
  cbn [number_files]. unfold keys in *. rewrite !fmap_cons, IH. reflexivity.
Qed.

Lemma number_files_snoc (c : Z) (l : list (pystr * File)) (k : pystr) (file : File) :
  number_files c (l ++ [(k, file)])
  = number_files c l ++ [(k, decoded_file (c + len l) file)].
Proof.
  revert c. induction l as [|[k' file'] l IH]; intros c.
  - cbn. rewrite Z.add_0_r. reflexivity.
  - cbn [app number_files]. rewrite IH, len_cons.
    replace (c + Z.succ (len l)) with (c + 1 + len l) by lia. reflexivity.
Qed.

Lemma keys_place_children {A} (p : list nat) (m : nat) (l : list (pystr * (list nat -> A))) :
  keys (place_children p m l) = keys l.
Proof.
  revert m. induction l as [|[k g] l IH]; intros m; [reflexivity|].
  cbn [place_children]. unfold keys in *. rewrite !fmap_cons, IH. reflexivity.
Qed.

Lemma place_children_snoc {A} (p : list nat) (m : nat)
    (l : list (pystr * (list nat -> A))) (k : pystr) (g : list nat -> A) :
  place_children p m (l ++ [(k, g)])
  = place_children p m l ++ [(k, g (p ++ [(m + length l)%nat]))].
Proof.
  revert m. induction l as [|[k' g'] l IH]; intros m.
  - cbn. rewrite Nat.add_0_r. reflexivity.
  - cbn [app place_children length]. rewrite IH.
    replace (m + S (length l))%nat with (S m + length l)%nat by lia. reflexivity.
Qed.

Lemma keys_middle_fresh {A} (l r : list (pystr * A)) (x : pystr * A) :
  NoDup (keys (l ++ x :: r)) -> x.1 ∉ keys l.
Proof.
  unfold keys. rewrite fmap_app, fmap_cons. intros Hnd.
  apply NoDup_app in Hnd as (_ & Hdis & _). intros Hin.
  apply (Hdis _ Hin). left.
Qed.

Lemma entries_at_pos (T : Directory) (p : list nat) : 2 <= entries_at T p.
Proof.
  unfold entries_at, entry_count. destruct (dir_at T p) as [d|]; cbn [from_option].
  - pose proof (len_nonneg (subdirs d)). pose proof (len_nonneg (files d)). lia.
  - lia.
Qed.

Lemma first_at_nonneg (T : Directory) (j : nat) : 0 <= first_at T j.
Proof.
  unfold first_at. induction (take j (locs T)) as [|p l IH]; [reflexivity|].
  cbn [map]. change (sumZ (?a :: ?l)) with (a + sumZ l).
  pose proof (entries_at_pos T p). lia.
Qed.

Lemma dir_name_decoded (T d : Directory) (p : list nat) :
  dir_name (decoded_dir T d p) = dir_name d.
Proof. destruct d. reflexivity. Qed.

Section Decoder.
Context `{Codec}.
Variables (fuel : nat) (buf : bytes) (sto feo dto : Z).
Variables (stt : StringTable) (T : Directory) (data : bytes) (entries : list bytes).
Variable nodelist : list node.
Hypothesis Hname : forall s offset,
  wf_name s = true -> get_string_offset stt s = Ok offset ->
  stringtable_get_name fuel buf sto offset = Ok s.
Hypothesis Hentry : forall i e,
  entries !! i = Some e -> read_at buf (feo + Z.of_nat i * 20) 20 = e.
Hypothesis Hdata : forall o n, 0 <= o -> read_at buf (dto + o) n = read_at data o n.

Lemma step_file (rec : pystr -> Z -> option (list Z) -> result (Directory * list warning))
    (first cur : Z) (parents : option (list Z)) (newdir : Directory) (log : list warning)
    (i : Z) (n : nat) (e : bytes) (file : File) (id : Z) :
  first + i = Z.of_nat n -> entries !! n = Some e ->
  file_entry_ok stt data e (file, id) ->
  wf_name (file_name file) = true -> entry_name (file_name file) = true ->
  from_node_entry rec fuel buf sto feo dto first cur parents (newdir, log) i
  = Ok (add_file newdir (decoded_file id file), log).
Proof.
  intros Hi He (offset & dataoffset & Ho & Hid & Hoff & Hdo & Hsz & Hr & ->) Hwf Hen.
  cbn [fst snd] in *. apply entry_name_spec in Hen as (Hn1 & Hn2 & Hn3).
  unfold from_node_entry. rewrite Hi, (Hentry n _ He).
  rewrite unpack_file_entry_bytes
    by (try assumption; try apply hash_name_range; pose proof (len_nonneg (file_getvalue file)); lia).
  rewrite bind_Ok. cbv beta iota.
  rewrite (Hname _ _ Hwf Ho), bind_Ok.
  rewrite bool_decide_eq_false_2 by (intros [?|[?|?]]; congruence).
  change (nonzero (Z.land 17 DIRECTORY) && negb (nonzero (Z.land 17 FILE))) with false.
  cbv iota. unfold from_fileentry. rewrite (Hname _ _ Hwf Ho), bind_Ok.
  rewrite bind_Ok. cbv beta iota. rewrite Hdata by lia. rewrite Hr. reflexivity.
Qed.

Lemma step_skip (rec : pystr -> Z -> option (list Z) -> result (Directory * list warning))
    (first cur : Z) (parents : option (list Z)) (st : Directory * list warning)
    (i : Z) (n : nat) (e : bytes) (name : pystr) (child : Z) :
  first + i = Z.of_nat n -> entries !! n = Some e ->
  dir_entry_ok stt e name child -> wf_name name = true ->
  name = py "." \/ name = py ".." ->
  from_node_entry rec fuel buf sto feo dto first cur parents st i = Ok st.
Proof.
  intros Hi He (offset & Ho & Hoff & Hc & ->) Hwf Hskip. destruct st as [newdir log].
  unfold from_node_entry. rewrite Hi, (Hentry n _ He).
  rewrite unpack_dir_entry_bytes by (try assumption; apply hash_name_range).
  rewrite bind_Ok. cbv beta iota.
  rewrite (Hname _ _ Hwf Ho), bind_Ok.
  rewrite bool_decide_eq_true_2 by tauto. reflexivity.
Qed.

Lemma step_subdir (rec : pystr -> Z -> option (list Z) -> result (Directory * list warning))
    (first cur : Z) (parents : option (list Z)) (newdir : Directory) (log : list warning)
    (i : Z) (n : nat) (e : bytes) (name : pystr) (child : Z) :
  first + i = Z.of_nat n -> entries !! n = Some e ->
  dir_entry_ok stt e name child -> wf_name name = true -> entry_name name = true ->
  child ∉ cur :: default [] parents ->
  from_node_entry rec fuel buf sto feo dto first cur parents (newdir, log) i
  = '(subdir, sublog) ← rec name child (Some (cur :: default [] parents));
    Ok (add_subdir newdir subdir, log ++ sublog).
Proof.
  intros Hi He (offset & Ho & Hoff & Hc & ->) Hwf Hen Hfresh.
  apply entry_name_spec in Hen as (Hn1 & Hn2 & Hn3).
  unfold from_node_entry. rewrite Hi, (Hentry n _ He).
  rewrite unpack_dir_entry_bytes by (try assumption; apply hash_name_range).
  rewrite bind_Ok. cbv beta iota.
  rewrite (Hname _ _ Hwf Ho), bind_Ok.
  rewrite bool_decide_eq_false_2 by (intros [?|[?|?]]; congruence).
  change (nonzero (Z.land 2 DIRECTORY) && negb (nonzero (Z.land 2 FILE))) with true.
  cbv beta iota zeta. rewrite bind_Ok.
  rewrite bool_decide_eq_false_2 by exact Hfresh. reflexivity.
Qed.

Hypothesis Htable : table_ok stt T data entries.
Hypothesis Hnodes : forall j p d,
  locs T !! j = Some p -> dir_at T p = Some d ->
  exists nm unknown,
    nodelist !! j = Some (nm, unknown, entry_count d + 2, first_at T j)
    /\ default (dir_name d) nm = dir_name d.
Hypothesis wf_T : wf_dir T = true.
Hypothesis wf_dot : wf_name (py ".") = true.
Hypothesis wf_dotdot : wf_name (py "..") = true.

(** [from_node] on the node of the directory at place [p]: the directory
    as [decoded_dir] has it, and no warning. The parents handed down are
    nodes of places above [p], so the cycle guard lets every subdirectory
    through, and the nesting bound is never reached. *)
Lemma from_node_decoded (d : Directory) :
  forall (p : list nat) (depth : nat) (parents : option (list Z)),
    dir_at T p = Some d ->
    (length (locs T) < depth + length p)%nat ->
    Forall (fun x => exists q, q ∈ locs T /\ (length q < length p)%nat
                               /\ x = Z.of_nat (index_of q (locs T)))
           (default [] parents) ->
    from_node depth fuel buf (dir_name d) sto feo dto nodelist
              (Z.of_nat (index_of p (locs T))) parents
    = Ok (decoded_dir T d p, []).
Proof.
  induction d as [name idx fs sds IH] using Directory_ind'.
  intros p depth parents Hd Hdepth Hpar.
  assert (Hp : p ∈ locs T) by (apply elem_of_locs; rewrite Hd; eauto).
  pose proof (lookup_index_of _ _ Hp) as Hj.
  pose proof (locs_length_bound _ _ Hp) as Hlp.
  destruct depth as [|depth]; [lia|].
  destruct (Hnodes _ p _ Hj Hd) as (nm & unknown & Hnode & Hnm).
  destruct Htable as [Hlen20 Htab].
  destruct (Htab _ p _ Hj Hd) as (Hfiles & Hdot & Hdd & Hsubs).
  pose proof (wf_dir_at p T _ wf_T Hd) as Hwfd.
  apply wf_dir_spec in Hwfd as [Hwfn Hwfsub].
  apply wf_node_spec in Hwfn as (Hwff & Hndf & Hwfs & Hnds).
  cbn [files subdirs dir_name] in *.
  cbn [decoded_dir]. cbv zeta.
  pose proof (first_at_nonneg T (index_of p (locs T))) as Hfirst.
  set (j := index_of p (locs T)) in *.
  cbn [from_node]. rewrite Nat2Z.id, Hnode. cbv beta iota zeta. rewrite Hnm.
  match goal with
  | |- foldM ?s _ _ = _ => set (step := s)
  end.
  unfold entry_count. cbn [files subdirs].
  pose proof (len_nonneg fs) as Hnf. pose proof (len_nonneg sds) as Hns.
  replace (len sds + len fs + 2) with (len fs + (2 + len sds)) by lia.
  rewrite seqZ_app, (seqZ_app _ 2) by lia. rewrite !foldM_app.
  assert (P1 : forall l r, fs = l ++ r ->
            foldM step (seqZ 0 (len l)) (mkDirectory name (Some (Z.of_nat j)) [] [], [])
            = Ok (mkDirectory name (Some (Z.of_nat j))
                              (number_files (files_before T j) l) [], [])).
  { induction l as [|[k file] l IHl] using rev_ind; intros r Hfs; [reflexivity|].
    rewrite len_app, seqZ_app by (apply len_nonneg || (unfold len; simpl; lia)).
    rewrite foldM_app, (IHl ((k, file) :: r)) by (rewrite Hfs, <- app_assoc; reflexivity).
    rewrite bind_Ok.
    assert (Hlk : fs !! length l = Some (k, file)).
    { rewrite Hfs, <- app_assoc. apply list_lookup_middle. reflexivity. }
    destruct (Hfiles _ _ Hlk) as (e & He & Hok). cbn [snd] in Hok.
    rewrite Forall_forall in Hwff.
    destruct (wf_file_spec (k, file)) as (Hk & Hwn & Hen).
    { apply Hwff. eapply list_elem_of_lookup_2, Hlk. }
    cbn [fst snd] in Hk, Hwn, Hen. subst k.
    change (seqZ (0 + len l) (len [(file_name file, file)])) with [0 + len l].
    cbn [foldM].
    unfold step.
    rewrite (step_file _ (first_at T j) _ _ _ _ (0 + len l)
               (Z.to_nat (first_at T j) + length l) e file
               (files_before T j + Z.of_nat (length l)));
      [|unfold len; lia|exact He|exact Hok|exact Hwn|exact Hen].
    rewrite bind_Ok. unfold add_file. cbn [dir_name _nodeindex files subdirs decoded_file file_name].
    rewrite dict_set_new.
    - rewrite number_files_snoc. reflexivity.
    - rewrite keys_number_files.
      apply (keys_middle_fresh l r (file_name file, file)).
      rewrite Hfs, <- app_assoc in Hndf. exact Hndf. }
  rewrite (P1 fs []) by (rewrite app_nil_r; reflexivity). rewrite bind_Ok.
  change (seqZ (0 + len fs) 2) with [0 + len fs; 1 + (0 + len fs)].
  rewrite foldM_app. cbn [foldM].
  destruct Hdot as (edot & cdot & Hedot & Hokdot).
  destruct Hdd as (edd & cdd & Hedd & Hokdd).
  unfold step.
  rewrite (step_skip _ (first_at T j) _ _ _ (0 + len fs)
             (Z.to_nat (first_at T j) + length fs) edot (py ".") cdot);
    [|unfold len; lia|exact Hedot|exact Hokdot|exact wf_dot|left; reflexivity].
  rewrite bind_Ok.
  rewrite (step_skip _ (first_at T j) _ _ _ (1 + (0 + len fs))
             (Z.to_nat (first_at T j) + length fs + 1) edd (py "..") cdd);
    [|unfold len; lia|exact Hedd|exact Hokdd|exact wf_dotdot|right; reflexivity].
  rewrite !bind_Ok. fold step.
  assert (P3 : forall l r, sds = l ++ r -> forall F,
            foldM step (seqZ (0 + len fs + 2) (len l))
                  (mkDirectory name (Some (Z.of_nat j)) F [], [])
            = Ok (mkDirectory name (Some (Z.of_nat j)) F
                    (place_children p 0
                       (map (fun kd => (kd.1, decoded_dir T kd.2)) l)), [])).
  { induction l as [|[k sd] l IHl] using rev_ind; intros r Hsds F; [reflexivity|].
    rewrite len_app, seqZ_app by (apply len_nonneg || (unfold len; simpl; lia)).
    rewrite foldM_app, (IHl ((k, sd) :: r)) by (rewrite Hsds, <- app_assoc; reflexivity).
    rewrite bind_Ok.
    assert (Hlk : sds !! length l = Some (k, sd)).
    { rewrite Hsds, <- app_assoc. apply list_lookup_middle. reflexivity. }
    destruct (Hsubs _ _ Hlk) as (e & He & Hok). cbn [fst] in Hok.
    rewrite Forall_forall in Hwfs.
    destruct (wf_subdir_spec (k, sd)) as (Hk & Hwn & Hen & _ & _).
    { apply Hwfs. eapply list_elem_of_lookup_2, Hlk. }
    cbn [fst snd] in Hk, Hwn, Hen. subst k.
    assert (Hsd : dir_at T (p ++ [length l]) = Some sd).
    { rewrite dir_at_app, Hd. cbn. rewrite Hlk. reflexivity. }
    assert (Hq' : p ++ [length l] ∈ locs T) by (apply elem_of_locs; rewrite Hsd; eauto).
    assert (Hinj : forall q, q ∈ locs T ->
              Z.of_nat (index_of (p ++ [length l]) (locs T)) = Z.of_nat (index_of q (locs T)) ->
              q = p ++ [length l]).
    { intros q Hq Heq. apply Nat2Z.inj in Heq.
      pose proof (lookup_index_of _ _ Hq) as H1.
      pose proof (lookup_index_of _ _ Hq') as H2. congruence. }
    change (seqZ (0 + len fs + 2 + len l) (len [(dir_name sd, sd)]))
      with [0 + len fs + 2 + len l].
    cbn [foldM].
    unfold step.
    rewrite (step_subdir _ (first_at T j) _ _ _ _ (0 + len fs + 2 + len l)
               (Z.to_nat (first_at T j) + length fs + 2 + length l) e (dir_name sd)
               (Z.of_nat (index_of (p ++ [length l]) (locs T))));
      [|unfold len; lia|exact He|exact Hok|exact Hwn|exact Hen|].
    - rewrite Forall_forall in IH.
      rewrite (IH (dir_name sd, sd) ltac:(eapply list_elem_of_lookup_2, Hlk)
                  (p ++ [length l]) depth).
      + rewrite bind_Ok. cbv beta iota. rewrite bind_Ok.
        unfold add_subdir. cbn [dir_name _nodeindex files subdirs].
        rewrite !dir_name_decoded.
        rewrite dict_set_new.
        * rewrite map_app. cbn [map]. rewrite place_children_snoc, length_map.
          cbn [fst snd Nat.add]. reflexivity.
        * rewrite keys_place_children. unfold keys.
          change (map ?g ?x) with (g <$> x). rewrite <- list_fmap_compose.
          apply (keys_middle_fresh l r (dir_name sd, sd)).
          rewrite Hsds, <- app_assoc in Hnds. exact Hnds.
      + exact Hsd.
      + rewrite length_app. cbn [length]. lia.
      + cbn [default]. constructor.
        * exists p. rewrite length_app. cbn [length]. split_and!; [exact Hp|lia|reflexivity].
        * eapply Forall_impl; [exact Hpar|]. intros x (q & Hq & Hlq & ->).
          exists q. rewrite length_app. cbn [length]. split_and!; [exact Hq|lia|reflexivity].
    - intros Hin. apply elem_of_cons in Hin as [Heq|Hin].
      + apply (Hinj p Hp) in Heq. apply (f_equal length) in Heq.
        rewrite length_app in Heq. cbn [length] in Heq. lia.
      + rewrite Forall_forall in Hpar. destruct (Hpar _ Hin) as (q & Hq & Hlq & Heq).
        apply (Hinj q Hq) in Heq. subst q. rewrite length_app in Hlq. cbn [length] in Hlq. lia. }
  replace (0 + len fs + 2) with (0 + len fs + 2) by reflexivity.
  rewrite (P3 sds []) by (rewrite app_nil_r; reflexivity). reflexivity.
Qed.

End Decoder.

(** ** The header and the nodes, read back *)

Lemma read_uint32_at (buf : bytes) (pos v : Z) :
  read_at buf pos 4 = be_bytes 4 v -> 0 <= v < 2 ^ 32 ->
  read_uint32 (mkBytesIO buf pos) = Ok (v, mkBytesIO buf (pos + 4)).
Proof.
  intros Hr Hv. unfold read_uint32, read. cbn [getvalue tell]. rewrite Hr.
  unfold unpack. rewrite decide_True by (rewrite length_be_bytes; reflexivity).
  rewrite bind_Ok. cbn [unpack_from]. rewrite take_ge by (rewrite length_be_bytes; lia).
  rewrite be_value_be_bytes by exact Hv. reflexivity.
Qed.

Lemma read_skip (buf : bytes) (pos n : Z) :
  0 <= n -> (Z.to_nat pos + Z.to_nat n <= length buf)%nat ->
  read (mkBytesIO buf pos) n = (read_at buf pos n, mkBytesIO buf (pos + n)).
Proof.
  intros Hn Hin. unfold read. cbn [getvalue tell]. do 2 f_equal.
  unfold len. rewrite read_at_length by exact Hin. lia.
Qed.

Lemma read_middle (A x C : bytes) (pos n : Z) :
  pos = len A -> n = len x ->
  read (mkBytesIO (A ++ x ++ C) pos) n = (x, mkBytesIO (A ++ x ++ C) (pos + n)).
Proof.
  intros -> ->. unfold read. cbn [getvalue tell].
  assert (Hr : read_at (A ++ x ++ C) (len A) (len x) = x).
  { rewrite <- (Z.add_0_r (len A)), read_at_app_r by lia.
    apply read_at_0_app. reflexivity. }
  rewrite Hr. reflexivity.
Qed.

Section Nodes.
Context `{Codec}.
Variables (fuel : nat) (sto : Z) (stt : StringTable) (T : Directory).

Lemma from_file_node_record (A C rec : bytes) (x : list nat * Z) (i : Z)
    (acc : list node) :
  node_record_ok stt T rec x ->
  exists d offset,
    dir_at T x.1 = Some d /\ get_string_offset stt (dir_name d) = Ok offset
    /\ from_file_node fuel sto (mkBytesIO (A ++ rec ++ C) (len A), acc) i
       = nm ← (if decide (i = 0)
               then name ← stringtable_get_name fuel (A ++ rec ++ C) sto offset;
                    Ok (Some name)
               else Ok None);
         Ok (mkBytesIO (A ++ rec ++ C) (len A + 16),
             acc ++ [(nm, hash_name (dir_name d), entry_count d + 2, x.2)]).
Proof.
  intros (nodetype & d & offset & Hd & Hnt & Ho & Hoff & Hcnt & Hfirst & ->).
  exists d, offset. split; [exact Hd|]. split; [exact Ho|].
  unfold from_file_node.
  set (body := be_bytes 4 offset ++ be_bytes 2 (hash_name (dir_name d))
                 ++ be_bytes 2 (entry_count d + 2) ++ be_bytes 4 x.2).
  assert (Hbody : length body = 12%nat).
  { unfold body. rewrite !length_app, !length_be_bytes. reflexivity. }
  rewrite <- app_assoc.
  rewrite (read_middle A nodetype (body ++ C) (len A) 4)
    by (reflexivity || (unfold len; lia)).
  replace (A ++ nodetype ++ body ++ C) with ((A ++ nodetype) ++ body ++ C)
    by (rewrite <- !app_assoc; reflexivity).
  rewrite (read_middle (A ++ nodetype) body C (len A + 4) (4 + 2 + 2 + 4))
    by (rewrite ?len_app; unfold len; lia).
  replace (len A + 4 + (4 + 2 + 2 + 4)) with (len A + 16) by lia.
  rewrite <- !app_assoc.
  unfold body.
  rewrite unpack_node_record by (try assumption; apply hash_name_range).
  rewrite bind_Ok. cbv beta iota. cbn [getvalue]. reflexivity.
Qed.

Lemma from_file_nodes (recs : list bytes) (xs : list (list nat * Z)) (A C : bytes)
    (b : Z) (acc : list node) :
  Forall2 (node_record_ok stt T) recs xs -> 0 < b ->
  foldM (from_file_node fuel sto) (seqZ b (len recs))
        (mkBytesIO (A ++ concat recs ++ C) (len A), acc)
  = Ok (mkBytesIO (A ++ concat recs ++ C) (len A + 16 * len recs),
        acc ++ map (node_of T) xs).
Proof.
  intros HF. revert A b acc.
  induction HF as [|rec x recs xs Hrec HF IH]; intros A b acc Hb.
  - cbn. rewrite app_nil_r, Z.add_0_r. reflexivity.
  - rewrite len_cons, seqZ_cons, Z.pred_succ by (pose proof (len_nonneg recs); lia).
    cbn [foldM concat]. rewrite <- !app_assoc.
    destruct (from_file_node_record A (concat recs ++ C) rec x b acc Hrec)
      as (d & offset & Hd & Ho & ->).
    rewrite decide_False by lia. rewrite !bind_Ok.
    assert (Hlr : length rec = 16%nat).
    { destruct Hrec as (nodetype & d' & offset' & _ & Hnt & _ & _ & _ & _ & ->).
      rewrite !length_app, !length_be_bytes, Hnt. reflexivity. }
    replace (A ++ rec ++ concat recs ++ C) with ((A ++ rec) ++ concat recs ++ C)
      by (rewrite <- !app_assoc; reflexivity).
    replace (len A + 16) with (len (A ++ rec)) by (rewrite len_app; unfold len; lia).
    rewrite IH by lia. rewrite len_app, <- !app_assoc. cbn [map app].
    unfold node_of at 2. rewrite Hd. cbn [from_option]. unfold entries_at. rewrite Hd.
    cbn [from_option]. do 3 f_equal. unfold len. lia.
Qed.

End Nodes.

(** [from_file_body] on a buffer whose header has the fields of the
    encoder: the five integers are read and the loop of the nodes starts at
    position 64. *)
Lemma from_file_body_header `{Codec} (fuel : nat) (buf : bytes)
    (size data_offset node_count file_entry_offset stringtable_offset : Z) :
  (64 <= length buf)%nat ->
  read_at buf 4 4 = be_bytes 4 size -> 0 <= size < 2 ^ 32 ->
  read_at buf 12 4 = be_bytes 4 data_offset -> 0 <= data_offset < 2 ^ 32 ->
  read_at buf 32 4 = be_bytes 4 node_count -> 0 <= node_count < 2 ^ 32 ->
  read_at buf 44 4 = be_bytes 4 file_entry_offset -> 0 <= file_entry_offset < 2 ^ 32 ->
  read_at buf 52 4 = be_bytes 4 stringtable_offset -> 0 <= stringtable_offset < 2 ^ 32 ->
  from_file_body fuel (mkBytesIO buf 4)
  = '(f, nodes) ← foldM (from_file_node fuel (stringtable_offset + 0x20))
                        (seqZ 0 node_count) (mkBytesIO buf 64, []);
    match nodes with
    | [] => Raise IndexError
    | (rootfoldername, _, _, _) :: _ =>
        '(root, log) ← from_node (S (length nodes)) fuel (getvalue f)
                                 (default [] rootfoldername)
                                 (stringtable_offset + 0x20) (file_entry_offset + 0x20)
                                 (data_offset + 0x20) nodes 0 None;
        Ok (mkArchive root, log)
    end.
Proof.
  intros Hlen H4 Hr4 H12 Hr12 H32 Hr32 H44 Hr44 H52 Hr52.
  unfold from_file_body.
  rewrite (read_uint32_at buf 4 size H4 Hr4), bind_Ok. cbv beta iota.
  rewrite (read_skip buf (4 + 4) 4) by (cbn; lia). cbv beta iota.
  rewrite (read_uint32_at buf (4 + 4 + 4) data_offset H12 Hr12), bind_Ok. cbv beta iota zeta.
  rewrite (read_skip buf (4 + 4 + 4 + 4) 16) by (cbn; lia). cbv beta iota.
  rewrite (read_uint32_at buf (4 + 4 + 4 + 4 + 16) node_count H32 Hr32), bind_Ok.
  cbv beta iota.
  rewrite (read_skip buf (4 + 4 + 4 + 4 + 16 + 4) 8) by (cbn; lia). cbv beta iota.
  rewrite (read_uint32_at buf (4 + 4 + 4 + 4 + 16 + 4 + 8) file_entry_offset H44 Hr44),
    bind_Ok.
  cbv beta iota zeta.
  rewrite (read_skip buf (4 + 4 + 4 + 4 + 16 + 4 + 8 + 4) 4) by (cbn; lia). cbv beta iota.
  rewrite (read_uint32_at buf (4 + 4 + 4 + 4 + 16 + 4 + 8 + 4 + 4) stringtable_offset
             H52 Hr52), bind_Ok.
  cbv beta iota zeta.
  rewrite (read_skip buf (4 + 4 + 4 + 4 + 16 + 4 + 8 + 4 + 4 + 4) 8) by (cbn; lia).
  cbv beta iota. reflexivity.
Qed.

Lemma index_of_head {A} `{EqDecision A} (x : A) (l : list A) : index_of x (x :: l) = O.
Proof. cbn. rewrite decide_True by reflexivity. reflexivity. Qed.

Lemma length_sums_from (acc : Z) (ws : list Z) : length (sums_from acc ws) = length ws.
Proof.
  revert acc. induction ws as [|w ws IH]; intros acc; [reflexivity|].
  cbn [sums_from length]. rewrite IH. reflexivity.
Qed.

Lemma node_record_ok_length (stt : StringTable) (T : Directory) (rec : bytes)
    (x : list nat * Z) :
  node_record_ok stt T rec x -> length rec = 16%nat.
Proof.
  intros (nodetype & d & offset & _ & Hnt & _ & _ & _ & _ & ->).
  rewrite !length_app, !length_be_bytes, Hnt. reflexivity.
Qed.

Lemma len_node_records (stt : StringTable) (T : Directory) (recs : list bytes)
    (xs : list (list nat * Z)) :
  Forall2 (node_record_ok stt T) recs xs -> len (concat recs) = 16 * len recs.
Proof.
  induction 1 as [|rec x recs xs Hrec _ IH]; [reflexivity|].
  cbn [concat]. rewrite len_app, len_cons, IH.
  unfold len at 1. rewrite (node_record_ok_length _ _ _ _ Hrec). lia.
Qed.

Section Round_trip.
Context `{Codec} `{External}.

(** Decoding what [write_arc] made of a well-formed tree, when the
    override table has no entry, gives the tree as [decoded_dir] has it, and
    no warning. *)
Lemma from_file_write_arc (self self' : Archive) (compression_settings : CompressionSetting)
    (filelisting : option filelisting_t) (f : BytesIO) (fuel : nat) :
  (forall filepath fileid,
      override_or filelisting filepath fileid = (fileid, FileListing_default)) ->
  wf_archive self = true ->
  write_arc self compression_settings filelisting 0 = Ok (f, self') ->
  len (getvalue f) <= Z.of_nat fuel ->
  from_file fuel (getvalue f)
  = Ok (mkArchive (decoded_dir (root self) (root self) []), []).
Proof.
  intros Hno Hwf Hw Hfuel.
  destruct (write_arc_layout self self' compression_settings filelisting f Hno Hwf Hw)
    as (stt & hdr & recs & pad1 & entries & pad2 & pad3 & data & Hlay).
  cbv zeta in Hlay.
  destruct Hlay as (Hbuf & Hreach & Hlen & Hmagic & Hsize & Hdo & Hnc & Hfeo & Hsto
                    & Hlt & Hal & Hrecs & Htab & _).
  unfold wf_archive in Hwf. rewrite !andb_true_iff in Hwf.
  destruct Hwf as ((((Hdot & Hdd) & Hrn) & Hseg) & HwfT).
  set (T := root self) in *.
  set (A1 := hdr ++ concat recs ++ pad1) in *.
  set (A2 := A1 ++ concat entries ++ pad2) in *.
  set (A3 := A2 ++ getvalue (_strings stt) ++ pad3) in *.
  set (buf := getvalue f) in *.
  assert (HlenA1 : 64 <= len A1).
  { unfold A1. rewrite len_app. unfold len at 1. rewrite Hlen.
    pose proof (len_nonneg (concat recs ++ pad1)). lia. }
  assert (HlenA2 : len A1 <= len A2).
  { unfold A2. rewrite len_app. pose proof (len_nonneg (concat entries ++ pad2)). lia. }
  assert (HlenA3 : len A2 <= len A3).
  { unfold A3. rewrite len_app.
    pose proof (len_nonneg (getvalue (_strings stt) ++ pad3)). lia. }
  assert (Hlenbuf : len buf = len A3 + len data) by (rewrite Hbuf; apply len_app).
  pose proof (len_nonneg data) as Hdatalen.
  rewrite len_app in Hlt.
  assert (Hhead : forall pos, (Z.to_nat pos + 4 <= 64)%nat ->
                    read_at buf pos 4 = read_at hdr pos 4).
  { intros pos Hpos. rewrite Hbuf. unfold A3, A2, A1. rewrite <- !app_assoc.
    apply read_at_app_l. rewrite Hlen. exact Hpos. }
  rewrite from_file_container. unfold container_of.
  rewrite (Hhead 0), Hmagic by (cbn; lia).
  rewrite decide_False by (intros E; vm_compute in E; discriminate E).
  rewrite bind_Ok, (Hhead 0), Hmagic by (cbn; lia).
  rewrite decide_True by reflexivity.
  change (len RARC_magic) with 4.
  rewrite (from_file_body_header fuel buf (len buf) (len A3 - 0x20) (len (locs T))
             (len A1 - 0x20) (len A2 - 0x20));
    [|unfold len in Hlenbuf, HlenA1, HlenA2, HlenA3, Hdatalen; lia
     |rewrite Hhead by (cbn; lia); rewrite Hbuf; exact Hsize
     |lia
     |rewrite Hhead by (cbn; lia); exact Hdo
     |lia
     |rewrite Hhead by (cbn; lia); exact Hnc
     |
     |rewrite Hhead by (cbn; lia); exact Hfeo
     |lia
     |rewrite Hhead by (cbn; lia); exact Hsto
     |lia].
  2:{ pose proof (len_nonneg (locs T)).
      apply Forall2_length in Hrecs as Hlr.
      rewrite length_zip_with, length_sums_from, length_map in Hlr.
      pose proof (len_node_records _ _ _ _ Hrecs) as Hrl.
      assert (len (concat recs) <= len A1).
      { unfold A1. rewrite !len_app. pose proof (len_nonneg hdr).
        pose proof (len_nonneg pad1). lia. }
      unfold len in *. lia. }
  replace (len A3 - 32 + 32) with (len A3) by lia.
  replace (len A2 - 32 + 32) with (len A2) by lia.
  replace (len A1 - 32 + 32) with (len A1) by lia.
  assert (Hinv := reachable_inv _ Hreach).
  assert (Hbuf' : buf = hdr ++ concat recs ++ pad1 ++ concat entries ++ pad2
                          ++ getvalue (_strings stt) ++ pad3 ++ data).
  { rewrite Hbuf. unfold A3, A2, A1. rewrite <- !app_assoc. reflexivity. }
  clearbody buf.
  assert (Hname : forall s offset,
            wf_name s = true -> get_string_offset stt s = Ok offset ->
            stringtable_get_name fuel buf (len A2) offset = Ok s).
  { intros s offset Hs Ho. rewrite Hbuf. unfold A3. rewrite <- !app_assoc.
    apply stringtable_get_name_interned; try assumption.
    assert (Hblob : len (getvalue (_strings stt)) <= len A3).
    { unfold A3. rewrite !len_app. pose proof (len_nonneg pad3).
      pose proof (len_nonneg A2). lia. }
    unfold len in *. lia. }
  assert (Hentry : forall i e,
            entries !! i = Some e -> read_at buf (len A1 + Z.of_nat i * 20) 20 = e).
  { intros i e He. rewrite Hbuf. unfold A3, A2. rewrite <- !app_assoc.
    rewrite read_at_app_r by lia.
    destruct Htab as [Hl20 _].
    assert (Hle : len e = 20).
    { rewrite Forall_forall in Hl20. unfold len. rewrite (Hl20 e); [reflexivity|].
      eapply list_elem_of_lookup_2, He. }
    rewrite <- Hle at 2. apply read_at_stable. rewrite Hle.
    replace (Z.of_nat i * 20) with (Z.of_nat (i * 20)) by lia.
    apply (read_at_concat entries 20 i e Hl20 He). }
  assert (Hdata : forall o n, 0 <= o -> read_at buf (len A3 + o) n = read_at data o n).
  { intros o n Ho. rewrite Hbuf. apply read_at_app_r, Ho. }
  destruct (locs_head T) as (L' & HL).
  assert (Hrecs0 := Hrecs). rewrite HL in Hrecs0.
  cbn [map sums_from zip zip_with] in Hrecs0.
  apply Forall2_cons_inv_r in Hrecs0 as (rec0 & recs' & Hrec0 & Hrecs' & Erecs).
  replace (len (locs T)) with (Z.succ (len L')) by (rewrite HL; symmetry; apply len_cons).
  apply Forall2_length in Hrecs' as Hlr'.
  rewrite length_zip_with, length_sums_from, length_map in Hlr'.
  pose proof (len_nonneg L') as HL'.
  rewrite seqZ_cons, Z.pred_succ by lia. cbn [foldM].
  destruct (from_file_node_record fuel (len A2) stt T hdr
              (concat recs' ++ pad1 ++ concat entries ++ pad2
                 ++ getvalue (_strings stt) ++ pad3 ++ data)
              rec0 ([], 0) 0 [] Hrec0) as (d & offset & Hd & Ho & Hstep).
  cbn [fst snd dir_at] in Hd, Hstep. injection Hd as <-.
  assert (Hbuf0 : buf = hdr ++ rec0 ++ concat recs' ++ pad1 ++ concat entries ++ pad2
                          ++ getvalue (_strings stt) ++ pad3 ++ data).
  { rewrite Hbuf', Erecs. cbn [concat]. rewrite <- !app_assoc. reflexivity. }
  rewrite <- Hbuf0 in Hstep.
  replace (len hdr) with 64 in Hstep by (unfold len; rewrite Hlen; reflexivity).
  rewrite Hstep. rewrite decide_True by reflexivity.
  rewrite (Hname _ _ Hrn Ho), !bind_Ok.
  pose proof (from_file_nodes fuel (len A2) stt T recs' _ (hdr ++ rec0)
                (pad1 ++ concat entries ++ pad2 ++ getvalue (_strings stt) ++ pad3 ++ data)
                (Z.succ 0) ([] ++ [(Some (dir_name T), hash_name (dir_name T),
                                    entry_count T + 2, 0)])
                Hrecs' ltac:(lia)) as Hloop.
  replace ((hdr ++ rec0) ++ concat recs' ++ pad1 ++ concat entries ++ pad2
             ++ getvalue (_strings stt) ++ pad3 ++ data) with buf in Hloop
    by (rewrite Hbuf0, <- !app_assoc; reflexivity).
  replace (len (hdr ++ rec0)) with (64 + 16) in Hloop
    by (rewrite len_app; unfold len; rewrite Hlen, (node_record_ok_length _ _ _ _ Hrec0);
        reflexivity).
  replace (len recs') with (len L') in Hloop by (unfold len; lia).
  unfold node in *. rewrite Hloop, bind_Ok. cbn [app]. cbv beta iota. cbn [default getvalue].
  match goal with
  | |- from_node _ _ _ _ _ _ _ ?nodes _ _ ≫= _ = _ => set (nodelist := nodes)
  end.
  assert (Hnodes : forall j p d,
            locs T !! j = Some p -> dir_at T p = Some d ->
            exists nm unknown,
              nodelist !! j = Some (nm, unknown, entry_count d + 2, first_at T j)
              /\ default (dir_name d) nm = dir_name d).
  { intros j p d Hj Hd. destruct j as [|j].
    - rewrite HL in Hj. injection Hj as <-. cbn [dir_at] in Hd. injection Hd as <-.
      exists (Some (dir_name T)), (hash_name (dir_name T)). split; reflexivity.
    - exists None, (hash_name (dir_name d)). split; [|reflexivity].
      unfold nodelist. rewrite lookup_cons.
      change (map ?g ?l) with (g <$> l). rewrite list_lookup_fmap.
      assert (Hjlt : (S j < length (locs T))%nat) by (eapply lookup_lt_Some, Hj).
      assert (Hz : zip (locs T) (sums_from 0 (map (entries_at T) (locs T))) !! S j
                   = Some (p, first_at T (S j))).
      { apply lookup_zip_pair; [exact Hj|].
        rewrite sums_from_lookup by (rewrite length_map; exact Hjlt).
        unfold first_at. rewrite firstn_map. reflexivity. }
      rewrite HL in Hz at 1 2. cbn [map sums_from zip zip_with] in Hz.
      rewrite lookup_cons in Hz. rewrite Hz. cbn [fmap option_fmap option_map]. unfold node_of. cbn [fst snd].
      rewrite Hd. cbn [from_option]. unfold entries_at. rewrite Hd. reflexivity. }
  pose proof (from_node_decoded fuel buf (len A2) (len A1) (len A3) stt T data entries
                nodelist Hname Hentry Hdata Htab Hnodes HwfT Hdot Hdd T []
                (S (length nodelist)) None eq_refl) as Hfn.
  replace (index_of [] (locs T)) with O in Hfn
    by (rewrite HL; symmetry; apply index_of_head).
  change (Z.of_nat 0) with 0 in Hfn. unfold id.
  rewrite Hfn.
  - rewrite bind_Ok. reflexivity.
  - unfold nodelist. cbn [length]. rewrite length_map, length_zip_with, length_sums_from,
      length_map. rewrite HL. cbn [length]. lia.
  - constructor.
Qed.

End Round_trip.

Lemma bare_number_files (c : Z) (l : list (pystr * File)) :
  map (fun kf => (kf.1, bare_file kf.2)) (number_files c l)
  = map (fun kf => (kf.1, bare_file kf.2)) l.
Proof.
  revert c. induction l as [|[k file] l IH]; intros c; [reflexivity|].
  cbn [number_files map fst snd]. rewrite IH. reflexivity.
Qed.

Lemma bare_decoded_dir (T d : Directory) (p : list nat) :
  bare (decoded_dir T d p) = bare d.
Proof.
  revert p. induction d as [name idx fs sds IH] using Directory_ind'. intros p.
  cbn [decoded_dir bare]. rewrite bare_number_files. f_equal.
  generalize O. induction IH as [|[k sd] sds Hsd _ IHsds]; intros m; [reflexivity|].
  cbn [map place_children fst snd]. rewrite Hsd, IHsds. reflexivity.
Qed.

(** C1, amended. For a well-formed tree (names that the codec takes to
    bytes without a zero and back, mappings keyed by the names of their
    entries without repetition, no entry named [.], [..] or nameless,
    directory names of one segment and not blank), encoding with no
    override table and no compression and decoding the buffer gives,
    without warning, a tree with the same hierarchy, the same names and the
    same file contents ([bare]). The ids and flags are not kept: in the
    decoded tree ([decoded_dir]) the id of a file is its position among the
    files of the walk, counted from 0, its flags are 0x11, and the node
    index of a directory is its position in the walk. The name loops need
    no more turns than the buffer has bytes. *)
Theorem roundtrip_without_override `{Codec} `{External} (self self' : Archive)
    (f : BytesIO) :
  wf_archive self = true ->
  write_arc self CompressionSetting_default None 0 = Ok (f, self') ->
  exists decoded,
    from_file (length (getvalue f)) (getvalue f) = Ok (decoded, [])
    /\ bare (root decoded) = bare (root self)
    /\ root decoded = decoded_dir (root self) (root self) [].
Proof.
  intros Hwf Hw.
  exists (mkArchive (decoded_dir (root self) (root self) [])). split_and!.
  - eapply from_file_write_arc; [|exact Hwf|exact Hw|unfold len; lia]. reflexivity.
  - apply bare_decoded_dir.
  - reflexivity.
Qed.

Lemma roundtrip_without_override_witness :
  exists f self' decoded,
    @wf_archive ascii_codec example_archive = true
    /\ @write_arc ascii_codec no_tools example_archive CompressionSetting_default None 0
       = Ok (f, self')
    /\ @from_file ascii_codec no_tools (length (getvalue f)) (getvalue f)
       = Ok (decoded, [])
    /\ bare (root decoded) = bare (root example_archive)
    /\ map (fun kf => (kf.1, _fileid kf.2, _flags kf.2)) (files (root decoded))
       = [(py "a.bin", Some 0, Some 0x11)].
Proof.
  destruct (@write_arc ascii_codec no_tools example_archive CompressionSetting_default
              None 0) as [[f self']| |] eqn:E; [|vm_compute in E; discriminate E..].
  destruct (@roundtrip_without_override ascii_codec no_tools example_archive self' f
              eq_refl E) as (decoded & H1 & H2 & H3).
  exists f, self', decoded.
  split; [reflexivity|]. split; [reflexivity|]. split; [exact H1|]. split; [exact H2|].
  rewrite H3. reflexivity.
Defined.

(** ** The file entries of the whole table *)

Lemma next_aligned_pos_spec (pos : Z) :
  0 <= pos -> next_aligned_pos pos = 32 * ((pos + 31) / 32).
Proof.
  intros Hp. unfold next_aligned_pos.
  change (Z.lnot 31) with (Z.lnot (Z.ones 5)).
  rewrite <- Z.ldiff_land, Z.ldiff_ones_r by lia.
  rewrite Z.shiftr_div_pow2, Z.shiftl_mul_pow2 by lia. change (2 ^ 5) with 32. lia.
Qed.

Lemma padded_aligned (b : bytes) : len (b ++ replicate (padding (len b)) 0) mod 0x20 = 0.
Proof.
  rewrite len_app, len_replicate. unfold padding. pose proof (len_nonneg b) as Hb.
  rewrite next_aligned_pos_spec by exact Hb.
  pose proof (Z.div_mod (len b + 31) 32 ltac:(lia)) as Hdm.
  pose proof (Z.mod_pos_bound (len b + 31) 32 ltac:(lia)) as Hm.
  rewrite Z2Nat.id by lia.
  replace (len b + (32 * ((len b + 31) / 32) - len b)) with ((len b + 31) / 32 * 32) by lia.
  apply Z_mod_mult.
Qed.

Lemma write_node_at_end `{Codec} (stringtable : StringTable) (st st' : node_state)
    (x : Z * walkitem) :
  at_end (ns_f st) -> write_node stringtable st x = Ok st' -> at_end (ns_f st').
Proof.
  destruct st as [f first X dl], x as [i [[dirpath dirnames] filenames]].
  cbn [ns_f]. intros He Hw. rewrite (stream_at_end f He) in Hw.
  unfold write_node in Hw. cbn [ns_root ns_f ns_dirlist ns_first_file_entry_index] in Hw.
  apply bind_Ok_inv in Hw as (dir & _ & Hw).
  destruct (ref_name (set_ref_nodeindex X dir i) dir) as [name|]; [|discriminate Hw].
  apply bind_Ok_inv in Hw as (nodetype & _ & Hw). rewrite write_stream in Hw.
  apply bind_Ok_inv in Hw as (offset & _ & Hw).
  step_write Hw. step_write Hw. step_write Hw. step_write Hw.
  injection Hw as <-. cbn [ns_f]. apply at_end_stream.
Qed.

Lemma file_entry_bytes_hash (id hash flags offset dataoffset datasize : Z) :
  take 2 (drop 2 (file_entry_bytes id hash flags offset dataoffset datasize))
  = be_bytes 2 hash.
Proof. reflexivity. Qed.

Lemma paths_of_files (abspath : pystr) (l : list (pystr * File)) :
  (map (fun '(filename, file) => (abspath ++ py "/" ++ filename, file)) l).*1
  = map (fun kf => abspath ++ py "/" ++ kf.1) l.
Proof.
  induction l as [|[k file] l IH]; [reflexivity|].
  cbn [map fmap list_fmap fst]. f_equal. exact IH.
Qed.

Lemma length_written_ids (filelisting : option filelisting_t) (paths : list pystr)
    (fileid : Z) :
  length (written_ids filelisting fileid paths) = length paths.
Proof.
  revert fileid. induction paths as [|path paths IH]; intros fileid; [reflexivity|].
  cbn [written_ids length]. rewrite IH. reflexivity.
Qed.

Section Entry_ids.
Context `{Codec} `{External}.
Variable compression_settings : CompressionSetting.
Variable filelisting : option filelisting_t.
Variable stringtable : StringTable.

(** The files of one directory: their entries, and the running id the
    loop leaves, from which the ids of later files go on. *)
Lemma write_file_entries_ids (files : list (pystr * File)) (fb db : bytes)
    (fileid : Z) (st' : entry_state) :
  foldM (write_file_entry compression_settings filelisting stringtable) files
        (mkEntryState (stream fb) (stream db) fileid) = Ok st' ->
  exists entries db' fileid',
    st' = mkEntryState (stream (fb ++ concat entries)) (stream db') fileid'
    /\ Forall2 entry_of_file entries
               (zip files.*2 (written_ids filelisting fileid files.*1))
    /\ forall more,
         written_ids filelisting fileid (files.*1 ++ more)
         = written_ids filelisting fileid files.*1 ++ written_ids filelisting fileid' more.
Proof.
  revert fb db fileid. induction files as [|[filepath file] files IH];
    intros fb db fileid Hw; cbn [foldM] in Hw.
  - injection Hw as <-. exists [], db, fileid. cbn. rewrite app_nil_r.
    split; [reflexivity|]. split; [constructor|reflexivity].
  - apply bind_Ok_inv in Hw as (st1 & Hw1 & Hw).
    apply write_file_entry_stream in Hw1 as (offset & payload & Hw1).
    cbn [fmap list_fmap fst snd written_ids zip zip_with app].
    destruct (override_or filelisting filepath fileid) as [id filemeta].
    destruct Hw1 as (Hoff & _ & Hid & Hoffr & _ & _ & ->).
    apply IH in Hw as (entries & db' & fileid' & -> & HF & Hmore).
    eexists (_ :: entries), db', fileid'. cbn [concat fst]. rewrite <- app_assoc.
    split; [reflexivity|]. split.
    + constructor; [|exact HF].
      destruct (file_entry_bytes_fields id (hash_name (file_name file))
                  (to_flags filemeta) offset (len db) (len payload)) as (Hl & Ht & _).
      unfold entry_of_file. cbn [fst snd].
      rewrite Hl, Ht, file_entry_bytes_hash.
      rewrite !be_value_be_bytes by (exact Hid || apply hash_name_range). auto.
    + intros more. rewrite Hmore. reflexivity.
Qed.

(** One directory of [dirlist]. *)
Lemma write_dir_entries_ids (maxindex : Z) (X : Directory) (fb db : bytes)
    (fileid : Z) (dir : objref) (st' : entry_state) :
  write_dir_entries compression_settings filelisting maxindex stringtable X
                    (mkEntryState (stream fb) (stream db) fileid) dir = Ok st' ->
  exists p d abspath entries rest db' fileid',
    dir = DirRef p /\ dir_at X p = Some d /\ absolute_path X p = Some abspath
    /\ st' = mkEntryState (stream (fb ++ concat entries ++ rest)) (stream db') fileid'
    /\ chunk_of_dir (entries, rest) (abspath, d)
    /\ Forall2 entry_of_file entries
               (zip (files d).*2
                    (written_ids filelisting fileid
                       (map (fun kf => abspath ++ py "/" ++ kf.1) (files d))))
    /\ forall more,
         written_ids filelisting fileid
           (map (fun kf => abspath ++ py "/" ++ kf.1) (files d) ++ more)
         = written_ids filelisting fileid
             (map (fun kf => abspath ++ py "/" ++ kf.1) (files d))
           ++ written_ids filelisting fileid' more.
Proof.
  intros Hw. unfold write_dir_entries in Hw.
  destruct dir as [p|]; [|discriminate Hw].
  destruct (dir_at X p) as [d|] eqn:Hd; [|discriminate Hw].
  destruct (absolute_path X p) as [abspath|] eqn:Ha; [|discriminate Hw].
  cbv zeta in Hw. rewrite sort_by_key_compare in Hw.
  apply bind_Ok_inv in Hw as (st1 & Hfiles & Hw).
  apply write_file_entries_ids in Hfiles as (entries & db' & fileid' & -> & HF & Hmore).
  rewrite paths_of_files in HF, Hmore. rewrite snd_paths_of_files in HF.
  cbn [es_f es_data es_fileid] in Hw.
  apply bind_Ok_inv in Hw as (f1 & Hsub & Hw). apply Ok_inj in Hw. subst st'.
  apply write_subdir_entries_stream in Hsub as (rest & -> & Hrest).
  exists p, d, abspath, entries, rest, db', fileid'.
  rewrite <- app_assoc.
  split; [reflexivity|]. split; [exact Hd|]. split; [exact Ha|].
  split; [reflexivity|]. split; [|split; [exact HF|exact Hmore]].
  unfold chunk_of_dir. cbn [fst snd]. split.
  - apply Forall2_length in HF. rewrite length_zip_with, length_written_ids in HF.
    rewrite length_fmap, (length_map _ (files d)) in HF. lia.
  - rewrite Hrest, length_app, (length_map _ (subdirs d)). cbn [length]. lia.
Qed.

(** The directories of [dirlist], one after the other. *)
Lemma write_dirs_entries_ids (maxindex : Z) (X : Directory) (dirlist : list objref) :
  forall (fb db : bytes) (fileid : Z) (st' : entry_state),
    foldM (write_dir_entries compression_settings filelisting maxindex stringtable X)
          dirlist (mkEntryState (stream fb) (stream db) fileid) = Ok st' ->
    exists (dirs : list (pystr * Directory)) (chunks : list (list bytes * bytes))
           db' fileid',
      Forall2 (fun dir ad => exists p, dir = DirRef p /\ dir_at X p = Some ad.2
                                       /\ absolute_path X p = Some ad.1) dirlist dirs
      /\ st' = mkEntryState (stream (fb ++ chunks_bytes chunks)) (stream db') fileid'
      /\ Forall2 chunk_of_dir chunks dirs
      /\ Forall2 entry_of_file (concat chunks.*1)
                 (zip (files_of_dirs dirs)
                      (written_ids filelisting fileid (paths_of_dirs dirs)))
      /\ forall more,
           written_ids filelisting fileid (paths_of_dirs dirs ++ more)
           = written_ids filelisting fileid (paths_of_dirs dirs)
             ++ written_ids filelisting fileid' more.
Proof.
  induction dirlist as [|dir dirlist IH]; intros fb db fileid st' Hw; cbn [foldM] in Hw.
  - injection Hw as <-. exists [], [], db, fileid. cbn. rewrite app_nil_r.
    split; [constructor|]. split; [reflexivity|]. split; [constructor|].
    split; [constructor|reflexivity].
  - apply bind_Ok_inv in Hw as (st1 & Hdir & Hw).
    apply write_dir_entries_ids in Hdir
      as (p & d & abspath & entries & rest & db1 & fileid1 & -> & Hd & Ha & -> & Hchunk
          & HF & Hmore).
    apply IH in Hw as (dirs & chunks & db' & fileid' & Hdirs & -> & Hchunks & HFs & Hmores).
    exists ((abspath, d) :: dirs), ((entries, rest) :: chunks), db', fileid'.
    unfold chunks_bytes, paths_of_dirs, files_of_dirs in *.
    cbn [map concat flat_map fmap list_fmap fst snd].
    split; [constructor; [exists p; auto|exact Hdirs]|].
    split; [rewrite <- !app_assoc; reflexivity|].
    split; [constructor; assumption|].
    split.
    + rewrite Hmore.
      assert (Hlen : length (files d).*2
                     = length (written_ids filelisting fileid
                                 (map (fun kf => abspath ++ py "/" ++ kf.1) (files d)))).
      { rewrite length_written_ids, length_fmap, length_map. reflexivity. }
      rewrite (zip_with_app pair _ _ _ _ Hlen).
      apply Forall2_app; assumption.
    + intros more. rewrite <- app_assoc, Hmore, Hmores, Hmore, <- app_assoc. reflexivity.
Qed.

End Entry_ids.

(** The node loop: the directories it appends to [dirlist] are those that
    the paths of the walk are looked up to. *)
Lemma write_node_dirlist `{Codec} (stringtable : StringTable) (fb : bytes) (first : Z)
    (X : Directory) (dl : list objref) (x : Z * walkitem) (st' : node_state) :
  write_node stringtable (mkNodeState (stream fb) first X dl) x = Ok st' ->
  exists rec dir first' X',
    Archive_getitem (mkArchive X) x.2.1.1 = Ok dir
    /\ st' = mkNodeState (stream (fb ++ rec)) first' X' (dl ++ [dir])
    /\ erase_nodeindex X' = erase_nodeindex X.
Proof.
  destruct x as [i [[dirpath dirnames] filenames]]. intros Hw.
  unfold write_node in Hw. cbn [ns_root ns_f ns_dirlist ns_first_file_entry_index] in Hw.
  apply bind_Ok_inv in Hw as (dir & Hdir & Hw).
  destruct (ref_name (set_ref_nodeindex X dir i) dir) as [name|]; [|discriminate Hw].
  apply bind_Ok_inv in Hw as (nodetype & _ & Hw). rewrite write_stream in Hw.
  apply bind_Ok_inv in Hw as (offset & _ & Hw).
  step_write Hw. step_write Hw. step_write Hw. step_write Hw.
  apply Ok_inj in Hw. subst st'.
  cbn [ns_root ns_f ns_dirlist ns_first_file_entry_index fst snd].
  eexists _, dir, _, _. split; [exact Hdir|]. split.
  - rewrite <- !app_assoc. reflexivity.
  - apply erase_set_ref.
Qed.

Lemma write_nodes_dirlist `{Codec} (stringtable : StringTable) (l : list (Z * walkitem)) :
  forall (fb : bytes) (first : Z) (X : Directory) (dl : list objref) (st' : node_state),
    foldM (write_node stringtable) l (mkNodeState (stream fb) first X dl) = Ok st' ->
    exists recs dirlist,
      ns_f st' = stream (fb ++ recs) /\ ns_dirlist st' = dl ++ dirlist
      /\ erase_nodeindex (ns_root st') = erase_nodeindex X
      /\ Forall2 (fun x dir => Archive_getitem (mkArchive X) x.2.1.1 = Ok dir) l dirlist.
Proof.
  induction l as [|x l IH]; intros fb first X dl st' Hw; cbn [foldM] in Hw.
  - injection Hw as <-. exists [], []. cbn [ns_f ns_dirlist ns_root].
    rewrite !app_nil_r. split; [reflexivity|]. split; [reflexivity|].
    split; [reflexivity|constructor].
  - apply bind_Ok_inv in Hw as (st1 & Hx & Hw).
    apply write_node_dirlist in Hx as (rec & dir & first' & X' & Hdir & -> & He).
    apply IH in Hw as (recs & dirlist & Hf & Hdl & He' & HF).
    exists (rec ++ recs), (dir :: dirlist).
    rewrite Hf, Hdl, He', He, <- !app_assoc.
    split; [reflexivity|]. split; [reflexivity|]. split; [reflexivity|].
    constructor; [exact Hdir|].
    eapply Forall2_impl; [exact HF|]. intros y r Hy. cbv beta in Hy |- *.
    rewrite <- Hy. apply (by_erase (fun d => Archive_getitem (mkArchive d) y.2.1.1)).
    + intros d. apply Archive_getitem_erase.
    + symmetry. exact He.
Qed.

Lemma Forall2_compose {A B C} (R1 : A -> B -> Prop) (R2 : B -> C -> Prop)
    (l : list A) (k : list B) (m : list C) :
  Forall2 R1 l k -> Forall2 R2 k m ->
  Forall2 (fun a c => exists b, R1 a b /\ R2 b c) l m.
Proof.
  intros H1. revert m. induction H1 as [|a b l k Hab _ IH]; intros m H2.
  - apply Forall2_nil_inv_l in H2 as ->. constructor.
  - apply Forall2_cons_inv_l in H2 as (c & m' & Hbc & H2 & ->).
    constructor; [exists b; auto|apply IH, H2].
Qed.

(** The directories of [dirlist] in two trees that differ in their
    [_nodeindex] fields only. *)
Lemma dirs_erased (X T : Directory) (dirlist : list objref)
    (dirs : list (pystr * Directory)) :
  erase_nodeindex X = erase_nodeindex T ->
  Forall2 (fun dir ad => exists p, dir = DirRef p /\ dir_at X p = Some ad.2
                                   /\ absolute_path X p = Some ad.1) dirlist dirs ->
  exists dirsT,
    Forall2 (fun dir ad => exists p, dir = DirRef p /\ dir_at T p = Some ad.2
                                     /\ absolute_path T p = Some ad.1) dirlist dirsT
    /\ paths_of_dirs dirsT = paths_of_dirs dirs
    /\ files_of_dirs dirsT = files_of_dirs dirs
    /\ forall chunks, Forall2 chunk_of_dir chunks dirs -> Forall2 chunk_of_dir chunks dirsT.
Proof.
  intros He HF. induction HF as [|dir [abspath dX] dirlist dirs (p & -> & Hd & Ha) _ IH].
  - exists []. split; [constructor|]. split; [reflexivity|]. split; [reflexivity|].
    intros chunks Hc. exact Hc.
  - destruct IH as (dirsT & HFT & Hp & Hf & Hc). cbn [fst snd] in Hd, Ha.
    destruct (dir_at_erased T X dX p (eq_sym He) Hd) as (d & HdT & Hed).
    destruct (erased_fields d dX Hed) as (_ & Hfiles & Hsub & _).
    exists ((abspath, d) :: dirsT).
    split; [constructor; [|exact HFT]|].
    { exists p. cbn [fst snd]. split; [reflexivity|]. split; [exact HdT|].
      rewrite <- Ha. apply (by_erase (fun t => absolute_path t p)).
      - intros t. apply absolute_path_erase.
      - symmetry. exact He. }
    unfold paths_of_dirs, files_of_dirs in *. cbn [flat_map fst snd].
    rewrite Hp, Hf, Hfiles. split; [reflexivity|]. split; [reflexivity|].
    intros chunks Hchunks.
    apply Forall2_cons_inv_r in Hchunks as (c & chunks' & Hc1 & Hcs & ->).
    constructor; [|apply Hc, Hcs].
    unfold chunk_of_dir in *. cbn [fst snd] in *. rewrite Hfiles, Hsub. exact Hc1.
Qed.

Section Whole_table.
Context `{Codec} `{External}.

(** C3, amended. In the file-entry table that [write_arc] writes, at the
    offset the header gives, the directories stand in the order of the walk;
    each takes one entry per file, in the order of its [files] mapping (the
    key of the sort is a constant and the sort is stable), followed by its
    directory entries. The id of each file entry is the id of the override
    table when the file's full path is in it, and the running id otherwise:
    the running id starts at [maxindex] and goes on, through all the
    directories, from one past the id last written, an override id
    included. *)
Theorem file_entries_in_directory_order (self self' : Archive)
    (compression_settings : CompressionSetting) (filelisting : option filelisting_t)
    (maxindex : Z) (f : BytesIO) :
  write_arc self compression_settings filelisting maxindex = Ok (f, self') ->
  exists (dirs : list (pystr * Directory)) (chunks : list (list bytes * bytes))
         (before after : bytes),
    Forall2 (fun (item : walkitem) ad =>
               exists p, Archive_getitem self item.1.1 = Ok (DirRef p)
                         /\ dir_at (root self) p = Some ad.2
                         /\ absolute_path (root self) p = Some ad.1)
            (walk (root self) None) dirs
    /\ getvalue f = before ++ chunks_bytes chunks ++ after
    /\ len before = be_value (read_at (getvalue f) 44 4) + 0x20
    /\ Forall2 chunk_of_dir chunks dirs
    /\ Forall2 entry_of_file (concat chunks.*1)
               (zip (files_of_dirs dirs)
                    (written_ids filelisting maxindex (paths_of_dirs dirs))).
Proof.
  intros Hw. unfold write_arc in Hw.
  apply bind_Ok_inv in Hw as (st1 & _ & Hw).
  apply bind_Ok_inv in Hw as (st2 & _ & Hw).
  apply bind_Ok_inv in Hw as (st3 & _ & Hw).
  apply bind_Ok_inv in Hw as ([stt nodecount] & _ & Hw).
  apply bind_Ok_inv in Hw as (f0 & Hhdr & Hw).
  apply write_header_stream in Hhdr as (h & -> & Hhlen & _).
  apply bind_Ok_inv in Hw as (stn & Hnodes & Hw).
  apply write_nodes_dirlist in Hnodes as (recs & dirlist & Hnf & Hdl & He & HF).
  rewrite Hnf, Hdl, write_pad32_stream in Hw. cbn [app] in Hw.
  set (A1 := (h ++ recs) ++ replicate (padding (len (h ++ recs))) 0) in *.
  assert (HA1len : 64 <= len A1).
  { unfold A1. rewrite !len_app, len_replicate. unfold len at 1. rewrite Hhlen.
    pose proof (len_nonneg recs). lia. }
  rewrite tell_stream in Hw. change BytesIO_new with (stream []) in Hw.
  apply bind_Ok_inv in Hw as (ste & Hents & Hw).
  apply write_dirs_entries_ids in Hents
    as (dirsX & chunks & db' & fileid' & Hdirs & -> & Hchunks & HFs & _).
  cbn [es_f es_data] in Hw.
  rewrite write_pad32_stream in Hw.
  match type of Hw with
  | context [if negb ?c then _ else _] => destruct c; [|discriminate Hw]
  end.
  cbn [negb] in Hw. unfold write_to in Hw.
  rewrite !write_stream, !write_pad32_stream, !write_stream, ?getvalue_stream,
    ?tell_stream in Hw.
  set (table := chunks_bytes chunks) in *.
  set (pad2 := replicate (padding (len (A1 ++ table))) 0) in *.
  set (blob := getvalue (_strings stt)) in *.
  set (pad3 := replicate (padding (len (((A1 ++ table) ++ pad2) ++ blob))) 0) in *.
  set (B := ((((A1 ++ table) ++ pad2) ++ blob) ++ pad3) ++ db') in *.
  step_pack Hw. step_pack Hw. step_pack Hw. step_pack Hw.
  step_pack Hw. step_pack Hw. step_pack Hw. step_pack Hw.
  apply Ok_inj in Hw. apply pair_equal_spec in Hw as [<- _].
  assert (HB : B = A1 ++ table ++ pad2 ++ blob ++ pad3 ++ db').
  { unfold B. rewrite <- !app_assoc. reflexivity. }
  assert (HB64 : (64 <= length A1)%nat) by (unfold len in HA1len; lia).
  assert (Hh : length (take 64 B) = 64%nat).
  { rewrite length_take, HB, length_app. lia. }
  match goal with
  | |- context [write (write (write (write (seek (write (write (write (seek
                   (write (seek (stream B) 4) ?s1) 12) ?s2) ?s3) ?s4) 40) ?s5) ?s6) ?s7) ?s8] =>
      destruct (header_overwrite (take 64 B) (drop 64 B)
                  s1 s2 s3 s4 s5 s6 s7 s8 Hh
                  (length_be_bytes 4 _) (length_be_bytes 4 _) (length_be_bytes 4 _)
                  (length_be_bytes 4 _) (length_be_bytes 4 _) (length_be_bytes 4 _)
                  (length_be_bytes 4 _) (length_be_bytes 4 _))
        as (hdr & Hget & Hlen & _ & _ & _ & _ & _ & _ & _ & _ & Hfeo & _ & _)
  end.
  cbv zeta in Hget. rewrite take_drop in Hget. rewrite Hget.
  destruct (dirs_erased _ _ _ _ He Hdirs) as (dirs & HdirsT & Hpaths & Hfiles & Hchunk).
  exists dirs, chunks, (hdr ++ drop 64 A1), (pad2 ++ blob ++ pad3 ++ db').
  assert (Hdrop : drop 64 B = drop 64 A1 ++ table ++ pad2 ++ blob ++ pad3 ++ db').
  { rewrite HB. apply drop_app_le. exact HB64. }
  split; [|split; [|split; [|split]]].
  - assert (HF' : Forall2 (fun (item : walkitem) dir =>
                             Archive_getitem self item.1.1 = Ok dir)
                          (walk (root self) None) dirlist).
    { destruct self as [T]. cbn [root] in *.
      rewrite <- (snd_zip (seqZ 0 (len (walk T None))) (walk T None))
        by (rewrite length_seqZ; unfold len; lia).
      apply Forall2_fmap_l. exact HF. }
    eapply Forall2_impl; [exact (Forall2_compose _ _ _ _ _ HF' HdirsT)|].
    intros item ad (dir & Hdir & p & -> & Hd & Ha). exists p. auto.
  - rewrite Hdrop, <- !app_assoc. reflexivity.
  - rewrite read_at_app_l by (rewrite Hlen; cbn; lia).
    rewrite Hfeo, be_value_be_bytes by exact Hfield4.
    rewrite len_app. unfold len. rewrite Hlen, length_drop. lia.
  - apply Hchunk, Hchunks.
  - rewrite Hpaths, Hfiles. exact HFs.
Qed.

End Whole_table.

Lemma file_entries_in_directory_order_witness :
  exists f self' chunks before after,
    @write_arc ascii_codec no_tools example_archive CompressionSetting_default
               (Some example_filelisting) 7 = Ok (f, self')
    /\ getvalue f = before ++ chunks_bytes chunks ++ after
    /\ len before = be_value (read_at (getvalue f) 44 4) + 0x20
    /\ (length <$> chunks.*1) = [1; 1]%nat
    /\ (be_value <$> (take 2 <$> concat chunks.*1)) = [5; 6].
Proof.
  destruct (@write_arc ascii_codec no_tools example_archive CompressionSetting_default
              (Some example_filelisting) 7) as [[f self']| |] eqn:E;
    [|vm_compute in E; discriminate E..].
  destruct (@file_entries_in_directory_order ascii_codec no_tools example_archive self'
              CompressionSetting_default (Some example_filelisting) 7 f E)
    as (dirs & chunks & before & after & Hdirs & Hbuf & Hlen & Hchunks & HF).
  exists f, self', chunks, before, after.
  split; [reflexivity|]. split; [exact Hbuf|]. split; [exact Hlen|].
  change (walk (root example_archive) None)
    with [(py "root", [py "sub"], [py "a.bin"]); (py "root/sub", [], [py "b.bin"])] in Hdirs.
  apply Forall2_cons_inv_l in Hdirs as ([a1 d1] & dirs1 & (p1 & Hg1 & Hd1 & Ha1) & Hdirs & ->).
  apply Forall2_cons_inv_l in Hdirs as ([a2 d2] & dirs2 & (p2 & Hg2 & Hd2 & Ha2) & Hdirs & ->).
  apply Forall2_nil_inv_l in Hdirs as ->.
  vm_compute in Hg1. injection Hg1 as <-.
  vm_compute in Hg2. injection Hg2 as <-.
  cbn [fst snd] in Hd1, Ha1, Hd2, Ha2.
  vm_compute in Hd1, Ha1, Hd2, Ha2.
  injection Hd1 as <-. injection Ha1 as <-. injection Hd2 as <-. injection Ha2 as <-.
  apply Forall2_cons_inv_r in Hchunks as ([es1 r1] & chunks1 & [Hc1 _] & Hchunks & ->).
  apply Forall2_cons_inv_r in Hchunks as ([es2 r2] & chunks2 & [Hc2 _] & Hchunks & ->).
  apply Forall2_nil_inv_r in Hchunks as ->.
  cbn [fst snd files length] in Hc1, Hc2.
  split; [cbn [fmap list_fmap fst]; rewrite Hc1, Hc2; reflexivity|].
  remember (concat [(es1, r1); (es2, r2)].*1) as es eqn:Hes.
  match type of HF with
  | Forall2 _ _ ?z =>
      assert (Hz : z = [(example_file_a, 5); (example_file_b, 6)])
        by (vm_compute; reflexivity);
      rewrite Hz in HF; clear Hz
  end.
  apply Forall2_cons_inv_r in HF as (e1 & l1 & (_ & H1 & _) & HF & ->).
  apply Forall2_cons_inv_r in HF as (e2 & l2 & (_ & H2 & _) & HF & ->).
  apply Forall2_nil_inv_r in HF as ->.
  cbn [fmap list_fmap snd] in *. rewrite H1, H2. reflexivity.
Defined.

(** * Further properties of the code *)

(** ** Encoding, then decoding *)



(** X1. For a well-formed tree, decoding the bytes that
    [write_arc_uncompressed] wrote gives back the tree with the same
    hierarchy, names and file contents ([bare]) and no warning, whatever
    override table and [maxindex] were passed (they are not handed on). The
    decoded tree is [decoded_dir]: a directory's node index is its position
    in the walk, the id of a file is its position among the files of the
    walk, counted from 0, its flags are 0x11 and its hash that of its
    name. Enough fuel for the name loops is the length of the buffer. *)
Theorem decode_encode_uncompressed `{Codec} `{External} (self self' : Archive)
    (filelisting : option filelisting_t) (maxindex : Z) (f : BytesIO) (fuel : nat) :
  wf_archive self = true ->
  write_arc_uncompressed self filelisting maxindex = Ok (f, self') ->
  len (getvalue f) <= Z.of_nat fuel ->
  exists decoded,
    from_file fuel (getvalue f) = Ok (decoded, [])
    /\ root decoded = decoded_dir (root self) (root self) []
    /\ bare (root decoded) = bare (root self).
Proof.
  intros Hwf Hw Hfuel. unfold write_arc_uncompressed in Hw.
  exists (mkArchive (decoded_dir (root self) (root self) [])). split_and!.
  - eapply from_file_write_arc; [|exact Hwf|exact Hw|exact Hfuel]. reflexivity.
  - reflexivity.
  - apply bare_decoded_dir.
Qed.

Lemma decode_encode_uncompressed_witness :
  exists f self' decoded,
    @wf_archive ascii_codec example_archive = true
    /\ @write_arc_uncompressed ascii_codec no_tools example_archive
         (Some example_filelisting) 5 = Ok (f, self')
    /\ len (getvalue f) <= Z.of_nat 512
    /\ @from_file ascii_codec no_tools 512 (getvalue f) = Ok (decoded, [])
    /\ root decoded = decoded_dir (root example_archive) (root example_archive) []
    /\ bare (root decoded) = bare (root example_archive).
Proof.
  destruct (@write_arc_uncompressed ascii_codec no_tools example_archive
              (Some example_filelisting) 5) as [[f self']| |] eqn:E;
    [|vm_compute in E; discriminate E..].
  assert (Hlen : len (getvalue f) <= Z.of_nat 512).
  { vm_compute in E. injection E as <- _. vm_compute. discriminate. }
  destruct (@decode_encode_uncompressed ascii_codec no_tools example_archive self'
              (Some example_filelisting) 5 f 512 eq_refl E Hlen)
    as (decoded & H1 & H2 & H3).
  exists f, self', decoded. split_and!; try assumption; reflexivity.
Defined.

(** X2. The same for [write_arc] itself with any compression settings,
    when the override table has no entry for any path and [maxindex] is 0:
    no file is compressed, and decoding gives the tree back. *)
Theorem decode_encode `{Codec} `{External} (self self' : Archive)
    (compression_settings : CompressionSetting) (filelisting : option filelisting_t)
    (f : BytesIO) (fuel : nat) :
  wf_archive self = true ->
  filelisting = None \/ filelisting = Some ∅ ->
  write_arc self compression_settings filelisting 0 = Ok (f, self') ->
  len (getvalue f) <= Z.of_nat fuel ->
  exists decoded,
    from_file fuel (getvalue f) = Ok (decoded, [])
    /\ root decoded = decoded_dir (root self) (root self) []
    /\ bare (root decoded) = bare (root self).
Proof.
  intros Hwf Hfl Hw Hfuel.
  exists (mkArchive (decoded_dir (root self) (root self) [])). split_and!.
  - eapply from_file_write_arc; [|exact Hwf|exact Hw|exact Hfuel].
    intros filepath fileid. destruct Hfl as [->| ->]; [reflexivity|].
    unfold override_or. rewrite lookup_empty. reflexivity.
  - reflexivity.
  - apply bare_decoded_dir.
Qed.

Lemma decode_encode_witness :
  exists f self' decoded,
    @wf_archive ascii_codec example_archive = true
    /\ @write_arc ascii_codec no_tools example_archive
         (mkCompressionSetting false true (py "9")) (Some ∅) 0 = Ok (f, self')
    /\ len (getvalue f) <= Z.of_nat 512
    /\ @from_file ascii_codec no_tools 512 (getvalue f) = Ok (decoded, [])
    /\ bare (root decoded) = bare (root example_archive).
Proof.
  destruct (@write_arc ascii_codec no_tools example_archive
              (mkCompressionSetting false true (py "9")) (Some ∅) 0)
    as [[f self']| |] eqn:E; [|vm_compute in E; discriminate E..].
  assert (Hlen : len (getvalue f) <= Z.of_nat 512).
  { vm_compute in E. injection E as <- _. vm_compute. discriminate. }
  destruct (@decode_encode ascii_codec no_tools example_archive self'
              (mkCompressionSetting false true (py "9")) (Some ∅) f 512
              eq_refl (or_intror eq_refl) E Hlen)
    as (decoded & H1 & H2 & H3).
  exists f, self', decoded. split_and!; try assumption; reflexivity.
Defined.

(** ** The header the encoder writes *)

(** X3. In the buffer [write_arc] makes of a well-formed tree (no override
    table), the first four bytes are the magic, the size field at offset 4
    holds the length of the whole buffer, the field at offset 32 the number
    of directories of the walk, and the offsets of the entries, of the
    names and of the data (each stored less 0x20) lie in this order inside
    the buffer, the one of the names on a multiple of 32. *)
Theorem write_arc_header_fields `{Codec} `{External} (self self' : Archive)
    (compression_settings : CompressionSetting) (f : BytesIO) :
  wf_archive self = true ->
  write_arc self compression_settings None 0 = Ok (f, self') ->
  let buf := getvalue f in
  read_at buf 0 4 = RARC_magic
  /\ be_value (read_at buf 4 4) = len buf
  /\ be_value (read_at buf 32 4) = len (walk (root self) None)
  /\ (be_value (read_at buf 52 4) + 0x20) mod 0x20 = 0
  /\ 0x40 <= be_value (read_at buf 44 4) + 0x20
  /\ be_value (read_at buf 44 4) <= be_value (read_at buf 52 4)
  /\ be_value (read_at buf 52 4) <= be_value (read_at buf 12 4)
  /\ be_value (read_at buf 12 4) + 0x20 <= len buf.
Proof.
  intros Hwf Hw buf.
  destruct (write_arc_layout self self' compression_settings None f
              ltac:(reflexivity) Hwf Hw)
    as (stt & hdr & recs & pad1 & entries & pad2 & pad3 & data & Hlay).
  cbv zeta in Hlay.
  destruct Hlay as (Hbuf & Hreach & Hlen & Hmagic & Hsize & Hdo & Hnc & Hfeo & Hsto
                    & Hlt & Hal & Hrecs & Htab & _).
  set (A1 := hdr ++ concat recs ++ pad1) in *.
  set (A2 := A1 ++ concat entries ++ pad2) in *.
  set (A3 := A2 ++ getvalue (_strings stt) ++ pad3) in *.
  fold buf in Hbuf.
  assert (HlenA1 : 64 <= len A1).
  { unfold A1. rewrite len_app. unfold len at 1. rewrite Hlen.
    pose proof (len_nonneg (concat recs ++ pad1)). lia. }
  assert (HlenA2 : len A1 <= len A2).
  { unfold A2. rewrite len_app. pose proof (len_nonneg (concat entries ++ pad2)). lia. }
  assert (HlenA3 : len A2 <= len A3).
  { unfold A3. rewrite len_app.
    pose proof (len_nonneg (getvalue (_strings stt) ++ pad3)). lia. }
  assert (Hlenbuf : len buf = len A3 + len data) by (rewrite Hbuf; apply len_app).
  pose proof (len_nonneg data) as Hdatalen. rewrite len_app in Hlt.
  assert (Hhead : forall pos, (Z.to_nat pos + 4 <= 64)%nat ->
                    read_at buf pos 4 = read_at hdr pos 4).
  { intros pos Hpos. rewrite Hbuf. unfold A3, A2, A1. rewrite <- !app_assoc.
    apply read_at_app_l. rewrite Hlen. exact Hpos. }
  assert (Hwalk : len (walk (root self) None) = len (locs (root self))).
  { pose proof (walk_locs (root self) None) as Hwl. apply (f_equal length) in Hwl.
    rewrite !length_fmap in Hwl. unfold len. lia. }
  assert (Hnodes : len (locs (root self)) <= len A1).
  { apply Forall2_length in Hrecs as Hlr.
    rewrite length_zip_with, length_sums_from, length_map in Hlr.
    pose proof (len_node_records _ _ _ _ Hrecs) as Hrl.
    unfold A1. rewrite !len_app. pose proof (len_nonneg hdr). pose proof (len_nonneg pad1).
    pose proof (len_nonneg recs). unfold len in *. lia. }
  pose proof (len_nonneg (locs (root self))) as Hlocs.
  rewrite !Hhead by (cbn; lia).
  rewrite Hmagic, Hsize, Hdo, Hnc, Hfeo, Hsto, <- Hbuf.
  rewrite !be_value_be_bytes by (change (256 ^ Z.of_nat 4) with (2 ^ 32); lia).
  rewrite Hwalk. replace (len A2 - 32 + 32) with (len A2) by lia.
  split_and!; try reflexivity; lia.
Qed.

Lemma write_arc_header_fields_witness :
  exists f self',
    @wf_archive ascii_codec example_archive = true
    /\ @write_arc ascii_codec no_tools example_archive CompressionSetting_default None 0
       = Ok (f, self')
    /\ be_value (read_at (getvalue f) 4 4) = len (getvalue f)
    /\ be_value (read_at (getvalue f) 32 4) = 2.
Proof.
  destruct (@write_arc ascii_codec no_tools example_archive CompressionSetting_default
              None 0) as [[f self']| |] eqn:E; [|vm_compute in E; discriminate E..].
  destruct (@write_arc_header_fields ascii_codec no_tools example_archive self'
              CompressionSetting_default f eq_refl E) as (_ & H4 & H32 & _).
  exists f, self'. split_and!; [reflexivity|reflexivity|exact H4|exact H32].
Defined.

(** ** The tree after encoding *)

(** X4. [write_arc] changes nothing of the tree but the [_nodeindex]
    fields: names, files and hierarchy of the tree it leaves are those of
    the tree it was given, whatever the arguments. *)
Theorem write_arc_keeps_tree `{Codec} `{External} (self self' : Archive)
    (compression_settings : CompressionSetting) (filelisting : option filelisting_t)
    (maxindex : Z) (f : BytesIO) :
  write_arc self compression_settings filelisting maxindex = Ok (f, self') ->
  erase_nodeindex (root self') = erase_nodeindex (root self).
Proof.
  intros Hw. unfold write_arc in Hw.
  apply bind_Ok_inv in Hw as (st1 & _ & Hw).
  apply bind_Ok_inv in Hw as (st2 & _ & Hw).
  apply bind_Ok_inv in Hw as (st3 & _ & Hw).
  apply bind_Ok_inv in Hw as ([stt nodecount] & _ & Hw).
  apply bind_Ok_inv in Hw as (f0 & _ & Hw).
  apply bind_Ok_inv in Hw as (stn & Hnodes & Hw).
  apply write_nodes_erased in Hnodes as (as_ & Hroot & _). cbn [ns_root] in Hroot.
  apply bind_Ok_inv in Hw as (ste & _ & Hw).
  match type of Hw with
  | context [if negb ?c then _ else _] => destruct c
  end; [|discriminate Hw].
  cbn [negb] in Hw.
  do 8 (apply bind_Ok_inv in Hw as (? & _ & Hw)).
  apply Ok_inj in Hw. apply pair_equal_spec in Hw as [_ <-].
  cbn [root]. rewrite Hroot. apply erase_assign_all.
Qed.

Lemma write_arc_keeps_tree_witness :
  exists f self',
    @write_arc ascii_codec no_tools example_flat_archive CompressionSetting_default
               (Some example_filelisting) 5 = Ok (f, self')
    /\ erase_nodeindex (root self') = erase_nodeindex (root example_flat_archive).
Proof.
  destruct (@write_arc ascii_codec no_tools example_flat_archive CompressionSetting_default
              (Some example_filelisting) 5) as [[f self']| |] eqn:E;
    [|vm_compute in E; discriminate E..].
  exists f, self'. split; [reflexivity|].
  exact (@write_arc_keeps_tree ascii_codec no_tools _ _ _ _ _ _ E).
Defined.

(** X5. After [write_arc] on a well-formed tree, every directory carries as
    [_nodeindex] its position in the walk of the tree (the root 0). *)
Theorem write_arc_node_indices `{Codec} `{External} (self self' : Archive)
    (compression_settings : CompressionSetting) (f : BytesIO) (j : nat) (p : list nat) :
  wf_archive self = true ->
  write_arc self compression_settings None 0 = Ok (f, self') ->
  locs (root self) !! j = Some p ->
  _nodeindex <$> dir_at (root self') p = Some (Some (Z.of_nat j))
  /\ (walk (root self') None !! j : option walkitem) = walk (root self) None !! j.
Proof.
  intros Hwf Hw Hj.
  destruct (write_arc_layout self self' compression_settings None f
              ltac:(reflexivity) Hwf Hw)
    as (stt & hdr & recs & pad1 & entries & pad2 & pad3 & data & Hlay).
  cbv zeta in Hlay. destruct Hlay as (_ & _ & _ & _ & _ & _ & _ & _ & _ & _ & _ & _ & _ & ->).
  cbn [root]. split.
  - rewrite (nodeindex_assign_all _ 0 _ j p (NoDup_locs _) Hj).
    + rewrite Z.add_0_l. reflexivity.
    + apply elem_of_locs. eapply list_elem_of_lookup_2, Hj.
  - rewrite <- (walk_erase (assign_all _ _)), erase_assign_all, walk_erase. reflexivity.
Qed.

Lemma write_arc_node_indices_witness :
  exists f self',
    @wf_archive ascii_codec example_archive = true
    /\ @write_arc ascii_codec no_tools example_archive CompressionSetting_default None 0
       = Ok (f, self')
    /\ locs (root example_archive) !! 1%nat = Some [0%nat]
    /\ _nodeindex <$> dir_at (root self') [0%nat] = Some (Some 1).
Proof.
  destruct (@write_arc ascii_codec no_tools example_archive CompressionSetting_default
              None 0) as [[f self']| |] eqn:E; [|vm_compute in E; discriminate E..].
  destruct (@write_arc_node_indices ascii_codec no_tools example_archive self'
              CompressionSetting_default f 1 [0%nat] eq_refl E eq_refl) as [Hidx _].
  exists f, self'. split_and!; [reflexivity|reflexivity|reflexivity|exact Hidx].
Defined.

(** ** Names of the string table, read back *)

(** X6. A name the encoder interned is read back by [stringtable_get_name]:
    in any buffer that holds the blob of a string table at [len A], the
    offset [get_string_offset] gives for a name leads back to that name,
    when the shift-jis bytes of the name hold no zero byte and decode to
    the name. The loop makes at most as many turns as the blob has bytes. *)
Theorem stringtable_name_read_back `{Codec} (stt : StringTable) (s : pystr) (offset : Z)
    (fuel : nat) (A C : bytes) :
  StringTable_reachable stt -> wf_name s = true ->
  get_string_offset stt s = Ok offset ->
  (length (getvalue (_strings stt)) <= fuel)%nat ->
  stringtable_get_name fuel (A ++ getvalue (_strings stt) ++ C) (len A) offset = Ok s.
Proof.
  intros Hreach Hs Ho Hfuel.
  apply stringtable_get_name_interned; try assumption. apply reachable_inv, Hreach.
Qed.

Lemma stringtable_name_read_back_witness :
  exists stt,
    @write_string ascii_codec StringTable_new (py "ab") = Ok stt
    /\ @stringtable_get_name ascii_codec 3
         ([7; 7] ++ getvalue (_strings stt) ++ [9]) 2 0 = Ok (py "ab").
Proof.
  destruct (@write_string ascii_codec StringTable_new (py "ab")) as [stt| |] eqn:E;
    [|vm_compute in E; discriminate E..].
  exists stt. split; [reflexivity|].
  apply (@stringtable_name_read_back ascii_codec stt (py "ab") 0 3 [7; 7] [9]).
  - eapply (@reachable_write ascii_codec); [apply reachable_new|exact E].
  - reflexivity.
  - vm_compute in E. injection E as <-. reflexivity.
  - vm_compute in E. injection E as <-. vm_compute. lia.
Defined.

(** ** Flags and paths *)

(** X7. [from_flags] undoes [to_flags]: every [FileListing] is recovered
    from its flag byte, which lies in 0..255 and has the bits 0x40 and 0x08
    clear. *)
Theorem from_flags_to_flags (fl : FileListing) :
  from_flags (to_flags fl) = fl
  /\ 0 <= to_flags fl < 256
  /\ from_flags_notices (to_flags fl) = [].
Proof. destruct fl as [[] [] [] [] [] []]; vm_compute; intuition discriminate. Qed.

(** X8. [split_path] cuts at the first slash or backslash: the first part
    holds neither, the rest (when there is one) is not empty and the path is
    the first part, the separator and the rest; without a rest the path is
    the first part, possibly followed by one separator. *)
Theorem split_path_spec (path : pystr) :
  single_segment (split_path path).1 = true
  /\ match (split_path path).2 with
     | Some rest =>
         rest <> [] /\ exists c, (c = slash \/ c = backslash)
                                 /\ path = (split_path path).1 ++ c :: rest
     | None =>
         path = (split_path path).1
         \/ exists c, (c = slash \/ c = backslash) /\ path = (split_path path).1 ++ [c]
     end.
Proof.
  induction path as [|char path [IH1 IH2]]; [split; [reflexivity|left; reflexivity]|].
  cbn [split_path]. destruct (decide (char = slash \/ char = backslash)) as [Hc|Hc].
  - destruct path as [|c2 path]; cbn [fst snd].
    + split; [reflexivity|]. right. exists char. auto.
    + split; [reflexivity|]. split; [discriminate|]. exists char. auto.
  - destruct (split_path path) as [name rest]. cbn [fst snd] in *. split.
    + cbn [single_segment forallb]. rewrite bool_decide_eq_false_2 by exact Hc.
      exact IH1.
    + destruct rest as [rest|].
      * destruct IH2 as (Hne & c & Hsep & ->). split; [exact Hne|]. exists c. auto.
      * destruct IH2 as [->|(c & Hsep & ->)]; [left; reflexivity|].
        right. exists c. auto.
Qed.

(** ** Padding *)


(** X9. [write_pad32] moves a stream to the next multiple of 32 at or after
    its position, by fewer than 32 bytes; at the end of a stream it appends
    that many zero bytes. So the alignment that [write_arc] asserts after
    padding the entries always holds. *)
Theorem write_pad32_aligned (f : BytesIO) :
  0 <= tell f ->
  tell (write_pad32 f) mod 0x20 = 0
  /\ tell f <= tell (write_pad32 f) < tell f + 0x20
  /\ negb (tell (write_pad32 f) mod 0x20 =? 0) = false
  /\ (at_end f ->
      write_pad32 f
      = stream (getvalue f ++ replicate (Z.to_nat (tell (write_pad32 f) - tell f)) 0)).
Proof.
  intros Hp.
  assert (Ht : tell (write_pad32 f) = 32 * ((tell f + 31) / 32)
               /\ tell f <= 32 * ((tell f + 31) / 32) < tell f + 32).
  { pose proof (Z.div_mod (tell f + 31) 32 ltac:(lia)) as Hdm.
    pose proof (Z.mod_pos_bound (tell f + 31) 32 ltac:(lia)) as Hm.
    split; [|lia].
    unfold write_pad32. rewrite tell_write, len_replicate.
    rewrite next_aligned_pos_spec by exact Hp. lia. }
  destruct Ht as [Ht Hb].
  assert (Hmod : tell (write_pad32 f) mod 32 = 0).
  { rewrite Ht, Z.mul_comm. apply Z_mod_mult. }
  split; [exact Hmod|]. split; [lia|]. split.
  - change 0x20 with 32. rewrite Hmod. reflexivity.
  - intros Hend. rewrite Ht. pose proof (stream_at_end f Hend) as Hs.
    transitivity (write_pad32 (stream (getvalue f))); [rewrite <- Hs; reflexivity|].
    rewrite write_pad32_stream. unfold padding.
    rewrite next_aligned_pos_spec by apply len_nonneg.
    unfold at_end in Hend. rewrite <- Hend. reflexivity.
Qed.

Lemma write_pad32_aligned_witness :
  0 <= tell (stream [1; 2; 3])
  /\ tell (write_pad32 (stream [1; 2; 3])) = 32
  /\ getvalue (write_pad32 (stream [1; 2; 3])) = [1; 2; 3] ++ replicate 29 0.
Proof.
  assert (Hp : 0 <= tell (stream [1; 2; 3])) by (vm_compute; discriminate).
  pose proof (write_pad32_aligned (stream [1; 2; 3]) Hp) as (_ & _ & _ & Hw).
  split; [exact Hp|]. rewrite (Hw eq_refl). split; reflexivity.
Defined.

(** ** The cycle guard of the decoder *)


(** X10. The cycle guard bounds the nesting of [from_node]: on a buffer of
    bytes, whatever the node table and the entries say (cycles included),
    the nested calls never go deeper than the number of nodes. When more
    nested calls are allowed than there are nodes, [from_node] does not
    raise [RecursionError], and its result is the one under the bound that
    [from_file] hands over. *)
Theorem from_node_nesting_bounded `{Codec} (fuel : nat) (f : bytes) (name : pystr)
    (sto feo dto : Z) (nodelist : list node) (depth : nat) :
  is_bytes f -> (length nodelist < depth)%nat ->
  from_node depth fuel f name sto feo dto nodelist 0 None <> Raise RecursionError
  /\ from_node depth fuel f name sto feo dto nodelist 0 None
     = from_node (S (length nodelist)) fuel f name sto feo dto nodelist 0 None.
Proof.
  intros Hf Hd.
  assert (Hnn : Forall (fun b => 0 <= b) f).
  { eapply Forall_impl; [exact Hf|]. cbn. intros b Hb. lia. }
  split.
  - intros Hr.
    apply (from_node_raises_within depth fuel f sto feo dto nodelist Hnn) in Hr.
    + destruct Hr as [Hr|[Hr|Hr]]; discriminate Hr.
    + cbn [default]. apply NoDup_singleton.
    + constructor.
    + lia.
    + cbn [default length]. lia.
  - apply from_node_depth.
    + exact Hnn.
    + cbn [default]. apply NoDup_singleton.
    + constructor.
    + lia.
    + cbn [default length]. lia.
    + cbn [default length]. lia.
Qed.

Lemma from_node_nesting_bounded_witness :
  is_bytes cyclic_entries /\ (2 < 7)%nat
  /\ @from_node ascii_codec 7 4 cyclic_entries (py "root") 40 0 0
       [(None, 0, 1, 0); (None, 0, 1, 1)] 0 None
     = Ok (mkDirectory (py "root") (Some 0) []
             [(py "a", mkDirectory (py "a") (Some 1) [] [])],
           [Detected_recursive_directory (py "b") [1; 0] 0])
  /\ @from_node ascii_codec 7 4 cyclic_entries (py "root") 40 0 0
       [(None, 0, 1, 0); (None, 0, 1, 1)] 0 None
     = @from_node ascii_codec 3 4 cyclic_entries (py "root") 40 0 0
         [(None, 0, 1, 0); (None, 0, 1, 1)] 0 None.
Proof.
  assert (Hb : is_bytes cyclic_entries).
  { apply (bool_decide_unpack _). vm_compute. reflexivity. }
  assert (Hd : (length [((None, 0%Z, 1%Z, 0%Z) : node); (None, 0%Z, 1%Z, 1%Z)] < 7)%nat)
    by (cbn; lia).
  split; [exact Hb|]. split; [lia|]. split; [vm_compute; reflexivity|].
  exact (proj2 (@from_node_nesting_bounded ascii_codec 4 cyclic_entries (py "root")
                  40 0 0 [(None, 0, 1, 0); (None, 0, 1, 1)] 7 Hb Hd)).
Defined.

(** ** Insertion and compression *)

(** X11. [Directory.__setitem__] never stores anything: whatever the path
    and the entry, the directory is after the call what it was before. The
    call returns without an exception only for a path of several segments,
    which it looks up. *)
Theorem setitem_never_stores (self : Directory) (path : pystr) (entry : pyobj) :
  (Directory_setitem self path entry).1 = self
  /\ ((Directory_setitem self path entry).2 = Ok () ->
      no_rest (split_path path).2 = false).
Proof.
  unfold Directory_setitem. destruct (split_path path) as [name rest]. cbn [snd].
  destruct (no_rest rest).
  - cbn. split; [reflexivity|discriminate].
  - split; [|reflexivity].
    destruct (dict_in name (files self)); [reflexivity|].
    destruct (dict_index name (subdirs self)) as [i|]; [|reflexivity].
    destruct (subdirs self !! i) as [[k d]|]; reflexivity.
Qed.

Lemma pack_be_in_range (n : nat) (v : Z) :
  0 <= v < 256 ^ Z.of_nat n -> pack_be n v = Ok (be_bytes n v).
Proof. intros Hv. unfold pack_be. rewrite decide_True by exact Hv. reflexivity. Qed.

Lemma to_flags_range (fl : FileListing) : 0 <= to_flags fl < 256.
Proof. destruct fl as [[] [] [] [] [] []]; vm_compute; split; congruence. Qed.

(** X12. A file entry that the override table marks as yaz0-compressed
    cannot be written with the wszst setting when the module global
    [compression_setting] is unbound (rarc.py imported, not run as a
    script): the call never returns normally, and when the fields written
    before the branch are in range and the name is in the string table, it
    raises [NameError]. *)
Theorem compressed_entry_needs_global `{Codec} `{External}
    (compression_settings : CompressionSetting) (filelisting : filelisting_t)
    (stringtable : StringTable) (st : entry_state) (filepath : pystr) (file : File)
    (fileid : Z) (filemeta : FileListing) :
  filelisting !! filepath = Some (fileid, filemeta) ->
  is_yaz0 filemeta = true -> is_compressed filemeta = true ->
  wszst compression_settings = true ->
  module_compression_setting = None ->
  (forall st', write_file_entry compression_settings (Some filelisting) stringtable st
                                (filepath, file) <> Ok st')
  /\ (forall offset,
        0 <= fileid < 2 ^ 16 ->
        get_string_offset stringtable (file_name file) = Ok offset ->
        0 <= offset < 2 ^ 16 ->
        0 <= tell (es_data st) < 2 ^ 32 ->
        write_file_entry compression_settings (Some filelisting) stringtable st
                         (filepath, file) = Raise NameError).
Proof.
  intros Hfl Hy Hc Hw Hg. split.
  - intros st' Hok. unfold write_file_entry, override_or in Hok.
    rewrite Hfl in Hok.
    do 7 (apply bind_Ok_inv in Hok as (? & _ & Hok)).
    rewrite Hy, Hc, Hw, Hg in Hok. cbn [andb] in Hok.
    apply bind_Ok_inv in Hok as (? & Hdata & _). discriminate Hdata.
  - intros offset Hid Hoff Hoffr Hpos. unfold write_file_entry, override_or.
    rewrite Hfl. unfold write_uint16, write_uint8, write_uint32.
    pose proof (hash_name_range (file_name file)) as Hh.
    pose proof (to_flags_range filemeta) as Hf.
    rewrite (pack_be_in_range 2 fileid) by exact Hid. rewrite bind_Ok.
    rewrite (pack_be_in_range 2 (hash_name (file_name file))) by exact Hh.
    rewrite !bind_Ok.
    rewrite (pack_be_in_range 1 (to_flags filemeta)) by exact Hf. rewrite !bind_Ok.
    rewrite (pack_be_in_range 1 0) by (cbn; lia). rewrite !bind_Ok.
    rewrite Hoff, !bind_Ok.
    rewrite (pack_be_in_range 2 offset) by exact Hoffr. rewrite !bind_Ok.
    rewrite (pack_be_in_range 4 (tell (es_data st))) by exact Hpos. rewrite !bind_Ok.
    rewrite Hy, Hc, Hw, Hg. reflexivity.
Qed.

Lemma compressed_entry_needs_global_witness :
  let meta := mkFileListing true false true true false true in
  let fl : filelisting_t := {[ py "root/a.bin" := (5, meta) ]} in
  let settings := mkCompressionSetting false true (py "9") in
  let stt := {| _strings := stream (py "a.bin" ++ [0]);
                _stringmap := {[ py "a.bin" := 0 ]} |} in
  fl !! py "root/a.bin" = Some (5, meta)
  /\ get_string_offset stt (py "a.bin") = Ok 0
  /\ @write_file_entry ascii_codec no_tools settings (Some fl) stt
       (mkEntryState BytesIO_new BytesIO_new 0) (py "root/a.bin", example_file_a)
     = Raise NameError
  /\ @write_arc ascii_codec no_tools example_flat_archive settings (Some fl) 0
     = Raise NameError.
Proof.
  intros meta fl settings stt.
  split; [reflexivity|]. split; [reflexivity|]. split; [|vm_compute; reflexivity].
  refine (proj2 (@compressed_entry_needs_global ascii_codec no_tools settings fl stt
                   (mkEntryState BytesIO_new BytesIO_new 0) (py "root/a.bin")
                   example_file_a 5 meta eq_refl eq_refl eq_refl eq_refl eq_refl)
                0 _ eq_refl _ _); cbn; lia.
Defined.

(** ** The listing file *)

(** X13. What [from_string] makes of the text [to_string] gives: a file,
    not a directory, compressed and yaz0 exactly when the listing was both,
    a rel file exactly when the listing was one, a data file otherwise. *)
Theorem from_string_to_string (fl : FileListing) :
  from_string (to_string fl)
  = mkFileListing true false (is_compressed fl && is_yaz0 fl) (negb (is_rel fl))
                  (is_rel fl) (is_compressed fl && is_yaz0 fl)
  /\ to_string (from_string (to_string fl)) = to_string fl.
Proof. destruct fl as [[] [] [] [] [] []]; vm_compute; split; reflexivity. Qed.

(** X14. The flags of a file survive the way through the listing file
    ([from_flags], [to_string], [from_string], [to_flags]) exactly when
    they are 0x11, 0x21, 0x95 or 0xA5. *)
Theorem listing_keeps_flags (b : Z) :
  0 <= b < 256 ->
  (to_flags (from_string (to_string (from_flags b))) = b
   <-> b = 0x11 \/ b = 0x21 \/ b = 0x95 \/ b = 0xA5).
Proof.
  revert b. apply byte_Forall.
  eapply (bool_decide_unpack _). vm_compute. reflexivity.
Qed.

Lemma listing_keeps_flags_witness :
  0 <= 0x95 < 256
  /\ to_flags (from_string (to_string (from_flags 0x95))) = 0x95
  /\ to_string (from_flags 0x95) = py "yaz0_compressed".
Proof.
  split; [lia|]. split; [|reflexivity].
  apply (proj2 (listing_keeps_flags 0x95 ltac:(lia))). right. right. left. reflexivity.
Defined.

(** ** Lookups of the paths of the walk *)

Lemma unambiguous_spec (d : Directory) (m : nat) (k : pystr) (sd : Directory) :
  unambiguous d = true -> subdirs d !! m = Some (k, sd) ->
  dict_in k (files d) = false /\ unambiguous sd = true.
Proof.
  destruct d as [name idx fs sds]. cbn [unambiguous subdirs files].
  intros Hu Hm. rewrite forallb_forall in Hu.
  specialize (Hu (k, sd)). cbn [fst snd] in Hu.
  apply andb_true_iff in Hu as [Hn Hsd].
  - apply negb_true_iff in Hn. auto.
  - apply list_elem_of_In. eapply list_elem_of_lookup_2, Hm.
Qed.

Section Lookups.
Context `{Codec}.

Lemma Directory_getitem_found (q : list nat) (d sd : Directory) (k a : pystr) (m : nat) :
  wf_dir d = true -> unambiguous d = true ->
  subdirs d !! m = Some (k, sd) -> absolute_path sd q = Some a ->
  Directory_getitem d a = Ok (DirRef (m :: q)).
Proof.
  revert d sd k a m. induction q as [|m2 q IH]; intros d sd k a m Hwf Hun Hm Ha.
  - simpl in Ha. injection Ha as <-.
    destruct (wf_dir_spec _ Hwf) as [Hn Hsds].
    destruct (wf_node_spec _ Hn) as (_ & _ & Hsub & Hnd).
    rewrite Forall_lookup in Hsub.
    destruct (wf_subdir_spec _ (Hsub _ _ Hm)) as (Hk & _ & _ & Hseg & _).
    cbn [fst snd] in Hk, Hseg. subst k.
    destruct d as [name idx fs sds]. rewrite Directory_getitem_unfold.
    rewrite (split_path_single _ Hseg). cbn [no_rest].
    cbn [subdirs] in *. rewrite (dict_index_lookup _ _ _ _ Hnd Hm). reflexivity.
  - rewrite absolute_path_cons in Ha.
    destruct (subdirs sd !! m2) as [[k2 sd2]|] eqn:Hm2; [|discriminate].
    destruct (absolute_path sd2 q) as [a2|] eqn:Ha2; [|discriminate].
    change (Some (dir_name sd ++ py "/" ++ a2) = Some a) in Ha. apply (inj Some) in Ha. subst a.
    destruct (wf_dir_spec _ Hwf) as [Hn Hsds].
    destruct (wf_node_spec _ Hn) as (_ & _ & Hsub & Hnd).
    rewrite Forall_lookup in Hsub, Hsds.
    destruct (wf_subdir_spec _ (Hsub _ _ Hm)) as (Hk & _ & _ & Hseg & _).
    cbn [fst snd] in Hk, Hseg. subst k.
    pose proof (Hsds _ _ Hm) as Hwfsd. cbn [snd] in Hwfsd.
    destruct (wf_dir_spec _ Hwfsd) as [Hn2 _].
    destruct (wf_node_spec _ Hn2) as (_ & _ & Hsub2 & _).
    rewrite Forall_lookup in Hsub2.
    destruct (wf_subdir_spec _ (Hsub2 _ _ Hm2)) as (Hk2 & _ & He2 & _ & Hb2).
    cbn [fst snd] in Hk2, He2, Hb2. subst k2.
    apply entry_name_spec in He2 as (_ & _ & Hne2).
    destruct (absolute_path_not_blank sd2 q a2 Hne2 Hb2 Ha2) as [Hane Hab].
    destruct (unambiguous_spec _ _ _ _ Hun Hm) as [Hclash Hunsd].
    destruct d as [name idx fs sds]. rewrite Directory_getitem_unfold.
    rewrite (split_path_segment _ _ Hseg Hane).
    cbn [no_rest]. rewrite Hab. cbn [files subdirs] in *. rewrite Hclash.
    rewrite (dict_index_lookup _ _ _ _ Hnd Hm), Hm.
    change (default [] (Some a2)) with a2.
    rewrite (IH sd sd2 (dir_name sd2) a2 m2 Hwfsd Hunsd Hm2 Ha2). reflexivity.
Qed.

Lemma Archive_getitem_found (T : Directory) (p : list nat) (a : pystr) :
  wf_dir T = true -> unambiguous T = true -> single_segment (dir_name T) = true ->
  absolute_path T p = Some a ->
  Archive_getitem (mkArchive T) a = Ok (DirRef p).
Proof.
  intros Hwf Hun Hseg Ha. unfold Archive_getitem. cbn [root].
  destruct p as [|m q]; [simpl in Ha|rewrite absolute_path_cons in Ha].
  - injection Ha as <-. rewrite (split_path_single _ Hseg).
    cbn [no_rest]. rewrite decide_False by (intros E; apply E; reflexivity).
    reflexivity.
  - destruct (subdirs T !! m) as [[k sd]|] eqn:Hm; [|discriminate].
    destruct (absolute_path sd q) as [a'|] eqn:Ha'; [|discriminate].
    change (Some (dir_name T ++ py "/" ++ a') = Some a) in Ha.
    apply (inj Some) in Ha. subst a.
    destruct (wf_dir_spec _ Hwf) as [Hn Hsds].
    destruct (wf_node_spec _ Hn) as (_ & _ & Hsub & _).
    rewrite Forall_lookup in Hsub.
    destruct (wf_subdir_spec _ (Hsub _ _ Hm)) as (Hk & _ & He & _ & Hb).
    cbn [fst snd] in Hk, He, Hb. subst k.
    apply entry_name_spec in He as (_ & _ & Hne).
    destruct (absolute_path_not_blank sd q a' Hne Hb Ha') as [Hane Hab].
    rewrite (split_path_segment _ _ Hseg Hane).
    cbn [no_rest]. rewrite Hab. change (default [] (Some a')) with a'.
    eapply Directory_getitem_found; eassumption.
Qed.

End Lookups.

(** X15. In a well-formed tree in which no directory has a file named as
    one of its subdirectories, every path that [walk] yields is found by
    [Archive.__getitem__], which returns the directory the walk was at, and
    [Archive.listdir] of the path (when it is not ".") returns the file
    names followed by the directory names that [walk] yielded with it. *)
Theorem walk_paths_resolve `{Codec} (self : Archive) (j : nat) (dirpath : pystr)
    (dirnames filenames : list pystr) :
  wf_dir (root self) = true -> single_segment (dir_name (root self)) = true ->
  unambiguous (root self) = true ->
  walk (root self) None !! j = Some (dirpath, dirnames, filenames) ->
  exists p d,
    locs (root self) !! j = Some p
    /\ Archive_getitem self dirpath = Ok (DirRef p)
    /\ dir_at (root self) p = Some d
    /\ dirnames = keys (subdirs d) /\ filenames = keys (files d)
    /\ (dirpath <> py "." -> Archive_listdir self dirpath = Ok (filenames ++ dirnames)).
Proof.
  intros Hwf Hseg Hun Hj. destruct self as [T]. cbn [root] in *.
  pose proof (walk_locs T None) as Hwl.
  apply (f_equal (fun l => l !! j)) in Hwl. cbv beta in Hwl.
  unfold walkitem in *. rewrite !list_lookup_fmap, Hj in Hwl.
  destruct (locs T !! j) as [p|] eqn:Hp; [|discriminate Hwl].
  cbn [fmap option_fmap option_map] in Hwl. symmetry in Hwl. apply (inj Some) in Hwl.
  apply walk_item_at_Some in Hwl as (d & a & Hd & Ha & Hitem).
  cbn [prefixed] in Hitem. injection Hitem as -> -> ->.
  pose proof (Archive_getitem_found T p a Hwf Hun Hseg Ha) as Hg.
  exists p, d. split_and!; try reflexivity; try assumption.
  intros Hdot. unfold Archive_listdir. rewrite decide_False by exact Hdot.
  rewrite Hg, bind_Ok. cbn [listdir_of root]. rewrite Hd. reflexivity.
Qed.

Lemma walk_paths_resolve_witness :
  exists p d,
    locs (root example_archive) !! 1%nat = Some p
    /\ Archive_getitem example_archive (py "root/sub") = Ok (DirRef p)
    /\ dir_at (root example_archive) p = Some d
    /\ Archive_listdir example_archive (py "root/sub") = Ok [py "b.bin"].
Proof.
  destruct (@walk_paths_resolve ascii_codec example_archive 1 (py "root/sub") []
              [py "b.bin"] eq_refl eq_refl eq_refl eq_refl)
    as (p & d & Hp & Hg & Hd & _ & _ & Hl).
  exists p, d. split_and!; try assumption.
  apply Hl. intros E. vm_compute in E. discriminate E.
Defined.

(** ** A second round trip is exact *)

Lemma lookup_map {A B} (g : A -> B) (l : list A) (m : nat) :
  map g l !! m = g <$> l !! m.
Proof. exact (list_lookup_fmap g l m). Qed.

Lemma place_children_lookup {A} (p : list nat) (b m : nat)
    (l : list (pystr * (list nat -> A))) :
  place_children p b l !! m = (fun kg => (kg.1, kg.2 (p ++ [(b + m)%nat]))) <$> l !! m.
Proof.
  revert b m. induction l as [|[k g] l IH]; intros b [|m]; try reflexivity.
  - cbn. rewrite Nat.add_0_r. reflexivity.
  - cbn [place_children]. rewrite !lookup_cons, IH.
    replace (S b + m)%nat with (b + S m)%nat by lia. reflexivity.
Qed.

Lemma place_children_map {A B} (h : pystr * A -> B) (p : list nat) (b : nat)
    (l : list (pystr * (list nat -> A))) (l' : list B) :
  (forall m kg, l !! m = Some kg -> l' !! m = Some (h (kg.1, kg.2 (p ++ [(b + m)%nat])))) ->
  length l' = length l ->
  map h (place_children p b l) = l'.
Proof.
  intros Hl Hlen. apply list_eq. intros m.
  rewrite lookup_map, place_children_lookup.
  destruct (l !! m) as [kg|] eqn:E.
  - rewrite (Hl m kg E). reflexivity.
  - cbn. symmetry. apply lookup_ge_None. apply lookup_ge_None in E. lia.
Qed.

Lemma locs_decoded (T d : Directory) (p : list nat) : locs (decoded_dir T d p) = locs d.
Proof.
  revert p. induction d as [name idx fs sds IH] using Directory_ind'. intros p.
  cbn [decoded_dir locs]. do 3 f_equal.
  apply place_children_map; [|rewrite !length_map; reflexivity].
  intros m [k g] Hm. rewrite (lookup_map _ sds m) in Hm. rewrite (lookup_map _ sds m).
  destruct (sds !! m) as [[k' sd]|] eqn:E; [|discriminate Hm].
  cbn in Hm. injection Hm as <- <-. cbn.
  rewrite Forall_lookup in IH. rewrite (IH _ _ E). reflexivity.
Qed.

Lemma dir_at_decoded (T : Directory) (q : list nat) (d : Directory) (p : list nat) :
  dir_at (decoded_dir T d p) q = (fun dq => decoded_dir T dq (p ++ q)) <$> dir_at d q.
Proof.
  revert d p. induction q as [|m q IH]; intros d p.
  - cbn. rewrite app_nil_r. reflexivity.
  - destruct d as [name idx fs sds]. cbn [decoded_dir dir_at subdirs].
    rewrite place_children_lookup, lookup_map. destruct (sds !! m) as [[k sd]|]; [|reflexivity].
    cbn. rewrite IH, <- app_assoc. reflexivity.
Qed.

Lemma length_number_files (c : Z) (l : list (pystr * File)) :
  length (number_files c l) = length l.
Proof.
  revert c. induction l as [|[k file] l IH]; intros c; [reflexivity|].
  cbn [number_files length]. rewrite IH. reflexivity.
Qed.

Lemma number_files_idem (c : Z) (l : list (pystr * File)) :
  number_files c (number_files c l) = number_files c l.
Proof.
  revert c. induction l as [|[k file] l IH]; intros c; [reflexivity|].
  cbn [number_files]. rewrite IH. reflexivity.
Qed.

Lemma files_before_decoded (T : Directory) (j : nat) :
  files_before (decoded_dir T T []) j = files_before T j.
Proof.
  unfold files_before. rewrite locs_decoded. f_equal. apply map_ext. intros q.
  unfold files_at. rewrite dir_at_decoded.
  destruct (dir_at T q) as [[name idx fs sds]|]; [|reflexivity].
  cbn. unfold len. rewrite length_number_files. reflexivity.
Qed.

Lemma decoded_dir_idem (T d : Directory) (p : list nat) :
  decoded_dir (decoded_dir T T []) (decoded_dir T d p) p = decoded_dir T d p.
Proof.
  revert p. induction d as [name idx fs sds IH] using Directory_ind'. intros p.
  cbn [decoded_dir]. rewrite locs_decoded, files_before_decoded, number_files_idem.
  f_equal. apply list_eq. intros m.
  rewrite !place_children_lookup.
  rewrite (lookup_map _ (place_children p 0 _) m), place_children_lookup.
  rewrite (lookup_map _ sds m).
  destruct (sds !! m) as [[k sd]|] eqn:E; [|reflexivity].
  cbn. rewrite Forall_lookup in IH. rewrite (IH _ _ E). reflexivity.
Qed.

Lemma wf_dir_decoded `{Codec} (T d : Directory) (p : list nat) :
  wf_dir (decoded_dir T d p) = wf_dir d.
Proof.
  revert p. induction d as [name idx fs sds IH] using Directory_ind'. intros p.
  cbn [decoded_dir wf_dir]. unfold wf_node. cbn [files subdirs].
  rewrite keys_number_files, keys_place_children.
  assert (Hk : keys (map (fun kd : pystr * Directory => (kd.1, decoded_dir T kd.2)) sds)
               = keys sds).
  { unfold keys. change (map ?g0 ?x) with (g0 <$> x). rewrite <- list_fmap_compose.
    reflexivity. }
  rewrite Hk.
  assert (Hf : forallb wf_file (number_files (files_before T (index_of p (locs T))) fs)
               = forallb wf_file fs).
  { generalize (files_before T (index_of p (locs T))).
    induction fs as [|[k file] fs IHfs]; intros c; [reflexivity|].
    cbn [number_files forallb]. rewrite IHfs. reflexivity. }
  rewrite Hf.
  assert (Hs : forall b,
             forallb wf_subdir
               (place_children p b (map (fun kd => (kd.1, decoded_dir T kd.2)) sds))
             = forallb wf_subdir sds
             /\ forallb (fun kd => wf_dir kd.2)
                  (place_children p b (map (fun kd => (kd.1, decoded_dir T kd.2)) sds))
                = forallb (fun kd => wf_dir kd.2) sds).
  { clear Hk Hf. induction IH as [|[k sd] sds Hsd _ IHsds]; intros b; [split; reflexivity|].
    cbn [map place_children forallb fst snd]. destruct (IHsds (S b)) as [-> ->].
    rewrite Hsd. unfold wf_subdir. cbn [fst snd]. rewrite dir_name_decoded.
    split; reflexivity. }
  destruct (Hs O) as [-> ->]. reflexivity.
Qed.

(** X16. The tree that comes out of a round trip is a fixed point of it:
    encoding the decoded tree of a well-formed tree and decoding the bytes
    gives that very tree back, with its node indices, file ids, hashes and
    flags. *)
Theorem second_round_trip_exact `{Codec} `{External} (self self' : Archive)
    (filelisting : option filelisting_t) (maxindex : Z) (f : BytesIO) (fuel : nat) :
  wf_archive self = true ->
  let decoded := mkArchive (decoded_dir (root self) (root self) []) in
  write_arc_uncompressed decoded filelisting maxindex = Ok (f, self') ->
  len (getvalue f) <= Z.of_nat fuel ->
  from_file fuel (getvalue f) = Ok (decoded, []).
Proof.
  intros Hwf decoded Hw Hfuel. unfold write_arc_uncompressed in Hw.
  assert (Hwf' : wf_archive decoded = true).
  { unfold wf_archive in *. unfold decoded. cbn [root].
    rewrite dir_name_decoded, wf_dir_decoded. exact Hwf. }
  rewrite (from_file_write_arc decoded self' CompressionSetting_default None f fuel
             ltac:(reflexivity) Hwf' Hw Hfuel).
  unfold decoded. cbn [root]. rewrite decoded_dir_idem. reflexivity.
Qed.

Lemma second_round_trip_exact_witness :
  exists f self',
    @wf_archive ascii_codec example_archive = true
    /\ @write_arc_uncompressed ascii_codec no_tools
         (mkArchive (decoded_dir (root example_archive) (root example_archive) []))
         None 0 = Ok (f, self')
    /\ @from_file ascii_codec no_tools 512 (getvalue f)
       = Ok (mkArchive (decoded_dir (root example_archive) (root example_archive) []), []).
Proof.
  destruct (@write_arc_uncompressed ascii_codec no_tools
              (mkArchive (decoded_dir (root example_archive) (root example_archive) []))
              None 0) as [[f self']| |] eqn:E; [|vm_compute in E; discriminate E..].
  assert (Hlen : len (getvalue f) <= Z.of_nat 512).
  { vm_compute in E. injection E as <- _. vm_compute. discriminate. }
  exists f, self'. split; [reflexivity|]. split; [reflexivity|].
  exact (@second_round_trip_exact ascii_codec no_tools example_archive self' None 0 f 512
           eq_refl E Hlen).
Defined.

(** ** Names that shift-jis cannot encode *)

Lemma foldM_rejects {A S} (I : S -> Prop) (good : A -> Prop) (e0 : exn)
    (step : S -> A -> result S) (l : list A) :
  (forall s a, I s ->
     (exists s', step s a = Ok s' /\ I s' /\ good a) \/ step s a = Raise e0) ->
  forall s, I s ->
    (exists s', foldM step l s = Ok s' /\ I s' /\ Forall good l)
    \/ foldM step l s = Raise e0.
Proof.
  intros Hstep. induction l as [|a l IH]; intros s Hs.
  - left. exists s. repeat split; [exact Hs|constructor].
  - cbn [foldM]. destruct (Hstep s a Hs) as [(s' & -> & Hs' & Ha)| ->]; [|right; reflexivity].
    cbn. destruct (IH s' Hs') as [(s'' & -> & Hs'' & Hl)| ->]; [|right; reflexivity].
    left. exists s''. repeat split; [exact Hs''|constructor; assumption].
Qed.

Lemma write_string_rejects `{Codec} (st : StringTable) (s : pystr) :
  encoded_keys st ->
  (exists st', write_string st s = Ok st' /\ encoded_keys st' /\ sjis_encode s <> None)
  \/ write_string st s = Raise UnicodeEncodeError.
Proof.
  intros Hst. unfold write_string.
  destruct (_stringmap st !! s) as [offset|] eqn:E.
  - left. exists st. repeat split; [exact Hst|exact (Hst s offset E)].
  - destruct (sjis_encode s) as [bs|] eqn:Es; [|right; reflexivity].
    left. eexists. split; [reflexivity|]. split; [|discriminate].
    intros s1 o1. cbn [_stringmap]. destruct (decide (s1 = s)) as [->|Hne].
    + intros _. rewrite Es. discriminate.
    + rewrite lookup_insert_ne by congruence. apply Hst.
Qed.

Lemma intern_walkitem_rejects `{Codec} (st : StringTable * Z) (item : walkitem) :
  encoded_keys st.1 ->
  (exists st', intern_walkitem st item = Ok st' /\ encoded_keys st'.1
     /\ Forall (fun s => sjis_encode s <> None) (item.1.2 ++ item.2))
  \/ intern_walkitem st item = Raise UnicodeEncodeError.
Proof.
  destruct st as [stringtable nodecount], item as [[dir subdirnames] filenames].
  cbn [fst snd]. intros Hst. unfold intern_walkitem.
  destruct (foldM_rejects encoded_keys (fun s => sjis_encode s <> None)
              UnicodeEncodeError write_string subdirnames write_string_rejects
              stringtable Hst) as [(st1 & -> & Hst1 & H1)| ->]; [|right; reflexivity].
  cbn. destruct (foldM_rejects encoded_keys (fun s => sjis_encode s <> None)
              UnicodeEncodeError write_string filenames write_string_rejects
              st1 Hst1) as [(st2 & -> & Hst2 & H2)| ->]; [|right; reflexivity].
  cbn. left. eexists. split; [reflexivity|]. split; [exact Hst2|].
  apply Forall_app. split; assumption.
Qed.

(** X17. A tree with a name shift-jis cannot encode is never written: when
    the name of the root, or a key of a directory of the tree, has no
    encoding, [write_arc] raises [UnicodeEncodeError], whatever the
    settings. *)
Theorem write_arc_unencodable_name `{Codec} `{External} (self : Archive)
    (compression_settings : CompressionSetting) (filelisting : option filelisting_t)
    (maxindex : Z) (name : pystr) :
  (name = dir_name (root self)
   \/ exists item, item ∈ walk (root self) None /\ (name ∈ item.1.2 \/ name ∈ item.2)) ->
  sjis_encode name = None ->
  write_arc self compression_settings filelisting maxindex = Raise UnicodeEncodeError.
Proof.
  intros Hname Hnone. unfold write_arc.
  assert (Hnew : encoded_keys StringTable_new).
  { intros s offset. cbn. rewrite lookup_empty. discriminate. }
  destruct (write_string_rejects StringTable_new (py ".") Hnew)
    as [(st1 & -> & Hst1 & _)| ->]; [|reflexivity].
  cbn [mbind result_bind].
  destruct (write_string_rejects st1 (py "..") Hst1)
    as [(st2 & -> & Hst2 & _)| ->]; [|reflexivity].
  cbn [mbind result_bind].
  destruct (write_string_rejects st2 (dir_name (root self)) Hst2)
    as [(st3 & -> & Hst3 & Hroot)| ->]; [|reflexivity].
  cbn [mbind result_bind].
  destruct (foldM_rejects (fun st : StringTable * Z => encoded_keys st.1)
              (fun item : walkitem =>
                 Forall (fun s => sjis_encode s <> None) (item.1.2 ++ item.2))
              UnicodeEncodeError intern_walkitem (walk (root self) None)
              intern_walkitem_rejects (st3, 1) Hst3)
    as [(st4 & _ & _ & Hall)| ->]; [|reflexivity].
  exfalso. destruct Hname as [->|(item & Hitem & Hin)]; [exact (Hroot Hnone)|].
  rewrite Forall_forall in Hall. specialize (Hall item Hitem).
  rewrite Forall_forall in Hall. apply (Hall name); [|exact Hnone].
  apply elem_of_app. exact Hin.
Qed.

Lemma write_arc_unencodable_name_witness :
  @write_arc ascii_codec no_tools
    (mkArchive (mkDirectory (py "root") None
                  [([0x20AC], mkFile [0x20AC] None None None FileListing_default [1; 2; 3])] []))
    CompressionSetting_default None 0 = Raise UnicodeEncodeError.
Proof.
  apply (@write_arc_unencodable_name ascii_codec no_tools _ _ _ _ [0x20AC]).
  - right. eexists. split; [left|]. right. left.
  - reflexivity.
Defined.

(** ** What every decoded tree satisfies *)


Lemma keyed_spec (name : pystr) (idx : option Z) (fs : list (pystr * File))
    (sds : list (pystr * Directory)) :
  keyed (mkDirectory name idx fs sds) = true
  <-> Forall (fun kf => kf.1 = file_name kf.2 /\ entry_name kf.1 = true) fs
      /\ NoDup (keys fs)
      /\ Forall (fun kd => kd.1 = dir_name kd.2 /\ entry_name kd.1 = true
                           /\ keyed kd.2 = true) sds
      /\ NoDup (keys sds).
Proof.
  cbn [keyed]. rewrite !andb_true_iff, !bool_decide_eq_true, !forallb_forall.
  rewrite !Forall_forall.
  split.
  - intros [[[Hf Hnf] Hs] Hns]. repeat split; try assumption.
    + apply list_elem_of_In, Hf in H. apply andb_true_iff in H as [H _].
      apply bool_decide_eq_true in H. exact H.
    + apply list_elem_of_In, Hf in H. apply andb_true_iff in H as [_ H]. exact H.
    + apply list_elem_of_In, Hs in H. rewrite !andb_true_iff in H.
      destruct H as [[H _] _]. apply bool_decide_eq_true in H. exact H.
    + apply list_elem_of_In, Hs in H. rewrite !andb_true_iff in H. tauto.
    + apply list_elem_of_In, Hs in H. rewrite !andb_true_iff in H. tauto.
  - intros (Hf & Hnf & Hs & Hns). repeat split; try assumption.
    + intros x Hx. apply list_elem_of_In, Hf in Hx as [H1 H2].
      rewrite H2, andb_true_r. apply bool_decide_eq_true. exact H1.
    + intros x Hx. apply list_elem_of_In, Hs in Hx as (H1 & H2 & H3).
      rewrite H2, H3, !andb_true_r. apply bool_decide_eq_true. exact H1.
Qed.

Lemma dict_set_Forall {A} (P : pystr * A -> Prop) (k : pystr) (v : A)
    (d : list (pystr * A)) :
  Forall P d -> P (k, v) -> Forall P (dict_set k v d).
Proof.
  intros Hd Hkv. induction Hd as [|[k' v'] d Hx Hd IH]; cbn [dict_set].
  - constructor; [exact Hkv|constructor].
  - destruct (decide (k' = k)); constructor; assumption.
Qed.

Lemma keys_dict_set {A} (k : pystr) (v : A) (d : list (pystr * A)) (x : pystr) :
  x ∈ keys (dict_set k v d) -> x = k \/ x ∈ keys d.
Proof.
  induction d as [|[k' v'] d IH]; cbn [dict_set].
  - cbn. intros Hx. apply list_elem_of_singleton in Hx. left. exact Hx.
  - destruct (decide (k' = k)) as [->|Hne]; unfold keys; cbn [fmap list_fmap fst].
    + intros Hx. right. exact Hx.
    + intros Hx. apply elem_of_cons in Hx as [->|Hx]; [right; left|].
      destruct (IH Hx) as [->|Hin]; [left; reflexivity|right; right; exact Hin].
Qed.

Lemma dict_set_NoDup {A} (k : pystr) (v : A) (d : list (pystr * A)) :
  NoDup (keys d) -> NoDup (keys (dict_set k v d)).
Proof.
  induction d as [|[k' v'] d IH]; cbn [dict_set]; intros Hnd.
  - apply NoDup_singleton.
  - unfold keys in Hnd. cbn [fmap list_fmap fst] in Hnd.
    apply NoDup_cons in Hnd as [Hk' Hnd].
    destruct (decide (k' = k)) as [->|Hne]; unfold keys; cbn [fmap list_fmap fst].
    + apply NoDup_cons. split; assumption.
    + apply NoDup_cons. split; [|exact (IH Hnd)].
      intros Hin. apply keys_dict_set in Hin as [->|Hin]; [congruence|exact (Hk' Hin)].
Qed.


Section Keyed.
Context `{Codec}.
Variables (fuel : nat) (f : bytes) (sto feo dto : Z) (nodelist : list node).
Hypothesis f_nonneg : Forall (fun b => 0 <= b) f.
Hypothesis anonymous : forall i nd, nodelist !! S i = Some nd -> nd.1.1.1 = None.

Lemma from_node_keyed (depth : nat) :
  forall (_name : pystr) (cur : Z) (parents : option (list Z))
         (d : Directory) (log : list warning),
    0 ∈ cur :: default [] parents -> 0 <= cur ->
    from_node depth fuel f _name sto feo dto nodelist cur parents = Ok (d, log) ->
    keyed d = true /\ (cur <> 0 -> dir_name d = _name).
Proof.
  induction depth as [|depth IH]; intros _name cur parents d log H0 Hcur Hn;
    [discriminate Hn|].
  cbn [from_node] in Hn.
  destruct (nodelist !! Z.to_nat cur) as [[[[nm unknown] entrycount] entryoffset]|] eqn:E;
    [|discriminate Hn].
  cbv zeta in Hn.
  pose (I := fun st : Directory * list warning =>
               keyed st.1 = true /\ dir_name st.1 = default _name nm).
  assert (HI : I (d, log)).
  { revert Hn. apply foldM_invariant; [|split; reflexivity].
    clear d log. intros [newdir log] i [d' log'] _ [Hk Hname] Hstep.
    unfold from_node_entry in Hstep.
    destruct (unpack_fileentry (read_at f (feo + (entryoffset + i) * 20) 20))
      as [[[[[[[[fileid hashcode] flags] padbyte] nameoffset] fdo] datasize] padding]| |]
      eqn:Hu; try discriminate Hstep.
    rewrite ?bind_Ok in Hstep. cbv beta iota in Hstep.
    destruct (stringtable_get_name fuel f sto nameoffset) as [name| |] eqn:Hnm;
      try discriminate Hstep.
    rewrite ?bind_Ok in Hstep. case_bool_decide as Hskip.
    { injection Hstep as <- <-. split; assumption. }
    assert (Hen : entry_name name = true).
    { apply bool_decide_eq_true. repeat split; intros ->; apply Hskip; auto. }
    destruct newdir as [dname didx dfs dsds]. cbn [fst dir_name] in Hk, Hname.
    apply keyed_spec in Hk as (Hf & Hnf & Hs & Hns).
    destruct (nonzero (Z.land flags DIRECTORY) && negb (nonzero (Z.land flags FILE))).
    - cbv zeta in Hstep. rewrite ?bind_Ok in Hstep. case_bool_decide as Hrec.
      { injection Hstep as <- <-. split; [|exact Hname].
        apply keyed_spec. repeat split; assumption. }
      apply bind_Ok_inv in Hstep as ([subdir sublog] & Hsub & Hstep).
      injection Hstep as <- <-.
      assert (Hfdo : 0 <= fdo).
      { eapply unpack_fileentry_nonneg; [|exact Hu].
        unfold read_at. apply Forall_take, Forall_drop, f_nonneg. }
      destruct (IH name fdo (Some (cur :: default [] parents)) subdir sublog) as [Hks Hds];
        [right; exact H0|exact Hfdo|exact Hsub|].
      assert (Hne : fdo <> 0) by (intros ->; exact (Hrec H0)).
      specialize (Hds Hne).
      split; [|exact Hname]. unfold add_subdir. cbn [fst dir_name _nodeindex files subdirs].
      apply keyed_spec. repeat split; try assumption.
      + apply dict_set_Forall; [exact Hs|]. cbn [fst snd]. rewrite Hds. auto.
      + apply dict_set_NoDup. exact Hns.
    - unfold from_fileentry in Hstep. rewrite Hnm, !bind_Ok in Hstep.
      injection Hstep as <- <-.
      split; [|exact Hname]. unfold add_file. cbn [fst dir_name _nodeindex files subdirs].
      apply keyed_spec. repeat split; try assumption.
      + apply dict_set_Forall; [exact Hf|]. cbn. auto.
      + apply dict_set_NoDup. exact Hnf. }
  destruct HI as [Hk Hname]. cbn [fst] in Hk, Hname. split; [exact Hk|].
  intros Hne. rewrite Hname.
  destruct (Z.to_nat cur) as [|i] eqn:Ei; [lia|].
  pose proof (anonymous i _ E) as Hnone. cbn [fst] in Hnone. subst nm. reflexivity.
Qed.

End Keyed.

Lemma from_file_nodes_anonymous `{Codec} (fuel : nat) (sto : Z) (l : list Z) :
  forall (st st' : BytesIO * list node),
    Forall (fun i => i <> 0) l ->
    (forall i nd, st.2 !! S i = Some nd -> nd.1.1.1 = None) ->
    foldM (from_file_node fuel sto) l st = Ok st' ->
    getvalue st'.1 = getvalue st.1
    /\ forall i nd, st'.2 !! S i = Some nd -> nd.1.1.1 = None.
Proof.
  intros st st' Hl Hst Hf.
  pose (I := fun s : BytesIO * list node =>
               getvalue s.1 = getvalue st.1
               /\ forall i nd, s.2 !! S i = Some nd -> nd.1.1.1 = None).
  change (I st'). revert Hf. apply foldM_invariant; [|split; [reflexivity|exact Hst]].
  intros [f nodes] i [f' nodes'] Hi [Hg Han] Hstep.
  rewrite Forall_forall in Hl. specialize (Hl i Hi).
  unfold from_file_node, read in Hstep. cbv zeta in Hstep.
  apply bind_Ok_inv in Hstep as ([[[nameoffset unknown] entrycount] entryoffset] & _ & Hstep).
  destruct (decide (i = 0)) as [->|_]; [contradiction|].
  rewrite bind_Ok in Hstep. injection Hstep as <- <-.
  split; [exact Hg|]. cbn [snd]. intros j nd Hj.
  apply lookup_app_Some in Hj as [Hj|[_ Hj]]; [exact (Han j nd Hj)|].
  apply list_lookup_singleton_Some in Hj as [_ <-]. reflexivity.
Qed.


Lemma from_file_body_keyed `{Codec} (fuel : nat) (f : BytesIO) (arc : Archive)
    (log : list warning) :
  Forall (fun b => 0 <= b) (getvalue f) ->
  from_file_body fuel f = Ok (arc, log) -> keyed (root arc) = true.
Proof.
  intros Hnn Hb. unfold from_file_body in Hb.
  apply bind_Ok_inv in Hb as ([size f1] & H1 & Hb).
  apply getvalue_read_uint32 in H1.
  unfold read at 1 in Hb. cbv beta iota zeta in Hb.
  apply bind_Ok_inv in Hb as ([data_offset f2] & H2 & Hb).
  apply getvalue_read_uint32 in H2. cbn [getvalue] in H2.
  unfold read at 1 in Hb. cbv beta iota zeta in Hb.
  apply bind_Ok_inv in Hb as ([node_count f3] & H3 & Hb).
  apply getvalue_read_uint32 in H3. cbn [getvalue] in H3.
  unfold read at 1 in Hb. cbv beta iota zeta in Hb.
  apply bind_Ok_inv in Hb as ([file_entry_offset f4] & H4 & Hb).
  apply getvalue_read_uint32 in H4. cbn [getvalue] in H4.
  unfold read at 1 in Hb. cbv beta iota zeta in Hb.
  apply bind_Ok_inv in Hb as ([stringtable_offset f5] & H5 & Hb).
  apply getvalue_read_uint32 in H5. cbn [getvalue] in H5.
  unfold read at 1 in Hb. cbv beta iota zeta in Hb.
  apply bind_Ok_inv in Hb as ([f6 nodes] & H6 & Hb).
  destruct (decide (0 < node_count)) as [Hpos|Hle].
  2:{ rewrite seqZ_nil in H6 by lia. injection H6 as <- <-. discriminate Hb. }
  rewrite seqZ_cons in H6 by exact Hpos. cbn [foldM] in H6.
  apply bind_Ok_inv in H6 as ([f7 nodes0] & H7 & H6).
  apply from_file_node_getvalue in H7 as [H7 [nd0 Hnd0]]. cbn [fst snd getvalue] in H7, Hnd0.
  apply from_file_nodes_anonymous in H6 as [H6 Han].
  - cbn [fst snd] in H6, Han.
    destruct nodes as [|[[[rootfoldername ?] ?] ?] nodes]; [discriminate Hb|].
    apply bind_Ok_inv in Hb as ([rootdir log'] & Hn & Hb). injection Hb as <- <-.
    cbn [root].
    refine (proj1 (from_node_keyed fuel (getvalue f6) _ _ _ _ _ Han _ _ 0 None rootdir log'
                     ltac:(left) ltac:(lia) Hn)).
    rewrite H6, H7, H5, H4, H3, H2, H1. exact Hnn.
  - apply Forall_forall. intros i Hi. apply elem_of_seqZ in Hi. lia.
  - cbn [snd]. subst nodes0. intros i nd Hi. destruct i; discriminate Hi.
Qed.

(** X18. What every decoded archive satisfies: when [from_file] returns an
    archive for a buffer of bytes, then in every directory of its tree the
    files and the subdirectories are keyed by their own names, no key is
    repeated, and no entry is named ".", ".." or is nameless. *)
Theorem from_file_keyed `{Codec} `{External} (fuel : nat) (buf : bytes)
    (arc : Archive) (log : list warning) :
  is_bytes buf ->
  (forall b d, decompress false b = Ok d -> is_bytes d) ->
  from_file fuel buf = Ok (arc, log) ->
  keyed (root arc) = true.
Proof.
  intros Hbuf Hdec Hf. unfold from_file, read in Hf. cbv beta iota zeta in Hf.
  cbn [getvalue tell] in Hf.
  apply bind_Ok_inv in Hf as ([header f] & Hh & Hf).
  destruct (decide (header = RARC_magic)); [|discriminate Hf].
  refine (from_file_body_keyed fuel f arc log _ Hf).
  assert (Hb : is_bytes (getvalue f)).
  { destruct (decide (read_at buf 0 4 = Yaz0_magic)).
    - apply bind_Ok_inv in Hh as (tmp & Htmp & Hh). cbn [seek getvalue] in Htmp.
      unfold read in Hh. cbn [getvalue tell] in Hh. injection Hh as _ <-.
      cbn [getvalue]. exact (Hdec _ _ Htmp).
    - injection Hh as _ <-. exact Hbuf. }
  eapply Forall_impl; [exact Hb|]. cbn. intros b Hb'. lia.
Qed.

Lemma from_file_keyed_witness :
  exists buf arc log,
    is_bytes buf
    /\ (forall b d, @decompress no_tools false b = Ok d -> is_bytes d)
    /\ @from_file ascii_codec no_tools 512 buf = Ok (arc, log)
    /\ keyed (root arc) = true.
Proof.
  destruct (@write_arc_uncompressed ascii_codec no_tools example_archive None 0)
    as [[f self']| |] eqn:E; [|vm_compute in E; discriminate E..].
  assert (Hlen : len (getvalue f) <= Z.of_nat 512).
  { vm_compute in E. injection E as <- _. vm_compute. discriminate. }
  assert (Hb : is_bytes (getvalue f)).
  { vm_compute in E. injection E as <- _. apply (bool_decide_unpack _).
    vm_compute. reflexivity. }
  assert (Hd : forall b d, @decompress no_tools false b = Ok d -> is_bytes d).
  { intros b d Hd. discriminate Hd. }
  unfold write_arc_uncompressed in E.
  pose proof (@from_file_write_arc ascii_codec no_tools example_archive self'
                CompressionSetting_default None f 512 ltac:(reflexivity) eq_refl E Hlen)
    as Hr.
  eexists _, _, _. split; [exact Hb|]. split; [exact Hd|]. split; [exact Hr|].
  exact (@from_file_keyed ascii_codec no_tools 512 (getvalue f) _ [] Hb Hd Hr).
Defined.

(** ** The alignment of the sections *)



Lemma write_file_entry_aligned `{Codec} `{External}
    (compression_settings : CompressionSetting) (filelisting : option filelisting_t)
    (stringtable : StringTable) (n : Z) (st st' : entry_state) (x : pystr * File) :
  entries_inv n st ->
  write_file_entry compression_settings filelisting stringtable st x = Ok st' ->
  entries_inv n st'.
Proof.
  destruct st as [f data fileid], x as [filepath file]. unfold entries_inv.
  cbn [es_f es_data]. intros (Hf & Hn & Hd & _) Hw.
  rewrite (stream_at_end f Hf), (stream_at_end data Hd) in Hw.
  apply write_file_entry_stream in Hw as (offset & payload & Hw).
  destruct (override_or filelisting filepath fileid) as [id filemeta].
  destruct Hw as (_ & _ & _ & _ & _ & _ & ->). cbn [es_f es_data].
  rewrite !getvalue_stream.
  split; [apply at_end_stream|]. split; [|split; [apply at_end_stream|apply padded_aligned]].
  rewrite len_app.
  match goal with |- _ <= _ + len ?x => pose proof (len_nonneg x) end. lia.
Qed.

Lemma write_dir_entries_aligned `{Codec} `{External}
    (compression_settings : CompressionSetting) (filelisting : option filelisting_t)
    (maxindex : Z) (stringtable : StringTable) (X : Directory) (n : Z)
    (st st' : entry_state) (dir : objref) :
  entries_inv n st ->
  write_dir_entries compression_settings filelisting maxindex stringtable X st dir = Ok st' ->
  entries_inv n st'.
Proof.
  intros Hst Hw. unfold write_dir_entries in Hw.
  destruct dir as [p|]; [|discriminate Hw].
  destruct (dir_at X p) as [d|]; [|discriminate Hw].
  destruct (absolute_path X p) as [abspath|]; [|discriminate Hw].
  cbv zeta in Hw. apply bind_Ok_inv in Hw as (st1 & Hfiles & Hw).
  assert (H1 : entries_inv n st1).
  { revert Hfiles. apply (foldM_invariant (entries_inv n)); [|exact Hst].
    intros s a s' _. apply write_file_entry_aligned. }
  destruct H1 as (Hf1 & Hn1 & Hd1 & Hal1).
  apply bind_Ok_inv in Hw as (f2 & Hsub & Hw). injection Hw as <-.
  rewrite (stream_at_end _ Hf1) in Hsub.
  apply write_subdir_entries_stream in Hsub as (rest & -> & _).
  unfold entries_inv. cbn [es_f es_data]. rewrite getvalue_stream, len_app.
  pose proof (len_nonneg rest).
  split; [apply at_end_stream|]. split; [lia|]. split; assumption.
Qed.

(** X19. Whatever the tree, the override table and the settings, the
    buffer [write_arc] returns is a whole number of blocks of 32 bytes, its
    size field holds its length, and the offsets of the entries, of the
    names and of the data stored in the header are multiples of 32. *)
Theorem write_arc_aligned `{Codec} `{External} (self self' : Archive)
    (compression_settings : CompressionSetting) (filelisting : option filelisting_t)
    (maxindex : Z) (f : BytesIO) :
  write_arc self compression_settings filelisting maxindex = Ok (f, self') ->
  let buf := getvalue f in
  len buf mod 0x20 = 0
  /\ be_value (read_at buf 4 4) = len buf
  /\ be_value (read_at buf 44 4) mod 0x20 = 0
  /\ be_value (read_at buf 52 4) mod 0x20 = 0
  /\ be_value (read_at buf 12 4) mod 0x20 = 0.
Proof.
  intros Hw buf. unfold write_arc in Hw.
  apply bind_Ok_inv in Hw as (st1 & _ & Hw).
  apply bind_Ok_inv in Hw as (st2 & _ & Hw).
  apply bind_Ok_inv in Hw as (st3 & _ & Hw).
  apply bind_Ok_inv in Hw as ([stt nodecount] & _ & Hw).
  apply bind_Ok_inv in Hw as (f0 & Hhdr & Hw).
  apply write_header_stream in Hhdr as (h & -> & Hhlen & _).
  apply bind_Ok_inv in Hw as (stn & Hnodes & Hw).
  assert (Hn : at_end (ns_f stn)).
  { revert Hnodes. apply (foldM_invariant (fun s => at_end (ns_f s))); [|apply at_end_stream].
    intros s a s' _. apply write_node_at_end. }
  assert (Hnlen : 64 <= len (getvalue (ns_f stn))).
  { revert Hnodes.
    apply (foldM_invariant (fun s => at_end (ns_f s) /\ 64 <= len (getvalue (ns_f s)))).
    - intros [fs first X dl] [i [[dirpath dirnames] filenames]] s' _ [He Hl] Hs.
      split; [exact (write_node_at_end _ _ _ _ He Hs)|].
      cbn [ns_f] in *. rewrite (stream_at_end fs He) in Hs.
      unfold write_node in Hs.
      cbn [ns_root ns_f ns_dirlist ns_first_file_entry_index] in Hs.
      apply bind_Ok_inv in Hs as (dir & _ & Hs).
      destruct (ref_name (set_ref_nodeindex X dir i) dir) as [name|]; [|discriminate Hs].
      apply bind_Ok_inv in Hs as (nodetype & _ & Hs). rewrite write_stream in Hs.
      apply bind_Ok_inv in Hs as (offset & _ & Hs).
      step_write Hs. step_write Hs. step_write Hs. step_write Hs.
      apply Ok_inj in Hs. subst s'. cbn [ns_f].
      rewrite getvalue_stream, <- !app_assoc, len_app.
      match goal with |- _ <= _ + len ?x => pose proof (len_nonneg x) end.
      lia.
    - split; [apply at_end_stream|]. cbn [ns_f]. rewrite getvalue_stream. unfold len.
      rewrite Hhlen. lia. }
  rewrite (stream_at_end _ Hn), write_pad32_stream in Hw.
  set (A1 := getvalue (ns_f stn) ++ replicate (padding (len (getvalue (ns_f stn)))) 0) in *.
  pose proof (padded_aligned (getvalue (ns_f stn))) as HA1. fold A1 in HA1.
  assert (HA1len : 64 <= len A1).
  { unfold A1. rewrite len_app.
    pose proof (len_nonneg (replicate (padding (len (getvalue (ns_f stn)))) 0)). lia. }
  rewrite tell_stream in Hw.
  apply bind_Ok_inv in Hw as (ste & Hents & Hw).
  assert (He : entries_inv 64 ste).
  { revert Hents. apply (foldM_invariant (entries_inv 64)).
    - intros s a s' _. apply write_dir_entries_aligned.
    - unfold entries_inv. cbn [es_f es_data]. rewrite getvalue_stream.
      split; [apply at_end_stream|]. split; [exact HA1len|]. split; reflexivity. }
  destruct He as (Hef & Hf64 & Hed & Hdal).
  rewrite (stream_at_end _ Hef), write_pad32_stream in Hw.
  set (A2 := getvalue (es_f ste) ++ replicate (padding (len (getvalue (es_f ste)))) 0) in *.
  pose proof (padded_aligned (getvalue (es_f ste))) as HA2. fold A2 in HA2.
  match type of Hw with
  | context [if negb ?c then _ else _] => destruct c; [|discriminate Hw]
  end.
  cbn [negb] in Hw. unfold write_to in Hw.
  rewrite !write_stream, !write_pad32_stream, !write_stream, ?getvalue_stream,
    ?tell_stream in Hw.
  set (blob := getvalue (_strings stt)) in *.
  set (A3 := (A2 ++ blob) ++ replicate (padding (len (A2 ++ blob))) 0) in *.
  pose proof (padded_aligned (A2 ++ blob)) as HA3. fold A3 in HA3.
  set (data := getvalue (es_data ste)) in *.
  step_pack Hw. step_pack Hw. step_pack Hw. step_pack Hw.
  step_pack Hw. step_pack Hw. step_pack Hw. step_pack Hw.
  apply Ok_inj in Hw. apply pair_equal_spec in Hw as [<- _].
  set (B := A3 ++ data) in *.
  assert (HB64 : 64 <= len B).
  { unfold B, A3, A2. rewrite !len_app, !len_replicate.
    pose proof (len_nonneg blob). pose proof (len_nonneg data). lia. }
  assert (HlenB : len B mod 0x20 = 0).
  { unfold B. rewrite len_app, Z.add_mod, HA3, Hdal by lia. reflexivity. }
  assert (Hh : length (take 64 B) = 64%nat).
  { rewrite length_take. unfold len in HB64. lia. }
  subst buf.
  match goal with
  | |- context [write (write (write (write (seek (write (write (write (seek
                   (write (seek (stream B) 4) ?s1) 12) ?s2) ?s3) ?s4) 40) ?s5) ?s6) ?s7) ?s8] =>
      destruct (header_overwrite (take 64 B) (drop 64 B)
                  s1 s2 s3 s4 s5 s6 s7 s8 Hh
                  (length_be_bytes 4 _) (length_be_bytes 4 _) (length_be_bytes 4 _)
                  (length_be_bytes 4 _) (length_be_bytes 4 _) (length_be_bytes 4 _)
                  (length_be_bytes 4 _) (length_be_bytes 4 _))
        as (hdr & Hget & Hlen & _ & Hsize & _ & Hdo & _ & _ & _ & _ & Hfeo & _ & Hsto)
  end.
  cbv zeta in Hget. rewrite take_drop in Hget.
  assert (Hlenbuf : len (hdr ++ drop 64 B) = len B).
  { rewrite <- (take_drop 64 B) at 2. unfold len. rewrite !length_app, Hlen, Hh.
    reflexivity. }
  assert (Hhead : forall pos, (Z.to_nat pos + 4 <= 64)%nat ->
                    read_at (hdr ++ drop 64 B) pos 4 = read_at hdr pos 4).
  { intros pos Hpos. apply read_at_app_l. rewrite Hlen. exact Hpos. }
  rewrite Hget, Hlenbuf, !Hhead by (cbn; lia).
  rewrite Hsize, Hdo, Hfeo, Hsto.
  change (256 ^ Z.of_nat 4) with (2 ^ 32) in *.
  rewrite !be_value_be_bytes by (change (256 ^ Z.of_nat 4) with (2 ^ 32); lia).
  split; [exact HlenB|]. split; [reflexivity|].
  change 0x20 with 32 in *.
  split_and!.
  - rewrite Zminus_mod, HA1. reflexivity.
  - rewrite Zminus_mod, HA2. reflexivity.
  - rewrite Zminus_mod, HA3. reflexivity.
Qed.

Lemma write_arc_aligned_witness :
  exists f self',
    @write_arc ascii_codec no_tools example_archive CompressionSetting_default
      (Some example_filelisting) 5 = Ok (f, self')
    /\ len (getvalue f) mod 0x20 = 0
    /\ be_value (read_at (getvalue f) 4 4) = len (getvalue f)
    /\ be_value (read_at (getvalue f) 12 4) mod 0x20 = 0.
Proof.
  destruct (@write_arc ascii_codec no_tools example_archive CompressionSetting_default
              (Some example_filelisting) 5) as [[f self']| |] eqn:E;
    [|vm_compute in E; discriminate E..].
  destruct (@write_arc_aligned ascii_codec no_tools example_archive self'
              CompressionSetting_default (Some example_filelisting) 5 f E)
    as (H1 & H2 & _ & _ & H3).
  exists f, self'. split_and!; [reflexivity|exact H1|exact H2|exact H3].
Defined.

(** ** The first segment of a path *)

(** X20. [Archive.__getitem__] compares the first segment of a path with
    the name of the root only when the path has nothing after it: of a
    path with more segments the first one is ignored, so any two paths
    that differ only in it are looked up alike. *)
Theorem getitem_ignores_first_segment (self : Archive) (a b rest : pystr) :
  single_segment a = true -> single_segment b = true ->
  forallb isspace rest = false ->
  Archive_getitem self (a ++ py "/" ++ rest) = Archive_getitem self (b ++ py "/" ++ rest)
  /\ Archive_getitem self (a ++ py "/" ++ rest) = Directory_getitem (root self) rest.
Proof.
  intros Ha Hb Hrest.
  assert (Hne : rest <> []) by (intros ->; discriminate Hrest).
  unfold Archive_getitem.
  rewrite (split_path_segment a rest Ha Hne), (split_path_segment b rest Hb Hne).
  cbn [no_rest default]. rewrite Hrest. split; reflexivity.
Qed.

Lemma getitem_ignores_first_segment_witness :
  Archive_getitem example_archive (py "root/sub/b.bin")
  = Archive_getitem example_archive (py "elsewhere/sub/b.bin")
  /\ Archive_getitem example_archive (py "root/sub/b.bin")
     = Directory_getitem (root example_archive) (py "sub/b.bin").
Proof.
  exact (getitem_ignores_first_segment example_archive (py "root") (py "elsewhere")
           (py "sub/b.bin") eq_refl eq_refl eq_refl).
Defined.

